(** * Verification of the portfolio valuation pipeline (portfolio_notify.py)

    A shallow embedding of the valuation pipeline of [portfolio_notify.py]:
    the rate limiter, the valuation engine ([build_rows]), the reporters
    ([format_report], [format_report_html], [dataset_to_csv]), the monthly
    dataset builder and the exit statuses of [main].

    Modelling conventions.
    - A Python [float] is an IEEE-754 binary64 number: Rocq's primitive
      [float].  Python's [x != x] is [is_nan x]; arithmetic is the primitive
      arithmetic, except [/], which raises [ZeroDivisionError] on a zero
      divisor ([py_div]).
    - A Python exception is a value of [exn]; a computation that may raise
      has type [result A].  [except Exception] catches every [exn] but
      [KeyboardInterrupt] and [SystemExit] ([try_except]).
    - A [str] is a [string] (its UTF-8 bytes); [str.upper] is modelled on the
      ASCII letters and leaves every other byte in place.  What is to hold
      of text in any script is stated of [build_rows_with], which takes
      [str.upper] as a parameter.
    - A [dict] keyed by strings is a [gmap string _].
    - Network and file access are oracles: functions from the arguments of the
      call to its outcome, gathered in records. *)

From Stdlib Require Import ZArith QArith Qabs Floats Lia Lqa.
From Stdlib Require Import Ascii.
From stdpp Require Import gmap strings list.

Local Open Scope Z_scope.

(* ================================================================== *)
(** ** Exceptions and the error monad *)

Inductive exn : Type :=
| ValueError (msg : string)
| RuntimeError (msg : string)
| NameError (msg : string)
| IndexError (msg : string)
| OverflowError (msg : string)
| ZeroDivisionError (msg : string)
| OSError (msg : string)
| KeyboardInterrupt
| SystemExit.

(** [isinstance(e, Exception)]: everything but the two [BaseException]s. *)
Definition is_Exception (e : exn) : bool :=
  match e with
  | KeyboardInterrupt | SystemExit => false
  | _ => true
  end.

(** [str(e)]: the message the exception was raised with. *)
Definition exn_str (e : exn) : string :=
  match e with
  | ValueError m | RuntimeError m | NameError m | IndexError m
  | OverflowError m | ZeroDivisionError m | OSError m => m
  | KeyboardInterrupt | SystemExit => ""
  end.

Inductive result (A : Type) : Type :=
| Ok (a : A)
| Raise (e : exn).
Arguments Ok {A} a.
Arguments Raise {A} e.

Global Instance result_ret : MRet result := fun A a => Ok a.
Global Instance result_bind : MBind result := fun A B f r =>
  match r with
  | Ok a => f a
  | Raise e => Raise e
  end.

(** [try: body  except Exception: handler]. *)
Definition try_except {A} (body : result A) (handler : exn -> result A) : result A :=
  match body with
  | Ok a => Ok a
  | Raise e => if is_Exception e then handler e else Raise e
  end.

(** A [for] loop whose body may raise, threading the loop's variables. *)
Fixpoint for_each {A S} (xs : list A) (body : S -> A -> result S) (s : S) : result S :=
  match xs with
  | [] => Ok s
  | x :: xs' => s' ← body s x; for_each xs' body s'
  end.

(* ================================================================== *)
(** ** Floats *)

Definition nan : float := PrimFloat.nan.

(** Python's [x != x]. *)
Definition is_nan (x : float) : bool := negb (x =? x)%float.

(** Python's [x == 0] on a float (true of [0.0] and [-0.0]). *)
Definition is_zero (x : float) : bool := (x =? 0)%float.

(** [x / y] on floats. *)
Definition py_div (x y : float) : result float :=
  if is_zero y then Raise (ZeroDivisionError "float division by zero")
  else Ok (x / y)%float.

(** [o or float("nan")] for [o : Optional[float]]: [None] and zero are falsy. *)
Definition or_nan (o : option float) : float :=
  match o with
  | Some x => if is_zero x then nan else x
  | None => nan
  end.

(** [o in (None, 0)]. *)
Definition in_None_0 (o : option float) : bool :=
  match o with
  | None => true
  | Some x => is_zero x
  end.

(** Python's [math.isfinite], JavaScript's [isFinite]: neither a NaN nor an
    infinity. *)
Definition is_number (x : float) : bool :=
  match Prim2SF x with
  | S754_zero _ | S754_finite _ _ _ => true
  | _ => false
  end.

(** The nearest integer to [n / d], ties to the even one ([0 <= n], [0 < d]). *)
Definition round_half_even (n d : Z) : Z :=
  let q := n / d in
  match (2 * (n mod d) ?= d) with
  | Lt => q
  | Gt => q + 1
  | Eq => if Z.even q then q else q + 1
  end.

(** The magnitude [m * 2^e] scaled by [scale] and rounded to an integer. *)
Definition scaled_magnitude (scale : Z) (m : positive) (e : Z) : Z :=
  match e with
  | Zneg p => round_half_even (Zpos m * scale) (2 ^ Zpos p)
  | _ => Zpos m * scale * 2 ^ e
  end.

(** [int(round(x))]: [round] gives the nearest integer, ties to even, and
    refuses a NaN and the infinities. *)
Definition int_round (x : float) : result Z :=
  match Prim2SF x with
  | S754_nan => Raise (ValueError "cannot convert float NaN to integer")
  | S754_infinity _ => Raise (OverflowError "cannot convert float infinity to integer")
  | S754_zero _ => Ok 0
  | S754_finite s m e =>
      let a := scaled_magnitude 1 m e in Ok (if s then - a else a)
  end.

(* ================================================================== *)
(** ** Strings *)

Definition upper_ascii (c : ascii) : ascii :=
  let n := N_of_ascii c in
  if ((97 <=? n) && (n <=? 122))%N then ascii_of_N (n - 32) else c.

(** [s.upper()]. *)
Fixpoint upper (s : string) : string :=
  match s with
  | EmptyString => EmptyString
  | String c s' => String (upper_ascii c) (upper s')
  end.

(** [o or default] for [o : Optional[str]]: [None] and [""] are falsy. *)
Definition str_or (o : option string) (default : string) : string :=
  match o with
  | Some s => if decide (s = "") then default else s
  | None => default
  end.

(* ================================================================== *)
(** ** Data models *)

Record Holding : Type := mkHolding {
  h_symbol : string;
  h_shares : float;
  h_currency : option string
}.

Record Row : Type := mkRow {
  symbol : string;
  shares : float;
  currency : string;
  usd_price : float;
  usd_value : float;
  jpy_price : float;
  jpy_value : float;
  per : float;
  usd_mom : float;
  usd_dod : float;
  jpy_mom : float;
  jpy_dod : float;
  usd_yoy : float;
  jpy_yoy : float;
  company_name : option string
}.

Record AlphaVantageConfig : Type := mkAlphaVantageConfig { api_key : string }.

Record AppConfig : Type := mkAppConfig {
  price_provider : AlphaVantageConfig;
  price_provider_type : string;
  cfg_currency : option string;
  quote_currency : string
}.

(* ================================================================== *)
(** ** Python sequences *)

(** [l[i]], a negative [i] counting from the end. *)
Definition py_index {A} (l : list A) (i : Z) : result A :=
  let n := Z.of_nat (length l) in
  let j := if i <? 0 then n + i else i in
  if (j <? 0) || (n <=? j) then Raise (IndexError "list index out of range")
  else match l !! Z.to_nat j with
       | Some x => Ok x
       | None => Raise (IndexError "list index out of range")
       end.

(** [l[i:]], a negative [i] counting from the end. *)
Definition py_slice_from {A} (l : list A) (i : Z) : list A :=
  let n := Z.of_nat (length l) in
  let j := if i <? 0 then Z.max (n + i) 0 else i in
  drop (Z.to_nat j) l.

(** [{k: v for (k, v) in pairs}]: a later pair overrides an earlier one. *)
Definition dict_of_pairs {V} (pairs : list (string * V)) : gmap string V :=
  foldl (fun m kv => <[kv.1 := kv.2]> m) ∅ pairs.

(* ================================================================== *)
(** ** Price providers

    The two providers reach the network through the [requests] and [yfinance]
    libraries.  The model takes the outcome of each such call from an oracle.
    For [YFinanceProvider], [_last_price], [previous_day_close], [get_name]
    and [get_per] are fallback chains over the library's answers and are
    oracles as a whole; [yf_history symbol period] is the list of (label,
    close) pairs that [get_monthly_series] reads off
    [Ticker(symbol).history(period, interval="1mo")]. *)

Record AlphaVantageOracle : Type := mkAlphaVantageOracle {
  av_get_price : string -> result float;
  av_get_fx_rate : string -> string -> result float
}.

Record YFinanceOracle : Type := mkYFinanceOracle {
  yf_last_price : string -> result (option float);
  yf_previous_day_close : string -> result (option float);
  yf_history : string -> string -> result (list (string * float));
  yf_get_name : string -> result (option string);
  yf_get_per : string -> result (option float)
}.

Inductive PriceProvider : Type :=
| AlphaVantageProvider (o : AlphaVantageOracle)
| YFinanceProvider (o : YFinanceOracle).

Definition _period_for (m : Z) : string :=
  if m <=? 12 then "1y"
  else if m <=? 24 then "2y"
  else if m <=? 60 then "5y"
  else if m <=? 120 then "10y"
  else "max".

Definition get_monthly_series (yf : YFinanceOracle) (sym : string) (months : Z)
  : result (list (string * float)) :=
  let period := _period_for (Z.max 12 months) in
  res ← yf_history yf sym period;
  if negb (months =? 0) && (months <? Z.of_nat (length res))
  then mret (py_slice_from res (- months))
  else mret res.

Definition previous_month_close (yf : YFinanceOracle) (ticker : string)
  : result (option float) :=
  try_except
    (ser ← get_monthly_series yf ticker 2;
     if 2 <=? Z.of_nat (length ser)
     then p ← py_index ser (-2); mret (Some p.2)
     else mret None)
    (fun _ => mret None).

Definition previous_year_close (yf : YFinanceOracle) (ticker : string)
  : result (option float) :=
  try_except
    (ser ← get_monthly_series yf ticker 13;
     if 13 <=? Z.of_nat (length ser)
     then p ← py_index ser (-13); mret (Some p.2)
     else mret None)
    (fun _ => mret None).

Definition get_price (provider : PriceProvider) (sym : string) : result float :=
  match provider with
  | AlphaVantageProvider av => av_get_price av sym
  | YFinanceProvider yf =>
      p ← yf_last_price yf sym;
      match p with
      | Some v => mret v
      | None => Raise (RuntimeError ("yfinanceで価格を取得できません: " +:+ sym))
      end
  end.

Definition get_fx_rate (provider : PriceProvider) (from_currency to_currency : string)
  : result float :=
  match provider with
  | AlphaVantageProvider av => av_get_fx_rate av from_currency to_currency
  | YFinanceProvider yf =>
      let pair := upper from_currency +:+ upper to_currency +:+ "=X" in
      p ← yf_last_price yf pair;
      match p with
      | Some v => mret v
      | None => Raise (RuntimeError ("yfinanceで為替レートを取得できません: " +:+ pair))
      end
  end.

Definition fetch_prices (provider : PriceProvider) (holdings : list Holding)
  : result (gmap string float) :=
  for_each holdings
    (fun (prices : gmap string float) h =>
       match prices !! h_symbol h with
       | Some _ => mret prices
       | None => p ← get_price provider (h_symbol h); mret (<[h_symbol h := p]> prices)
       end)
    ∅.

(* ================================================================== *)
(** ** The valuation engine: [build_rows] *)

(** [pct(cur, prev)] of [build_rows]; its [try] guards a division that the
    test before it already keeps from a zero divisor. *)
Definition pct (cur prev : option float) : float :=
  match cur, prev with
  | Some c, Some p =>
      if is_zero p || is_nan p || is_nan c then nan
      else match py_div (c - p) p with
           | Ok v => v
           | Raise _ => nan
           end
  | _, _ => nan
  end.

(** [None if (p is None or fx in (None, 0)) else float(p) * float(fx)]. *)
Definition prev_times_fx (p fx : option float) : option float :=
  match p, fx with
  | Some a, Some b => if is_zero b then None else Some (a * b)%float
  | _, _ => None
  end.

(** [None if (p is None or fx in (None, 0)) else float(p) / float(fx)]. *)
Definition prev_over_fx (p fx : option float) : result (option float) :=
  match p, fx with
  | Some a, Some b => if is_zero b then mret None else v ← py_div a b; mret (Some v)
  | _, _ => mret None
  end.

(** The six change metrics of a row. *)
Record Changes : Type := mkChanges {
  c_usd_mom : float; c_usd_dod : float;
  c_jpy_mom : float; c_jpy_dod : float;
  c_usd_yoy : float; c_jpy_yoy : float
}.

Definition no_changes : Changes := mkChanges nan nan nan nan nan nan.

(** The [try] block of the loop body that fills the change metrics. *)
Definition change_metrics (yf : YFinanceOracle)
    (fx_prev_day fx_prev_month fx_prev_year : option float)
    (ccy sym : string) (usd_p jpy_p : float) : result Changes :=
  try_except
    ('(prev_d_usd, prev_m_usd, prev_y_usd, prev_d_jpy, prev_m_jpy, prev_y_jpy) ←
       (if decide (ccy = "USD") then
          prev_d_usd ← yf_previous_day_close yf sym;
          prev_m_usd ← previous_month_close yf sym;
          prev_y_usd ← previous_year_close yf sym;
          mret (prev_d_usd, prev_m_usd, prev_y_usd,
                prev_times_fx prev_d_usd fx_prev_day,
                prev_times_fx prev_m_usd fx_prev_month,
                prev_times_fx prev_y_usd fx_prev_year)
        else
          prev_d_jpy ← yf_previous_day_close yf sym;
          prev_m_jpy ← previous_month_close yf sym;
          prev_y_jpy ← previous_year_close yf sym;
          prev_d_usd ← prev_over_fx prev_d_jpy fx_prev_day;
          prev_m_usd ← prev_over_fx prev_m_jpy fx_prev_month;
          prev_y_usd ← prev_over_fx prev_y_jpy fx_prev_year;
          mret (prev_d_usd, prev_m_usd, prev_y_usd, prev_d_jpy, prev_m_jpy, prev_y_jpy));
     mret {| c_usd_mom := pct (Some usd_p) prev_m_usd;
             c_usd_dod := pct (Some usd_p) prev_d_usd;
             c_jpy_mom := pct (Some jpy_p) prev_m_jpy;
             c_jpy_dod := pct (Some jpy_p) prev_d_jpy;
             c_usd_yoy := pct (Some usd_p) prev_y_usd;
             c_jpy_yoy := pct (Some jpy_p) prev_y_jpy |})
    (fun _ => mret no_changes).

(** The loop's variables: the rows so far, the running totals, the name cache. *)
Record BuildState : Type := mkBuildState {
  bs_rows : list Row;
  bs_total_usd : float;
  bs_total_jpy : float;
  bs_name_cache : gmap string (option string)
}.

(** [(h.currency or "USD").upper()]. *)
Definition holding_ccy (h : Holding) : string := upper (str_or (h_currency h) "USD").

(** [ccy not in ("USD", "JPY")]. *)
Definition unsupported (ccy : string) : bool :=
  negb (bool_decide (ccy = "USD") || bool_decide (ccy = "JPY")).

(** The message of the [ValueError] that [build_rows] raises on holding [h]. *)
Definition unsupported_message (h : Holding) : string :=
  "未対応の通貨です: " +:+ h_symbol h +:+ " currency=" +:+ holding_ccy h
  +:+ " (USD/JPYのみ対応)".

(** The counterpart-currency prices of a holding: [(usd_price, jpy_price)]. *)
Definition both_prices (ccy : string) (price : float) (usd_jpy : option float)
  : result (float * float) :=
  if decide (ccy = "USD") then
    mret (price, (price * or_nan usd_jpy)%float)
  else
    usd_p ← (if in_None_0 usd_jpy then mret nan
             else match usd_jpy with
                  | Some r => py_div price r
                  | None => mret nan
                  end);
    mret (usd_p, price).

(** One iteration of the [for h in holdings] loop. *)
Definition build_rows_body (yf : option YFinanceOracle)
    (prices : gmap string float) (usd_jpy : option float)
    (fx_prev_day fx_prev_month fx_prev_year : option float)
    (st : BuildState) (h : Holding) : result BuildState :=
  let price := default nan (prices !! h_symbol h) in
  let ccy := holding_ccy h in
  if unsupported ccy then
    Raise (ValueError (unsupported_message h))
  else
    '(usd_p, jpy_p) ← both_prices ccy price usd_jpy;
    let usd_v := (h_shares h * usd_p)%float in
    let jpy_v := (h_shares h * jpy_p)%float in
    ch ← match yf with
         | Some o => change_metrics o fx_prev_day fx_prev_month fx_prev_year
                       ccy (h_symbol h) usd_p jpy_p
         | None => mret no_changes
         end;
    '(comp_name, cache) ←
       match yf with
       | Some o =>
           match bs_name_cache st !! h_symbol h with
           | Some cached => mret (cached, bs_name_cache st)
           | None =>
               n ← try_except (yf_get_name o (h_symbol h)) (fun _ => mret None);
               mret (n, <[h_symbol h := n]> (bs_name_cache st))
           end
       | None => mret (None, bs_name_cache st)
       end;
    let total_usd := (bs_total_usd st + usd_v)%float in
    let total_jpy := (bs_total_jpy st + jpy_v)%float in
    per_val ← match yf with
              | Some o =>
                  try_except
                    (pv ← yf_get_per o (h_symbol h);
                     mret (match pv with Some v => v | None => nan end))
                    (fun _ => mret nan)
              | None => mret nan
              end;
    mret {| bs_rows := bs_rows st ++
              [ {| symbol := h_symbol h; shares := h_shares h; currency := ccy;
                   per := per_val;
                   usd_price := usd_p; usd_value := usd_v;
                   jpy_price := jpy_p; jpy_value := jpy_v;
                   usd_mom := c_usd_mom ch; usd_dod := c_usd_dod ch;
                   jpy_mom := c_jpy_mom ch; jpy_dod := c_jpy_dod ch;
                   usd_yoy := c_usd_yoy ch; jpy_yoy := c_jpy_yoy ch;
                   company_name := comp_name |} ];
            bs_total_usd := total_usd;
            bs_total_jpy := total_jpy;
            bs_name_cache := cache |}.

(** [isinstance(provider, YFinanceProvider)], with the provider's oracle. *)
Definition as_yfinance (provider : option PriceProvider) : option YFinanceOracle :=
  match provider with
  | Some (YFinanceProvider o) => Some o
  | _ => None
  end.

Definition build_rows (holdings : list Holding) (prices : gmap string float)
    (usd_jpy : option float) (provider : option PriceProvider)
  : result (list Row * float * float) :=
  let use_yf := as_yfinance provider in
  '(fx_prev_day, fx_prev_month, fx_prev_year) ←
     match use_yf with
     | Some o =>
         d ← try_except (yf_previous_day_close o "USDJPY=X") (fun _ => mret None);
         m ← try_except (previous_month_close o "USDJPY=X") (fun _ => mret None);
         y ← try_except (previous_year_close o "USDJPY=X") (fun _ => mret None);
         mret (d, m, y)
     | None => mret (None, None, None)
     end;
  st ← for_each holdings
         (build_rows_body use_yf prices usd_jpy fx_prev_day fx_prev_month fx_prev_year)
         {| bs_rows := []; bs_total_usd := 0%float; bs_total_jpy := 0%float;
            bs_name_cache := ∅ |};
  mret (bs_rows st, bs_total_usd st, bs_total_jpy st).

(* ================================================================== *)
(** ** Number formatting

    [format(x, ".6f")], [format(x, ",.2f")], [format(n, ",")]: Python prints a
    float in fixed notation by rounding its exact binary value to the
    requested number of decimals, ties to even. *)

Definition nl : string := String (ascii_of_nat 10) "".

Definition digit_char (d : Z) : ascii := ascii_of_N (48 + Z.to_N d).

(** The [w] low decimal digits of [n], zero-padded on the left. *)
Fixpoint fixed_digits (w : nat) (n : Z) : string :=
  match w with
  | O => ""
  | S w' => fixed_digits w' (n / 10) +:+ String (digit_char (n mod 10)) ""
  end.

(** The number of decimal digits of [n >= 0] (one for zero), counted by
    dividing by ten at most [fuel] times. *)
Fixpoint count_digits (fuel : nat) (n : Z) : nat :=
  match fuel with
  | O => 1%nat
  | S fuel' => if n <? 10 then 1%nat else S (count_digits fuel' (n / 10))
  end.

(** The decimal digits of [n >= 0], ["0"] for zero. *)
Definition digits_of_Z (n : Z) : string :=
  fixed_digits (count_digits (Z.to_nat (Z.log2 n)) n) n.

(** A comma after every third digit of a reversed digit list. *)
Fixpoint group3 (rev_digits : list ascii) : list ascii :=
  match rev_digits with
  | a :: b :: c :: ((_ :: _) as rest) => a :: b :: c :: ","%char :: group3 rest
  | l => l
  end.

(** The [,] option: thousands separators in a digit string. *)
Definition with_commas (digits : string) : string :=
  String.string_of_list_ascii (rev (group3 (rev (String.list_ascii_of_string digits)))).

(** [format(n, ",")] and [format(n, "d")] for an [int]. *)
Definition format_int (commas : bool) (n : Z) : string :=
  let d := digits_of_Z (Z.abs n) in
  (if n <? 0 then "-" else "") +:+ (if commas then with_commas d else d).

(** A non-negative number of [10^-prec] units in fixed notation. *)
Definition format_units (commas : bool) (prec : nat) (units : Z) : string :=
  let scale := 10 ^ Z.of_nat prec in
  let int_digits := digits_of_Z (units / scale) in
  (if commas then with_commas int_digits else int_digits)
  +:+ match prec with
      | O => ""
      | _ => "." +:+ fixed_digits prec (units mod scale)
      end.

(** [format(x, ".{prec}f")], with the [,] option when [commas]. *)
Definition format_fixed (commas : bool) (prec : nat) (x : float) : string :=
  match Prim2SF x with
  | S754_nan => "nan"
  | S754_infinity s => if s then "-inf" else "inf"
  | S754_zero s => (if s then "-" else "") +:+ format_units commas prec 0
  | S754_finite s m e =>
      (if s then "-" else "")
      +:+ format_units commas prec (scaled_magnitude (10 ^ Z.of_nat prec) m e)
  end.

(** ["" if x != x else format(x, spec)]. *)
Definition blank_if_nan (commas : bool) (prec : nat) (x : float) : string :=
  if is_nan x then "" else format_fixed commas prec x.

(** ["sep".join(parts)]. *)
Fixpoint join (sep : string) (parts : list string) : string :=
  match parts with
  | [] => ""
  | [p] => p
  | p :: rest => p +:+ sep +:+ join sep rest
  end.

(* ================================================================== *)
(** ** The plain-text reporter: [format_report]

    [now] is the text of [dt.datetime.now().strftime("%Y-%m-%d %H:%M")]. *)

(** The table line of one row. *)
Definition report_line (r : Row) : result string :=
  n ← int_round (shares r);
  mret ("| " +:+ symbol r +:+ " | " +:+ format_int true n
        +:+ " | " +:+ blank_if_nan true 2 (usd_price r)
        +:+ " | " +:+ blank_if_nan true 2 (usd_value r)
        +:+ " | " +:+ blank_if_nan true 0 (jpy_price r)
        +:+ " | " +:+ blank_if_nan true 0 (jpy_value r) +:+ " |").

(** One iteration of [for r in rows]: the lines so far and the two totals. *)
Definition format_report_body (st : list string * float * float) (r : Row)
  : result (list string * float * float) :=
  let '(lines, total_usd, total_jpy) := st in
  let total_usd := (total_usd + usd_value r)%float in
  let total_jpy := (total_jpy + jpy_value r)%float in
  line ← report_line r;
  mret (lines ++ [line], total_usd, total_jpy).

Definition format_report (now : string) (rows : list Row) (usd_jpy : option float)
  : result (string * (float * float)) :=
  let lines :=
    [ "ポートフォリオ評価額 (" +:+ now +:+ ")  (USD/JPY 表示)"; "";
      "| SYMBOL | SHARES | USD_PRICE | USD_VALUE | JPY_PRICE | JPY_VALUE |";
      "|:------ | -----:| ---------:| ---------:| ---------:| ---------:|" ] in
  '(lines, total_usd, total_jpy) ←
     for_each rows format_report_body (lines, 0%float, 0%float);
  let lines := lines ++
    [ "| TOTAL |  |  | " +:+ format_fixed true 2 total_usd
      +:+ " |  | " +:+ format_fixed true 0 total_jpy +:+ " |" ] in
  let lines :=
    match usd_jpy with
    | Some fx => lines ++ [ ""; "為替: USD→JPY = " +:+ format_fixed true 4 fx ]
    | None => lines
    end in
  mret (join nl lines, (total_usd, total_jpy)).

(* ================================================================== *)
(** ** The monthly dataset *)

Record DatasetRow : Type := mkDatasetRow {
  d_symbol : string;
  d_shares : Z;
  d_currency : string;
  d_usd_price : list float;
  d_usd_value : list float;
  d_jpy_price : list float;
  d_jpy_value : list float
}.

Record MonthlyDataset : Type := mkMonthlyDataset {
  ds_months : list string;
  ds_rows : list DatasetRow;
  ds_fx : list (option float)
}.

(* ================================================================== *)
(** ** The HTML reporter: [format_report_html]

    The document is a fixed template (styles, the sorting script, the three
    tables' headers) with holes; [HtmlReport] holds what the function puts in
    the holes, the template's constant text is not reproduced. *)

Inductive DataBlock : Type :=
| PfData (dataset : MonthlyDataset)
| PfCsv (text : string).

Record HtmlReport : Type := mkHtmlReport {
  html_title : string;
  html_toolbar : bool;
  html_data_blocks : list DataBlock;
  html_jpy_body : string;
  html_jpy_foot : string;
  html_usd_body : string;
  html_usd_foot : string;
  html_overall_foot : string;
  html_fx : string
}.

(** [_fmt_pct(p)]. *)
Definition _fmt_pct (p : float) : string :=
  if is_nan p then ""
  else
    let sign := if (0 <? p)%float then "+" else if (p =? 0)%float then "" else "-" in
    sign +:+ format_fixed false 1 (abs p * 100)%float +:+ "%".

(** [_pct_td(label_val, numeric_val)], up to its [return]. *)
Definition _pct_td (label_val : string) (numeric_val : float) : string :=
  if decide (label_val = "") then "<td data-value=''></td>"
  else
    let cls := if (0 <? numeric_val)%float then "up"
               else if (numeric_val <? 0)%float then "down" else "" in
    "<td data-value='" +:+ format_fixed false 6 numeric_val
    +:+ "'><span class='chg'><span class='" +:+ cls +:+ "'>" +:+ label_val
    +:+ "</span></span></td>".

(** The name [row_html] as the loop body of [format_report_html] reads it.
    Its only assignment stands inside [_pct_td], below that function's
    [return]: it binds a local of [_pct_td], never runs, and leaves the name
    unbound in [format_report_html] and in the module. *)
Definition load_row_html : result string :=
  Raise (NameError "name 'row_html' is not defined").

(** The variables of the [else] branch's loop. *)
Record HtmlState : Type := mkHtmlState {
  rows_html_jpy : list string;
  rows_html_usd : list string;
  total_usd_overall : float;
  total_jpy_overall : float;
  total_usd_jpy_tbl : float;
  total_jpy_jpy_tbl : float;
  total_usd_usd_tbl : float;
  total_jpy_usd_tbl : float
}.

Definition html_state0 : HtmlState :=
  mkHtmlState [] [] 0%float 0%float 0%float 0%float 0%float 0%float.

(** One iteration of [for r in rows] (no monthly dataset). *)
Definition html_rows_body (st : HtmlState) (r : Row) : result HtmlState :=
  let tu := (total_usd_overall st + usd_value r)%float in
  let tj := (total_jpy_overall st + jpy_value r)%float in
  n ← int_round (shares r);
  let shares_disp := format_int true n in
  let usd_yoy_s := _fmt_pct (usd_yoy r) in
  let usd_mom_s := _fmt_pct (usd_mom r) in
  let usd_dod_s := _fmt_pct (usd_dod r) in
  let jpy_yoy_s := _fmt_pct (jpy_yoy r) in
  let jpy_mom_s := _fmt_pct (jpy_mom r) in
  let jpy_dod_s := _fmt_pct (jpy_dod r) in
  if decide (upper (currency r) = "JPY") then
    row_html ← load_row_html;
    mret {| rows_html_jpy := rows_html_jpy st ++ [row_html];
            rows_html_usd := rows_html_usd st;
            total_usd_overall := tu; total_jpy_overall := tj;
            total_usd_jpy_tbl := (total_usd_jpy_tbl st + usd_value r)%float;
            total_jpy_jpy_tbl := (total_jpy_jpy_tbl st + jpy_value r)%float;
            total_usd_usd_tbl := total_usd_usd_tbl st;
            total_jpy_usd_tbl := total_jpy_usd_tbl st |}
  else
    row_html ← load_row_html;
    mret {| rows_html_jpy := rows_html_jpy st;
            rows_html_usd := rows_html_usd st ++ [row_html];
            total_usd_overall := tu; total_jpy_overall := tj;
            total_usd_jpy_tbl := total_usd_jpy_tbl st;
            total_jpy_jpy_tbl := total_jpy_jpy_tbl st;
            total_usd_usd_tbl := (total_usd_usd_tbl st + usd_value r)%float;
            total_jpy_usd_tbl := (total_jpy_usd_tbl st + jpy_value r)%float |}.

(** The four values of a dataset row at month [i]; all NaN when one is missing. *)
Definition month_values (r : DatasetRow) (i : nat) : float * float * float * float :=
  match try_except
          (up ← py_index (d_usd_price r) (Z.of_nat i);
           uv ← py_index (d_usd_value r) (Z.of_nat i);
           jp ← py_index (d_jpy_price r) (Z.of_nat i);
           jv ← py_index (d_jpy_value r) (Z.of_nat i);
           mret (up, uv, jp, jv))
          (fun _ => mret (nan, nan, nan, nan))
  with
  | Ok v => v
  | Raise _ => (nan, nan, nan, nan)
  end.

(** One iteration of [for r in ds_rows] in month [i]: the body's lines and the
    month's two sums, which skip a NaN value. *)
Definition month_row_body (i : nat) (st : list string * float * float) (r : DatasetRow)
  : list string * float * float :=
  let '(body_lines, m_usd, m_jpy) := st in
  let '(up, uv, jp, jv) := month_values r i in
  let m_usd := if is_nan uv then m_usd else (m_usd + uv)%float in
  let m_jpy := if is_nan jv then m_jpy else (m_jpy + jv)%float in
  (body_lines ++
     [ "<tr data-symbol='" +:+ d_symbol r +:+ "'>"
       +:+ "<td style='text-align:left'>" +:+ d_symbol r +:+ "</td>"
       +:+ "<td>" +:+ format_int true (d_shares r) +:+ "</td>"
       +:+ "<td data-value='" +:+ blank_if_nan false 6 up +:+ "'>"
       +:+ blank_if_nan true 2 up +:+ "</td>"
       +:+ "<td data-value='" +:+ blank_if_nan false 6 uv +:+ "'>"
       +:+ blank_if_nan true 2 uv +:+ "</td>"
       +:+ "<td data-value='" +:+ blank_if_nan false 6 jp +:+ "'>"
       +:+ blank_if_nan true 0 jp +:+ "</td>"
       +:+ "<td data-value='" +:+ blank_if_nan false 6 jv +:+ "'>"
       +:+ blank_if_nan true 0 jv +:+ "</td>"
       +:+ "</tr>" ],
   m_usd, m_jpy).

(** The [<tbody>] of month [i] labelled [m], with the month's two sums. *)
Definition month_body (ds : MonthlyDataset) (i : nat) (m : string)
  : string * float * float :=
  let active := if decide (Z.of_nat i = Z.of_nat (length (ds_months ds)) - 1)
                then " active" else "" in
  let '(body_lines, m_usd, m_jpy) :=
    foldl (month_row_body i)
          ([ "<tbody class='month-body" +:+ active +:+ "' data-month='" +:+ m +:+ "'>" ],
           0%float, 0%float)
          (ds_rows ds) in
  (join nl (body_lines ++ [ "</tbody>" ]), m_usd, m_jpy).

(** [_footer_row(label, usd_total, jpy_total)]: thirteen cells, the totals in
    the eighth and the thirteenth. *)
Definition _footer_row (label : string) (usd_total jpy_total : float) : string :=
  let tds :=
    [ "<td style='text-align:left'>" +:+ label +:+ "</td>" ]
    ++ replicate 6 "<td></td>"
    ++ [ "<td>" +:+ format_fixed true 2 usd_total +:+ "</td>" ]
    ++ replicate 4 "<td></td>"
    ++ [ "<td>" +:+ format_fixed true 0 jpy_total +:+ "</td>" ] in
  "<tr>" +:+ join "" tds +:+ "</tr>".

Definition format_report_html (now : string) (rows : list Row) (usd_jpy : option float)
    (monthly_dataset : option MonthlyDataset) (monthly_csv_text : option string)
  : result HtmlReport :=
  let last_fx :=
    match monthly_dataset with
    | Some ds => match last (ds_fx ds) with
                 | Some fx => fx
                 | None => usd_jpy
                 end
    | None => usd_jpy
    end in
  let title := "ポートフォリオ評価額 (" +:+ now +:+ ")  (USD/JPY 表示)" in
  '(month_bodies_html, st) ←
     match monthly_dataset with
     | Some ds =>
         mret (imap (fun i m => (month_body ds i m).1.1) (ds_months ds), html_state0)
     | None =>
         st ← for_each rows html_rows_body html_state0;
         mret ([], st)
     end;
  let total_row_jpy := _footer_row "TOTAL" (total_usd_jpy_tbl st) (total_jpy_jpy_tbl st) in
  let total_row_usd := _footer_row "TOTAL" (total_usd_usd_tbl st) (total_jpy_usd_tbl st) in
  let overall_total_row :=
    _footer_row "OVERALL TOTAL" (total_usd_overall st) (total_jpy_overall st) in
  let fx_html :=
    match last_fx with
    | Some fx => "<p id='fx-rate' class='muted'>為替: USD→JPY = "
                 +:+ format_fixed true 4 fx +:+ "</p>"
    | None => "<p id='fx-rate' class='muted'></p>"
    end in
  let data_blocks :=
    match monthly_dataset with Some ds => [ PfData ds ] | None => [] end
    ++ match monthly_csv_text with Some t => [ PfCsv t ] | None => [] end in
  mret {| html_title := title;
          html_toolbar := bool_decide (is_Some monthly_dataset)
                          || bool_decide (is_Some monthly_csv_text);
          html_data_blocks := data_blocks;
          html_jpy_body :=
            match month_bodies_html with
            | [] => "<tbody>" +:+ join "" (rows_html_jpy st) +:+ "</tbody>"
            | _ => join "" month_bodies_html
            end;
          html_jpy_foot := total_row_jpy;
          html_usd_body := join "" (rows_html_usd st);
          html_usd_foot := total_row_usd;
          html_overall_foot := overall_total_row;
          html_fx := fx_html |}.

(* ================================================================== *)
(** ** The monthly dataset builder: [build_monthly_dataset] *)

(** [align(series)]: the series re-indexed by label onto [months_labels]. *)
Definition align (months_labels : list string) (series : list (string * float))
  : list float :=
  let m := dict_of_pairs series in
  (fun lbl => match m !! lbl with
              | None => nan
              | Some v => v
              end) <$> months_labels.

(** The body of [for i, px in enumerate(prices_aligned)]: the month's
    [(usd_p, jpy_p)] from the aligned price [px] and [fx = fx_map.get(label)]. *)
Definition month_prices (ccy : string) (px : float) (fx : option float)
  : result (float * float) :=
  if decide (ccy = "USD") then
    mret (px, match fx with
              | Some f => if negb (is_nan px) then (px * f)%float else nan
              | None => nan
              end)
  else
    usd_p ← match fx with
            | Some f => if negb (in_None_0 fx) && negb (is_nan px)
                        then py_div px f else mret nan
            | None => mret nan
            end;
    mret (usd_p, px).

(** [[(p * shares) if not (p != p) else nan for p in prices]]. *)
Definition values_of (sh : float) (prices : list float) : list float :=
  (fun p => if negb (is_nan p) then (p * sh)%float else nan) <$> prices.

(** Traversal of a list by a function that may raise, left to right. *)
Fixpoint traverse {A B} (f : A -> result B) (l : list A) : result (list B) :=
  match l with
  | [] => mret []
  | x :: l' => y ← f x; ys ← traverse f l'; mret (y :: ys)
  end.

(** One iteration of [for h in holdings]. *)
Definition monthly_row (yf : YFinanceOracle) (months : Z)
    (months_labels : list string) (fx_map : gmap string float) (h : Holding)
  : result DatasetRow :=
  ser ← get_monthly_series yf (h_symbol h) months;
  let prices_aligned := align months_labels ser in
  let ccy := holding_ccy h in
  both ← traverse (fun '(lbl, px) => month_prices ccy px (fx_map !! lbl))
                  (zip months_labels prices_aligned);
  let usd_prices := fst <$> both in
  let jpy_prices := snd <$> both in
  let usd_values := values_of (h_shares h) usd_prices in
  let jpy_values := values_of (h_shares h) jpy_prices in
  sh ← int_round (h_shares h);
  mret {| d_symbol := h_symbol h; d_shares := sh; d_currency := ccy;
          d_usd_price := usd_prices; d_usd_value := usd_values;
          d_jpy_price := jpy_prices; d_jpy_value := jpy_values |}.

Definition build_monthly_dataset (provider : PriceProvider) (holdings : list Holding)
    (months : Z) : result (option MonthlyDataset) :=
  match provider with
  | AlphaVantageProvider _ => mret None
  | YFinanceProvider yf =>
      fx_pairs ← get_monthly_series yf "USDJPY=X" months;
      let months_labels := fst <$> fx_pairs in
      let fx_map := dict_of_pairs fx_pairs in
      rows ← traverse (monthly_row yf months months_labels fx_map) holdings;
      mret (Some {| ds_months := months_labels;
                    ds_rows := rows;
                    ds_fx := (fun m => fx_map !! m) <$> months_labels |})
  end.

(* ================================================================== *)
(** ** The CSV serializer: [dataset_to_csv] *)

Definition csv_header : string :=
  "month,symbol,shares,currency,usd_price,usd_value,jpy_price,jpy_value,fx_rate".

(** [_get(lst, idx)]: the [try] turns the [IndexError] of a short list into
    the empty string. *)
Definition _get (lst : list float) (idx : nat) : string :=
  match lst !! idx with
  | Some v => blank_if_nan false 6 v
  | None => ""
  end.

(** The [fxv] field for [fx = fx_list[i] if i < len(fx_list) else None]. *)
Definition fx_field (fx : option float) : string :=
  match fx with
  | Some v => blank_if_nan false 6 v
  | None => ""
  end.

(** The line of holding [r] in month [i] labelled [m]. *)
Definition csv_line (fx_list : list (option float)) (i : nat) (m : string)
    (r : DatasetRow) : string :=
  join "," [ m; d_symbol r; format_int false (d_shares r); d_currency r;
             _get (d_usd_price r) i; _get (d_usd_value r) i;
             _get (d_jpy_price r) i; _get (d_jpy_value r) i;
             fx_field (mjoin (fx_list !! i)) ].

(** [out_lines] when the two loops are over. *)
Definition csv_out_lines (dataset : MonthlyDataset) : list string :=
  csv_header ::
  mjoin (imap (fun i m => csv_line (ds_fx dataset) i m <$> ds_rows dataset)
              (ds_months dataset)).

Definition dataset_to_csv (dataset : MonthlyDataset) : string :=
  join nl (csv_out_lines dataset) +:+ nl.

(* ================================================================== *)
(** ** [list.sort]

    [rows.sort(key=..., reverse=...)] compares the keys with [<] only.  On
    keys that [<] does not order totally (a NaN among floats) the outcome is
    the algorithm's: the model follows CPython's [list.sort] on a list
    shorter than 64 elements, which reverses the list when [reverse] is set,
    finds the leading run ([count_run]), extends it by binary insertion
    ([binarysort]) and reverses the result again. *)

Section ListSort.
Context {A : Type} (lt : A -> A -> bool).

(** How many elements of [l] continue a run that is not descending. *)
Fixpoint run_ascending (prev : A) (l : list A) : nat :=
  match l with
  | [] => O
  | x :: l' => if lt x prev then O else S (run_ascending x l')
  end.

(** How many elements of [l] continue a strictly descending run. *)
Fixpoint run_descending (prev : A) (l : list A) : nat :=
  match l with
  | [] => O
  | x :: l' => if lt x prev then S (run_descending x l') else O
  end.

(** [count_run]: the length of the leading run and whether it descends. *)
Definition count_run (l : list A) : nat * bool :=
  match l with
  | [] => (O, false)
  | [ _ ] => (1%nat, false)
  | x :: y :: l' =>
      if lt y x then (2 + run_descending y l', true)%nat
      else (2 + run_ascending y l', false)%nat
  end.

(** The binary search of [binarysort]: where [pivot] goes in [sorted[l:r]]. *)
Fixpoint insertion_point (fuel : nat) (sorted : list A) (pivot : A) (l r : nat) : nat :=
  match fuel with
  | O => l
  | S fuel' =>
      if (l <? r)%nat then
        let p := (l + (r - l) / 2)%nat in
        match sorted !! p with
        | Some x => if lt pivot x then insertion_point fuel' sorted pivot l p
                    else insertion_point fuel' sorted pivot (S p) r
        | None => l
        end
      else l
  end.

(** [binarysort]: the elements of [rest] inserted one by one. *)
Fixpoint binarysort (sorted rest : list A) : list A :=
  match rest with
  | [] => sorted
  | pivot :: rest' =>
      let pos := insertion_point (length sorted) sorted pivot O (length sorted) in
      binarysort (take pos sorted ++ pivot :: drop pos sorted) rest'
  end.

Definition sort_short (l : list A) : list A :=
  if (length l <? 2)%nat then l
  else
    let '(n, descending) := count_run l in
    let run := take n l in
    binarysort (if descending then reverse run else run) (drop n l).

End ListSort.

(** [l.sort(key=key, reverse=reverse)] with float keys. *)
Definition list_sort {A} (key : A -> float) (reverse_flag : bool) (l : list A) : list A :=
  let lt a b := (key a <? key b)%float in
  if reverse_flag then reverse (sort_short lt (reverse l)) else sort_short lt l.

(* ================================================================== *)
(** ** Configuration and the holdings source *)

Definition lower_ascii (c : ascii) : ascii :=
  let n := N_of_ascii c in
  if ((65 <=? n) && (n <=? 90))%N then ascii_of_N (n + 32) else c.

(** [s.lower()]. *)
Fixpoint lower (s : string) : string :=
  match s with
  | EmptyString => EmptyString
  | String c s' => String (lower_ascii c) (lower s')
  end.

Definition is_space (c : ascii) : bool :=
  let n := N_of_ascii c in
  ((9 <=? n) && (n <=? 13) || (28 <=? n) && (n <=? 32))%N.

Fixpoint lstrip (s : string) : string :=
  match s with
  | EmptyString => EmptyString
  | String c s' => if is_space c then lstrip s' else s
  end.

(** [s.strip()]. *)
Definition strip (s : string) : string :=
  String.rev (lstrip (String.rev (lstrip s))).

(** The configuration document as [json.load] returns it. *)
Record RawConfig : Type := mkRawConfig {
  raw_type : option string;
  raw_api_key : option string;
  raw_currency : option string;
  raw_quote_currency : option string
}.

(** An entry of the holdings source; [e_shares] is the number that [float]
    makes of the entry's share count, [None] when the entry has none or one
    that [float] refuses.  In [row.get("shares") or 0] a zero of either sign
    is falsy, so that the share count is then [float(0)]. *)
Record PortfolioEntry : Type := mkPortfolioEntry {
  e_symbol : option string;
  e_shares : option float;
  e_currency : option string
}.

(** What [main] reaches outside the process. *)
Record World : Type := mkWorld {
  w_read_config : string -> result RawConfig;
  w_env_api_key : option string;
  w_get_portfolio : string -> result (list PortfolioEntry);
  w_yfinance : option YFinanceOracle;
  w_alpha_vantage : string -> option AlphaVantageOracle;
  w_now : string;
  w_write_html : string -> HtmlReport -> result unit
}.

Definition missing_key_message : string :=
  "Alpha Vantage の APIキーが設定されていません (price_provider.api_key または 環境変数 PN_ALPHA_VANTAGE_KEY)".

Definition placeholder_key_message : string :=
  "Alpha Vantage の APIキーがプレースホルダーです。実際のキーを設定してください。環境変数 PN_ALPHA_VANTAGE_KEY でも上書き可能です。".

Definition load_config (w : World) (path : string) : result AppConfig :=
  raw ← w_read_config w path;
  let key := match w_env_api_key w with
             | Some k => Some k
             | None => raw_api_key raw
             end in
  let provider_type := lower (str_or (raw_type raw) "yfinance") in
  _ ← (if decide (provider_type = "alpha_vantage") then
         match key with
         | None => Raise (ValueError missing_key_message)
         | Some k =>
             if decide (k = "") then Raise (ValueError missing_key_message)
             else if String.prefix "YOUR_" (upper (strip k)) then
               Raise (ValueError placeholder_key_message)
             else mret tt
         end
       else mret tt);
  mret {| price_provider := {| api_key := str_or key "" |};
          price_provider_type := provider_type;
          cfg_currency := raw_currency raw;
          quote_currency := upper (str_or (raw_quote_currency raw) "USD") |}.

Definition load_portfolio_api (w : World) (url default_currency : string)
  : result (list Holding) :=
  data ← w_get_portfolio w url;
  mret (omap (M := list) (fun e =>
                let sym := strip (str_or (e_symbol e) "") in
                if decide (sym = "") then None
                else Some {| h_symbol := sym;
                             h_shares := match e_shares e with
                                         | Some v => if is_zero v then 0%float else v
                                         | None => 0%float
                                         end;
                             h_currency :=
                               Some (upper (strip (str_or (e_currency e) default_currency))) |})
             data).

(* ================================================================== *)
(** ** The command line: [main] *)

Record Args : Type := mkArgs {
  a_config : string;
  a_portfolio_url : string;
  a_sort_by : string;
  a_sort_order : string;
  a_save_html : option string
}.

(** What a run leaves behind: the exit status and what it printed. *)
Record Run : Type := mkRun {
  status : Z;
  stdout : list string;
  stderr : list string
}.

(** The [# sort] step of [main]; [float(v)] takes every float, so the
    [except] of [key_with_nan] is never entered. *)
Definition sort_rows (sort_by sort_order : string) (rows : list Row) : list Row :=
  if decide (sort_by = "none") then rows
  else
    let reverse_flag := bool_decide (sort_order = "desc") in
    let keyfunc r := if decide (sort_by = "usd") then usd_value r else jpy_value r in
    list_sort keyfunc reverse_flag rows.

(** The provider that [main] constructs for configuration [cfg]; a
    constructor raises when its library is not installed. *)
Definition make_provider (w : World) (cfg : AppConfig) : result PriceProvider :=
  if decide (price_provider_type cfg = "yfinance") then
    match w_yfinance w with
    | Some o => mret (YFinanceProvider o)
    | None => Raise (RuntimeError "'yfinance' パッケージが必要です。pip install yfinance で導入してください。")
    end
  else
    match w_alpha_vantage w (api_key (price_provider cfg)) with
    | Some o => mret (AlphaVantageProvider o)
    | None => Raise (RuntimeError "'requests' パッケージが必要です。pip install requests で導入してください。")
    end.

(** The body of the [try] of [main]. *)
Definition main_body (w : World) (args : Args) : result Run :=
  cfg ← load_config w (a_config args);
  holdings ← load_portfolio_api w (a_portfolio_url args) (quote_currency cfg);
  match holdings with
  | [] => mret {| status := 2; stdout := []; stderr := [ "ポートフォリオが空です" ] |}
  | _ =>
      provider ← make_provider w cfg;
      prices ← fetch_prices provider holdings;
      usd_jpy_rate ← get_fx_rate provider "USD" "JPY";
      '(rows, total_usd, total_jpy) ←
         build_rows holdings prices (Some usd_jpy_rate) (Some provider);
      let rows := sort_rows (a_sort_by args) (a_sort_order args) rows in
      '(report, _) ← format_report (w_now w) rows (Some usd_jpy_rate);
      html_report ← format_report_html (w_now w) rows (Some usd_jpy_rate) None None;
      save_err ←
        match a_save_html args with
        | Some path =>
            try_except (_ ← w_write_html w path html_report; mret [])
                       (fun e => mret [ "HTML保存に失敗: " +:+ exn_str e ])
        | None => mret []
        end;
      mret {| status := 0; stdout := [ report ]; stderr := save_err |}
  end.

(** [main]: the [try] with its two handlers.  An exception that neither
    handler takes ([SystemExit]) leaves [main]. *)
Definition main (w : World) (args : Args) : result Run :=
  match main_body w args with
  | Ok run => Ok run
  | Raise KeyboardInterrupt =>
      Ok {| status := 130; stdout := []; stderr := [ "中断されました" ] |}
  | Raise e =>
      if is_Exception e
      then Ok {| status := 1; stdout := []; stderr := [ "エラー: " +:+ exn_str e ] |}
      else Raise e
  end.

(* ================================================================== *)
(** ** The rate limiter

    Time is a rational number of seconds (the source reads binary64 seconds
    off [time.time()]; the rounding of a difference of two readings is left
    to [RateLimiter64] below, the limiter on binary64 readings).  The
    process does not own the clock: between two statements any time may
    pass, and [time.sleep(d)] may return late.  [Delays] gives, for one call
    of [acquire], the time that passes before each of its three clock
    readings and how late its [sleep] returns. *)

Module RateLimiter.

Local Open Scope Q_scope.

Record t : Type := mk {
  limit : Z;
  per_seconds : Q;
  _times : list Q
}.

(** [RateLimiter(limit, per_seconds)]. *)
Definition init (limit : Z) (per_seconds : Q) : t := mk limit per_seconds [].

Record Delays : Type := mkDelays {
  before_now : Q;
  oversleep : Q;
  before_renow : Q;
  before_stamp : Q
}.

(** [a < b] on rationals. *)
Definition Qltb (a b : Q) : bool := if Qlt_le_dec a b then true else false.

(** [now - t < per_seconds]. *)
Definition in_window (per now t : Q) : bool := Qltb (now - t) per.

(** [[t for t in self._times if now - t < self.per_seconds]]. *)
Definition prune (per now : Q) (times : list Q) : list Q :=
  List.filter (in_window per now) times.

(** The [if len(self._times) >= self.limit] block of [acquire], entered at
    time [now] with the pruned list [times]: the list and the time after it. *)
Definition wait_if_full (d : Delays) (self : t) (now : Q) (times : list Q)
  : result (list Q * Q) :=
  if (limit self <=? Z.of_nat (length times))%Z then
    t0 ← py_index times 0;
    let sleep_for := per_seconds self - (now - t0) + (5 # 100) in
    let woke := if Qltb 0 sleep_for then now + sleep_for + oversleep d else now in
    let now := woke + before_renow d in
    mret (prune (per_seconds self) now times, now)
  else mret (times, now).

(** [acquire], started when the clock shows [clock]: the limiter when it
    returns and the clock then, which is the timestamp it recorded. *)
Definition acquire (d : Delays) (self : t) (clock : Q) : result (t * Q) :=
  let now := clock + before_now d in
  let times := prune (per_seconds self) now (_times self) in
  '(times, after) ← wait_if_full d self now times;
  let stamp := after + before_stamp d in
  mret (mk (limit self) (per_seconds self) (times ++ [stamp]), stamp).

(** The timestamp that the last [acquire] recorded. *)
Definition last_stamp (self : t) : option Q := last (_times self).

(** A sequence of [acquire] calls from one thread of control, with the time
    that passes between a return and the next call counted in the next
    call's [before_now]: the limiter and the clock at the end, and the
    timestamps recorded, oldest first. *)
Fixpoint acquire_all (ds : list Delays) (self : t) (clock : Q)
  : result (t * Q * list Q) :=
  match ds with
  | [] => mret (self, clock, [])
  | d :: ds' =>
      '(self', clock') ← acquire d self clock;
      '(self'', clock'', stamps) ← acquire_all ds' self' clock';
      mret (self'', clock'', clock' :: stamps)
  end.

(** No delay is negative: the clock never runs backwards. *)
Definition nonneg (d : Delays) : Prop :=
  0 <= before_now d /\ 0 <= oversleep d /\ 0 <= before_renow d /\ 0 <= before_stamp d.

(** The number of timestamps of [stamps] in the window [(T - per, T]]. *)
Definition calls_in_window (per T : Q) (stamps : list Q) : nat :=
  length (List.filter
            (fun s => Qltb (T - per) s && Qle_bool s T) stamps).

(** The limiter's list agrees with the whole record [history] of timestamps on
    the timestamps inside the window at [clock]. *)
Definition tracks (per clock : Q) (history times : list Q) : Prop :=
  List.filter (in_window per clock) history = List.filter (in_window per clock) times.

(** Every timestamp of the history has fewer than [limit] earlier ones less
    than [per] seconds before it. *)
Definition spaced (limit : Z) (per : Q) (history : list Q) : Prop :=
  forall i s, history !! i = Some s ->
    (Z.of_nat (length (List.filter (in_window per s) (take i history))) <= limit - 1)%Z.

End RateLimiter.

(* ================================================================== *)
(** ** The client-side sort of the HTML report

    The script embedded in the document sorts the rows of a table by a
    column ([sortTableEl]).  For a numeric column the cell values are what
    [parseFloat] reads off the cells; [Array.prototype.sort] is stable, and
    is modelled by a stable insertion sort. *)

(** The comparator of [sortTableEl] for a numeric column: its result as a
    float, positive when [a] goes after [b]. *)
Definition js_compare_num (asc : bool) (av bv : float) : float :=
  let aNaN := negb (is_number av) in
  let bNaN := negb (is_number bv) in
  if aNaN && bNaN then 0%float
  else if aNaN then 1%float
  else if bNaN then (-1)%float
  else if asc then (av - bv)%float else (bv - av)%float.

(** [x] put into [sorted_rev], a sorted list held last element first: [x]
    goes before the elements that the comparator puts after it. *)
Fixpoint js_insert {A} (key : A -> float) (asc : bool) (x : A) (sorted_rev : list A)
  : list A :=
  match sorted_rev with
  | [] => [ x ]
  | y :: rest =>
      if (0 <? js_compare_num asc (key y) (key x))%float
      then y :: js_insert key asc x rest
      else x :: sorted_rev
  end.

(** [rows.sort(comparator)] of [sortTableEl]. *)
Definition js_sort {A} (key : A -> float) (asc : bool) (rows : list A) : list A :=
  reverse (foldl (fun sorted_rev x => js_insert key asc x sorted_rev) [] rows).

(* ================================================================== *)
(** ** Vocabulary of the statements *)

(** The running total that [total += v] leaves after the values [vs], from [0.0]. *)
Definition float_sum (vs : list float) : float := foldl PrimFloat.add 0%float vs.

(** The sum of the values of [vs] that are numbers. *)
Definition float_sum_skipping_nan (vs : list float) : float :=
  float_sum (filter (fun v => is_nan v = false) vs).

(** Row [r] is the valuation of holding [h]: what [build_rows] computes for
    [h] whatever the provider answers. *)
Definition valuation_of (prices : gmap string float) (usd_jpy : option float)
    (h : Holding) (r : Row) : Prop :=
  symbol r = h_symbol h /\ shares r = h_shares h /\ currency r = holding_ccy h /\
  unsupported (holding_ccy h) = false /\
  both_prices (holding_ccy h) (default nan (prices !! h_symbol h)) usd_jpy
    = Ok (usd_price r, jpy_price r) /\
  usd_value r = (shares r * usd_price r)%float /\
  jpy_value r = (shares r * jpy_price r)%float.

(** A computation that raises nothing but an [Exception]: no interrupt. *)
Definition quiet {A} (r : result A) : Prop :=
  forall e, r = Raise e -> is_Exception e = true.

(** A provider whose calls are never interrupted. *)
Definition yf_quiet (o : YFinanceOracle) : Prop :=
  (forall s, quiet (yf_previous_day_close o s)) /\
  (forall s p, quiet (yf_history o s p)) /\
  (forall s, quiet (yf_get_name o s)) /\
  (forall s, quiet (yf_get_per o s)).

Definition provider_quiet (provider : option PriceProvider) : Prop :=
  match as_yfinance provider with
  | Some o => yf_quiet o
  | None => True
  end.

(* ================================================================== *)
(** ** Sample inputs *)

(** The scenario of the specification: ten AAPL in USD at 150, five 7203.T
    in JPY at 3000, one dollar at 150 yen. *)
Definition scenario_holdings : list Holding :=
  [ mkHolding "AAPL" 10 (Some "USD"); mkHolding "7203.T" 5 (Some "JPY") ].

Definition scenario_prices : gmap string float :=
  <["7203.T" := 3000%float]> (<["AAPL" := 150%float]> ∅).

Definition scenario_row_usd : Row :=
  mkRow "AAPL" 10 "USD" 150 1500 22500 225000 nan nan nan nan nan nan nan None.

Definition scenario_row_jpy : Row :=
  mkRow "7203.T" 5 "JPY" 20 100 3000 15000 nan nan nan nan nan nan nan None.

Definition scenario_rows : list Row := [ scenario_row_usd; scenario_row_jpy ].

(** The same portfolio valued without a rate. *)
Definition unrated_row_usd : Row :=
  mkRow "AAPL" 10 "USD" 150 1500 nan nan nan nan nan nan nan nan nan None.

Definition unrated_row_jpy : Row :=
  mkRow "7203.T" 5 "JPY" nan nan 3000 15000 nan nan nan nan nan nan nan None.

Definition unrated_rows : list Row := [ unrated_row_usd; unrated_row_jpy ].

(** A portfolio with a holding in euros between two supported ones. *)
Definition euro_holdings : list Holding :=
  [ mkHolding "AAPL" 10 (Some "usd"); mkHolding "SAP" 3 (Some "EUR");
    mkHolding "7203.T" 5 (Some "JPY") ].

(** Three yen holdings of one share; the second has no price. *)
Definition gap_holdings : list Holding :=
  [ mkHolding "A" 1 (Some "JPY"); mkHolding "B" 1 (Some "JPY"); mkHolding "C" 1 (Some "JPY") ].

Definition gap_prices : gmap string float :=
  <["C" := 300%float]> (<["A" := 100%float]> ∅).

Definition gap_rows : list Row :=
  [ mkRow "A" 1 "JPY" 1 1 100 100 nan nan nan nan nan nan nan None;
    mkRow "B" 1 "JPY" nan nan nan nan nan nan nan nan nan nan nan None;
    mkRow "C" 1 "JPY" 3 3 300 300 nan nan nan nan nan nan nan None ].

(* ================================================================== *)
(** ** Reading a number back

    The number that a field in fixed notation denotes, as an exact rational:
    an optional [-], digits, and after a point more digits. *)

Definition digit_of_char (c : ascii) : option Z :=
  let n := Z.of_N (N_of_ascii c) in
  if (48 <=? n) && (n <=? 57) then Some (n - 48) else None.

(** The number denoted by the digits [acc] followed by the digits of [s]. *)
Fixpoint read_digits (acc : Z) (s : string) : option Z :=
  match s with
  | EmptyString => Some acc
  | String c s' =>
      match digit_of_char c with
      | Some d => read_digits (10 * acc + d) s'
      | None => None
      end
  end.

(** [s] cut at its first point. *)
Fixpoint split_point (s : string) : string * option string :=
  match s with
  | EmptyString => (EmptyString, None)
  | String c s' =>
      if Ascii.eqb c "."%char then (EmptyString, Some s')
      else let '(a, b) := split_point s' in (String c a, b)
  end.

(** The number denoted by digits, a point and digits. *)
Definition read_unsigned (body : string) : option Q :=
  match split_point body with
  | (int_part, Some frac_part) =>
      if String.eqb int_part "" || String.eqb frac_part "" then None
      else
        match read_digits 0 int_part, read_digits 0 frac_part with
        | Some i, Some f =>
            let scale := 10 ^ Z.of_nat (String.length frac_part) in
            Some (Qmake (i * scale + f) (Z.to_pos scale))
        | _, _ => None
        end
  | (_, None) => None
  end.

Definition read_fixed (s : string) : option Q :=
  match s with
  | String c r => if Ascii.eqb c "-"%char then Qopp <$> read_unsigned r else read_unsigned s
  | EmptyString => None
  end.

(** A float rounded to [prec] decimals, ties to even: a whole number of
    [10^-prec] units.  [None] for a NaN and the infinities. *)
Definition rounded_to (prec : nat) (x : float) : option Q :=
  let scale := 10 ^ Z.of_nat prec in
  match Prim2SF x with
  | S754_zero _ => Some (Qmake 0 (Z.to_pos scale))
  | S754_finite s m e =>
      let q := Qmake (scaled_magnitude scale m e) (Z.to_pos scale) in
      Some (if s then Qopp q else q)
  | _ => None
  end.

(** The exact value of a float. *)
Definition exact_value (x : float) : option Q :=
  match Prim2SF x with
  | S754_zero _ => Some 0%Q
  | S754_finite s m e =>
      let q := match e with
               | Zneg p => Qmake (Zpos m) (2 ^ p)
               | _ => inject_Z (Zpos m * 2 ^ e)
               end in
      Some (if s then Qopp q else q)
  | _ => None
  end.

(** A string of decimal digits. *)
Fixpoint all_digits (s : string) : bool :=
  match s with
  | EmptyString => true
  | String c s' => bool_decide (is_Some (digit_of_char c)) && all_digits s'
  end.

(** A run of [main]: the status it returns, [None] when an exception leaves
    [main]. *)
Definition exit_status (w : World) (args : Args) : option Z :=
  match main w args with
  | Ok run => Some (status run)
  | Raise _ => None
  end.

Definition sample_args : Args :=
  mkArgs "config.json" "http://127.0.0.1:8787/api/portfolio" "jpy" "desc" None.

(** A provider that answers every call: every price is 150. *)
Definition steady_yfinance : YFinanceOracle :=
  {| yf_last_price := fun _ => Ok (Some 150%float);
     yf_previous_day_close := fun _ => Ok None;
     yf_history := fun _ _ => Ok [];
     yf_get_name := fun _ => Ok None;
     yf_get_per := fun _ => Ok None |}.

(** A provider whose price calls fail. *)
Definition failing_yfinance : YFinanceOracle :=
  {| yf_last_price := fun _ => Raise (OSError "connection refused");
     yf_previous_day_close := fun _ => Ok None;
     yf_history := fun _ _ => Ok [];
     yf_get_name := fun _ => Ok None;
     yf_get_per := fun _ => Ok None |}.

(** A provider whose price calls are interrupted from the keyboard. *)
Definition interrupted_yfinance : YFinanceOracle :=
  {| yf_last_price := fun _ => Raise KeyboardInterrupt;
     yf_previous_day_close := fun _ => Ok None;
     yf_history := fun _ _ => Ok [];
     yf_get_name := fun _ => Ok None;
     yf_get_per := fun _ => Ok None |}.

Definition sample_entries : list PortfolioEntry :=
  [ mkPortfolioEntry (Some "AAPL") (Some 10%float) (Some "USD");
    mkPortfolioEntry (Some "7203.T") (Some 5%float) (Some "JPY") ].

(** A configuration for yfinance, two holdings, a provider that answers. *)
Definition world_steady : World :=
  {| w_read_config := fun _ => Ok (mkRawConfig None None (Some "JPY") None);
     w_env_api_key := None;
     w_get_portfolio := fun _ => Ok sample_entries;
     w_yfinance := Some steady_yfinance;
     w_alpha_vantage := fun _ => None;
     w_now := "2026-01-05 09:00";
     w_write_html := fun _ _ => Ok tt |}.

(** The holdings source returns no holding. *)
Definition world_empty : World :=
  {| w_read_config := w_read_config world_steady;
     w_env_api_key := None;
     w_get_portfolio := fun _ => Ok [];
     w_yfinance := Some steady_yfinance;
     w_alpha_vantage := fun _ => None;
     w_now := "2026-01-05 09:00";
     w_write_html := fun _ _ => Ok tt |}.

(** The configuration asks for Alpha Vantage with a placeholder key. *)
Definition world_placeholder_key : World :=
  {| w_read_config :=
       fun _ => Ok (mkRawConfig (Some "alpha_vantage") (Some "YOUR_API_KEY") (Some "JPY") None);
     w_env_api_key := None;
     w_get_portfolio := fun _ => Ok sample_entries;
     w_yfinance := Some steady_yfinance;
     w_alpha_vantage := fun _ => None;
     w_now := "2026-01-05 09:00";
     w_write_html := fun _ _ => Ok tt |}.

(** The provider's price calls fail. *)
Definition world_fetch_down : World :=
  {| w_read_config := w_read_config world_steady;
     w_env_api_key := None;
     w_get_portfolio := fun _ => Ok sample_entries;
     w_yfinance := Some failing_yfinance;
     w_alpha_vantage := fun _ => None;
     w_now := "2026-01-05 09:00";
     w_write_html := fun _ _ => Ok tt |}.

(** The run is interrupted while it fetches the prices. *)
Definition world_interrupted : World :=
  {| w_read_config := w_read_config world_steady;
     w_env_api_key := None;
     w_get_portfolio := fun _ => Ok sample_entries;
     w_yfinance := Some interrupted_yfinance;
     w_alpha_vantage := fun _ => None;
     w_now := "2026-01-05 09:00";
     w_write_html := fun _ _ => Ok tt |}.

(** A provider with two months of history: the rate is known for both months,
    AAPL for the second month only, 7203.T for both. *)
Definition two_month_yfinance : YFinanceOracle :=
  {| yf_last_price := fun _ => Ok None;
     yf_previous_day_close := fun _ => Ok None;
     yf_history := fun sym _ =>
       if decide (sym = "USDJPY=X") then Ok [ ("2025-01", 150%float); ("2025-02", 160%float) ]
       else if decide (sym = "AAPL") then Ok [ ("2025-02", 200%float) ]
       else Ok [ ("2025-01", 3000%float); ("2025-02", 3200%float) ];
     yf_get_name := fun _ => Ok None;
     yf_get_per := fun _ => Ok None |}.

Definition two_month_dataset : MonthlyDataset :=
  {| ds_months := [ "2025-01"; "2025-02" ];
     ds_rows :=
       [ mkDatasetRow "AAPL" 10 "USD" [ nan; 200%float ] [ nan; 2000%float ]
                      [ nan; 32000%float ] [ nan; 320000%float ];
         mkDatasetRow "7203.T" 5 "JPY" [ 20%float; 20%float ] [ 100%float; 100%float ]
                      [ 3000%float; 3200%float ] [ 15000%float; 16000%float ] ];
     ds_fx := [ Some 150%float; Some 160%float ] |}.

(* ================================================================== *)
(** * The rest of the module

    What the statements below need besides the definitions above: the
    [.env] loader, the reading of a table cell by the sorting script, and
    the vocabulary and sample inputs of the statements. *)

(* ================================================================== *)
(** ** The [.env] loader: [_load_dotenv]

    The process environment [os.environ] is a map from names to values.
    The file is what the loop reads off it: the lines that [for line in f]
    yields, and the exception that ends the reading when [open] or a read
    fails.  Whitespace is ASCII whitespace, as for [strip]. *)

Definition dquote : ascii := ascii_of_nat 34.

(** [s.startswith(c)] and [s.endswith(c)] for a one-character [c]. *)
Definition starts_with_char (c : ascii) (s : string) : bool :=
  match s with
  | String a _ => Ascii.eqb a c
  | EmptyString => false
  end.

Definition ends_with_char (c : ascii) (s : string) : bool :=
  starts_with_char c (String.rev s).

(** [s[1:-1]]. *)
Definition strip_ends (s : string) : string :=
  match s with
  | String _ r =>
      match String.rev r with
      | String _ r' => String.rev r'
      | EmptyString => EmptyString
      end
  | EmptyString => EmptyString
  end.

(** [s.split("=", 1)] when ["=" in s]: [None] when there is no ["="]. *)
Fixpoint split_eq (s : string) : option (string * string) :=
  match s with
  | EmptyString => None
  | String c s' =>
      if Ascii.eqb c "="%char then Some (EmptyString, s')
      else '(key, val) ← split_eq s'; Some (String c key, val)
  end.

(** The value without the pair of quotes around it. *)
Definition unquote (val : string) : string :=
  if starts_with_char dquote val && ends_with_char dquote val
     || starts_with_char "'"%char val && ends_with_char "'"%char val
  then strip_ends val else val.

(** The assignment that a line of the file asks for: the stripped key and the
    unquoted value, [None] for a blank line, a comment, a line without ["="]
    and a line with an empty key. *)
Definition dotenv_entry (line : string) : option (string * string) :=
  let s := strip line in
  if decide (s = "") then None
  else if starts_with_char "#"%char s then None
  else
    '(key, val) ← split_eq s;
    let key := strip key in
    let val := unquote (strip val) in
    if decide (key = "") then None else Some (key, val).

Fixpoint has_nul (s : string) : bool :=
  match s with
  | EmptyString => false
  | String c s' => Ascii.eqb c zero || has_nul s'
  end.

(** [os.environ[key] = val]: a name or a value with a NUL character is
    refused. *)
Definition environ_set (environ : gmap string string) (key val : string)
  : result (gmap string string) :=
  if has_nul key || has_nul val then Raise (ValueError "embedded null byte")
  else Ok (<[key := val]> environ).

(** One iteration of [for line in f]. *)
Definition dotenv_line (environ : gmap string string) (line : string)
  : result (gmap string string) :=
  match dotenv_entry line with
  | Some (key, val) =>
      if decide (is_Some (environ !! key)) then Ok environ
      else environ_set environ key val
  | None => Ok environ
  end.

(** The loop: the environment it leaves, and the exception that ended it
    early.  What the iterations before an exception wrote stays written. *)
Fixpoint dotenv_lines (environ : gmap string string) (lines : list string)
  : gmap string string * option exn :=
  match lines with
  | [] => (environ, None)
  | line :: rest =>
      match dotenv_line environ line with
      | Ok environ' => dotenv_lines environ' rest
      | Raise e => (environ, Some e)
      end
  end.

Record DotenvFile : Type := mkDotenvFile {
  df_lines : list string;
  df_failure : option exn
}.

(** [_load_dotenv(path)] with [file] at [path] ([None] when
    [os.path.exists(path)] is false): the environment afterwards, and the
    exception that leaves the function, which [except Exception] lets be an
    interrupt only. *)
Definition _load_dotenv (file : option DotenvFile) (environ : gmap string string)
  : gmap string string * option exn :=
  match file with
  | None => (environ, None)
  | Some f =>
      let '(environ', stopped) := dotenv_lines environ (df_lines f) in
      let raised := match stopped with
                    | Some e => Some e
                    | None => df_failure f
                    end in
      (environ', match raised with
                 | Some e => if is_Exception e then None else Some e
                 | None => None
                 end)
  end.






(* ================================================================== *)
(** ** The reading of a cell by the sorting script *)

(** [s.replace(/,/g, '')]. *)
Fixpoint remove_commas (s : string) : string :=
  match s with
  | EmptyString => EmptyString
  | String c s' =>
      if Ascii.eqb c ","%char then remove_commas s' else String c (remove_commas s')
  end.

(** The text that [getCellValue] hands to [parseFloat] for a cell of a
    numeric column: the [data-value] attribute when the cell has one, the
    cell's text without its commas otherwise. *)
Definition cell_number_text (data_value : option string) (text_content : string) : string :=
  match data_value with
  | Some dv => dv
  | None => remove_commas text_content
  end.

(* ================================================================== *)
(** ** Vocabulary for strings *)





(* ================================================================== *)
(** ** Vocabulary for sorting *)

(** [l] is sorted by [le]: every element is related to every later one. *)
Fixpoint sorted_by {A} (le : A -> A -> Prop) (l : list A) : Prop :=
  match l with
  | [] => True
  | x :: l' => Forall (le x) l' /\ sorted_by le l'
  end.

(** The place of a float that is not a NaN in the order of [<]: class and
    sign first, then exponent, then mantissa. *)
Definition float_rank (f : spec_float) : Z * Z * Z :=
  match f with
  | S754_zero _ => (0, 0, 0)
  | S754_infinity s => (if s then -2 else 2, 0, 0)
  | S754_nan => (0, 0, 0)
  | S754_finite s m e => if s then (-1, - e, - Zpos m) else (1, e, Zpos m)
  end.

Definition rank_lt (a b : Z * Z * Z) : Prop :=
  a.1.1 < b.1.1 \/ (a.1.1 = b.1.1 /\ (a.1.2 < b.1.2 \/ (a.1.2 = b.1.2 /\ a.2 < b.2))).

(** Three yen holdings, the first two of the same value. *)
Definition tied_rows : list Row :=
  [ mkRow "A" 1 "JPY" 1 1 100 100 nan nan nan nan nan nan nan None;
    mkRow "B" 1 "JPY" 1 1 100 100 nan nan nan nan nan nan nan None;
    mkRow "C" 1 "JPY" 3 3 300 300 nan nan nan nan nan nan nan None ].

(* ================================================================== *)
(** ** Vocabulary for the valuation engine and the rate limiter *)

(** The six change metrics of a row. *)
Definition changes_of (r : Row) : Changes :=
  {| c_usd_mom := usd_mom r; c_usd_dod := usd_dod r;
     c_jpy_mom := jpy_mom r; c_jpy_dod := jpy_dod r;
     c_usd_yoy := usd_yoy r; c_jpy_yoy := jpy_yoy r |}.

(** The timestamps of calls of [acquire] none of which waits: each is the
    clock at the call plus the two delays before the readings. *)
Fixpoint unhindered (ds : list RateLimiter.Delays) (clock : Q) : list Q :=
  match ds with
  | [] => []
  | d :: ds' =>
      let stamp := (clock + RateLimiter.before_now d + RateLimiter.before_stamp d)%Q in
      stamp :: unhindered ds' stamp
  end.

(* ================================================================== *)
(** ** More sample inputs *)

(** A provider that quotes the scenario's prices and has no history. *)
Definition quoting_yfinance : YFinanceOracle :=
  {| yf_last_price := fun sym =>
       if decide (sym = "AAPL") then Ok (Some 150%float)
       else if decide (sym = "7203.T") then Ok (Some 3000%float)
       else if decide (sym = "USDJPY=X") then Ok (Some 150%float)
       else Ok None;
     yf_previous_day_close := fun _ => Ok None;
     yf_history := fun _ _ => Ok [];
     yf_get_name := fun _ => Ok None;
     yf_get_per := fun _ => Ok None |}.

(** The scenario's portfolio with a second lot of AAPL. *)
Definition repeated_holdings : list Holding :=
  [ mkHolding "AAPL" 10 (Some "USD"); mkHolding "7203.T" 5 (Some "JPY");
    mkHolding "AAPL" 2 (Some "USD") ].

(** A provider with a year of monthly closes for every ticker, whose
    previous-day close fails for 7203.T. *)
Definition patchy_yfinance : YFinanceOracle :=
  {| yf_last_price := yf_last_price quoting_yfinance;
     yf_previous_day_close := fun sym =>
       if decide (sym = "7203.T") then Raise (OSError "timed out")
       else Ok (Some 120%float);
     yf_history := fun _ _ =>
       Ok [ ("2025-01", 100%float); ("2025-02", 120%float); ("2025-03", 150%float) ];
     yf_get_name := fun _ => Ok (Some "a name");
     yf_get_per := fun _ => Ok (Some 12%float) |}.

(** A provider all of whose calls fail. *)
Definition dead_yfinance : YFinanceOracle :=
  {| yf_last_price := fun _ => Raise (OSError "unreachable");
     yf_previous_day_close := fun _ => Raise (OSError "unreachable");
     yf_history := fun _ _ => Raise (OSError "unreachable");
     yf_get_name := fun _ => Raise (OSError "unreachable");
     yf_get_per := fun _ => Raise (OSError "unreachable") |}.

(** A configuration whose provider type is misspelt, without a key. *)
Definition world_misspelt_type : World :=
  {| w_read_config := fun _ => Ok (mkRawConfig (Some "AlphaVantage") None (Some "JPY") None);
     w_env_api_key := None;
     w_get_portfolio := fun _ => Ok sample_entries;
     w_yfinance := Some steady_yfinance;
     w_alpha_vantage := fun _ =>
       Some {| av_get_price := fun _ => Raise (RuntimeError "Alpha Vantage エラー: apikey");
               av_get_fx_rate := fun _ _ => Raise (RuntimeError "Alpha Vantage エラー: apikey") |};
     w_now := "2026-01-05 09:00";
     w_write_html := fun _ _ => Ok tt |}.


(* ================================================================== *)
(** ** [build_rows] for any [str.upper]

    [str.upper] is Python's: it maps every character by the Unicode case
    tables of the interpreter, which are no part of this program ([upper]
    above is its restriction to ASCII text).  Here the loop of [build_rows]
    is given once more with [str.upper] as a parameter, for the statements
    that are to hold of currencies in any script.  With [upper] for the
    parameter these are the definitions above. *)

Section AnyUpper.

Variable str_upper : string -> string.

(** [(h.currency or "USD").upper()]. *)
Definition holding_ccy_with (h : Holding) : string :=
  str_upper (str_or (h_currency h) "USD").

Definition unsupported_message_with (h : Holding) : string :=
  "未対応の通貨です: " +:+ h_symbol h +:+ " currency=" +:+ holding_ccy_with h
  +:+ " (USD/JPYのみ対応)".

(** One iteration of the [for h in holdings] loop. *)
Definition build_rows_body_with (yf : option YFinanceOracle)
    (prices : gmap string float) (usd_jpy : option float)
    (fx_prev_day fx_prev_month fx_prev_year : option float)
    (st : BuildState) (h : Holding) : result BuildState :=
  let price := default nan (prices !! h_symbol h) in
  let ccy := holding_ccy_with h in
  if unsupported ccy then
    Raise (ValueError (unsupported_message_with h))
  else
    '(usd_p, jpy_p) ← both_prices ccy price usd_jpy;
    let usd_v := (h_shares h * usd_p)%float in
    let jpy_v := (h_shares h * jpy_p)%float in
    ch ← match yf with
         | Some o => change_metrics o fx_prev_day fx_prev_month fx_prev_year
                       ccy (h_symbol h) usd_p jpy_p
         | None => mret no_changes
         end;
    '(comp_name, cache) ←
       match yf with
       | Some o =>
           match bs_name_cache st !! h_symbol h with
           | Some cached => mret (cached, bs_name_cache st)
           | None =>
               n ← try_except (yf_get_name o (h_symbol h)) (fun _ => mret None);
               mret (n, <[h_symbol h := n]> (bs_name_cache st))
           end
       | None => mret (None, bs_name_cache st)
       end;
    let total_usd := (bs_total_usd st + usd_v)%float in
    let total_jpy := (bs_total_jpy st + jpy_v)%float in
    per_val ← match yf with
              | Some o =>
                  try_except
                    (pv ← yf_get_per o (h_symbol h);
                     mret (match pv with Some v => v | None => nan end))
                    (fun _ => mret nan)
              | None => mret nan
              end;
    mret {| bs_rows := bs_rows st ++
              [ {| symbol := h_symbol h; shares := h_shares h; currency := ccy;
                   per := per_val;
                   usd_price := usd_p; usd_value := usd_v;
                   jpy_price := jpy_p; jpy_value := jpy_v;
                   usd_mom := c_usd_mom ch; usd_dod := c_usd_dod ch;
                   jpy_mom := c_jpy_mom ch; jpy_dod := c_jpy_dod ch;
                   usd_yoy := c_usd_yoy ch; jpy_yoy := c_jpy_yoy ch;
                   company_name := comp_name |} ];
            bs_total_usd := total_usd;
            bs_total_jpy := total_jpy;
            bs_name_cache := cache |}.

Definition build_rows_with (holdings : list Holding) (prices : gmap string float)
    (usd_jpy : option float) (provider : option PriceProvider)
  : result (list Row * float * float) :=
  let use_yf := as_yfinance provider in
  '(fx_prev_day, fx_prev_month, fx_prev_year) ←
     match use_yf with
     | Some o =>
         d ← try_except (yf_previous_day_close o "USDJPY=X") (fun _ => mret None);
         m ← try_except (previous_month_close o "USDJPY=X") (fun _ => mret None);
         y ← try_except (previous_year_close o "USDJPY=X") (fun _ => mret None);
         mret (d, m, y)
     | None => mret (None, None, None)
     end;
  st ← for_each holdings
         (build_rows_body_with use_yf prices usd_jpy fx_prev_day fx_prev_month fx_prev_year)
         {| bs_rows := []; bs_total_usd := 0%float; bs_total_jpy := 0%float;
            bs_name_cache := ∅ |};
  mret (bs_rows st, bs_total_usd st, bs_total_jpy st).

End AnyUpper.

(* ================================================================== *)
(** ** The text of the CSV export, read back

    The lines of a text are the pieces between its line feeds, the fields of
    a line the pieces between its commas: [text.split("\n")] and
    [line.split(",")]. *)

Definition lf : ascii := ascii_of_nat 10.

(** [s.split(sep)] for a one-character [sep]. *)
Fixpoint split_on (sep : ascii) (s : string) : list string :=
  match s with
  | EmptyString => [ EmptyString ]
  | String c s' =>
      if Ascii.eqb c sep then EmptyString :: split_on sep s'
      else match split_on sep s' with
           | piece :: pieces => String c piece :: pieces
           | [] => [ String c EmptyString ]
           end
  end.

(** [c not in s]. *)
Fixpoint lacks (c : ascii) (s : string) : bool :=
  match s with
  | EmptyString => true
  | String a s' => negb (Ascii.eqb a c) && lacks c s'
  end.

(** A text that holds neither a comma nor a line feed. *)
Definition separator_free (s : string) : bool := lacks ","%char s && lacks lf s.

(** Every label of the dataset is free of separators. *)
Definition plain_labels (ds : MonthlyDataset) : Prop :=
  Forall (fun m => separator_free m = true) (ds_months ds) /\
  Forall (fun r => separator_free (d_symbol r) = true /\
                   separator_free (d_currency r) = true) (ds_rows ds).

(** One month, one holding whose symbol holds a line feed. *)
Definition line_feed_dataset : MonthlyDataset :=
  {| ds_months := [ "2025-01" ];
     ds_rows := [ mkDatasetRow ("BRK" +:+ nl +:+ "B") 3 "USD" [ 500%float ] [ 1500%float ]
                               [ 75000%float ] [ 225000%float ] ];
     ds_fx := [ Some 150%float ] |}.

(** One month, one holding whose symbol holds a comma and whose prices are
    infinite. *)
Definition comma_dataset : MonthlyDataset :=
  {| ds_months := [ "2025-01" ];
     ds_rows := [ mkDatasetRow "BRK,B" 3 "USD" [ infinity ] [ infinity ]
                               [ infinity ] [ neg_infinity ] ];
     ds_fx := [ Some 150%float ] |}.

(* ================================================================== *)
(** ** The rate limiter on binary64 readings

    [time.time()] returns binary64 seconds and [acquire] computes with them:
    [now - t] is the rounded difference of two readings.  [RateLimiter] above
    is the limiter in exact arithmetic; here it is as the interpreter runs
    it.  The process does not own the clock, so the three readings that a
    call of [acquire] takes (lines 96, 104 and 106; the second only when it
    waits) are inputs of the call, and the sleep it asks for is an output.
    [per_seconds] is a float; an [int] stands for the float of its value. *)

Module RateLimiter64.

Record t : Type := mk {
  limit : Z;
  per_seconds : float;
  _times : list float
}.

(** [RateLimiter(limit, per_seconds)]. *)
Definition init (limit : Z) (per_seconds : float) : t := mk limit per_seconds [].

(** The readings of [time.time()] during one call. *)
Record Readings : Type := mkReadings {
  read_now : float;
  read_renow : float;
  read_stamp : float
}.

(** [now - t < per_seconds]. *)
Definition in_window (per now t : float) : bool := (now - t <? per)%float.

(** [[t for t in self._times if now - t < self.per_seconds]]. *)
Definition prune (per now : float) (times : list float) : list float :=
  List.filter (in_window per now) times.

(** The literal [0.05]. *)
Definition margin : float := 0x1.999999999999ap-5%float.

(** [acquire]: the limiter when it returns, and the argument of the
    [time.sleep] it called, [None] when it called none. *)
Definition acquire (c : Readings) (self : t) : result (t * option float) :=
  let now := read_now c in
  let times := prune (per_seconds self) now (_times self) in
  '(times, slept) ←
     (if (limit self <=? Z.of_nat (length times))%Z then
        t0 ← py_index times 0;
        let sleep_for := (per_seconds self - (now - t0) + margin)%float in
        let slept := if (0 <? sleep_for)%float then Some sleep_for else None in
        let now := read_renow c in
        mret (prune (per_seconds self) now times, slept)
      else mret (times, None));
  mret (mk (limit self) (per_seconds self) (times ++ [ read_stamp c ]), slept).

(** Calls of [acquire] one after the other: the limiter at the end, the
    timestamps recorded and the sleeps asked for, in the order of the calls. *)
Fixpoint acquire_all (cs : list Readings) (self : t)
  : result (t * list float * list (option float)) :=
  match cs with
  | [] => mret (self, [], [])
  | c :: cs' =>
      '(self', slept) ← acquire c self;
      '(self'', stamps, sleeps) ← acquire_all cs' self';
      mret (self'', read_stamp c :: stamps, slept :: sleeps)
  end.

(** The number of timestamps whose exact value lies in the window
    [(T - per, T]]. *)
Definition calls_in_window (per T : Q) (stamps : list float) : nat :=
  length (List.filter
            (fun s => match exact_value s with
                      | Some v => RateLimiter.Qltb (T - per) v && Qle_bool v T
                      | None => false
                      end) stamps).

End RateLimiter64.

(* ================================================================== *)
(** * Properties *)

(** ** Floats *)

Lemma is_nan_nan : is_nan nan = true.
Proof. reflexivity. Qed.

Lemma is_zero_nan : is_zero nan = false.
Proof. reflexivity. Qed.

Lemma SFcompare_refl (f : spec_float) :
  f <> S754_nan -> SFcompare f f = Some Eq.
Proof.
  destruct f as [s | s | | s m e]; simpl; try congruence.
  - destruct s; reflexivity.
  - intros _. rewrite Z.compare_refl, Pos.compare_cont_refl. destruct s; reflexivity.
Qed.

Lemma is_nan_Prim2SF (x : float) : is_nan x = true <-> Prim2SF x = S754_nan.
Proof.
  unfold is_nan. rewrite FloatAxioms.eqb_spec. unfold SFeqb. split.
  - intros H. destruct (Prim2SF x) eqn:E; try reflexivity;
      rewrite SFcompare_refl in H by congruence; discriminate.
  - intros ->. reflexivity.
Qed.

Lemma is_nan_eq (x : float) : is_nan x = true <-> x = nan.
Proof.
  rewrite is_nan_Prim2SF. split.
  - intros H. rewrite <- (SF2Prim_Prim2SF x), H. reflexivity.
  - intros ->. reflexivity.
Qed.

Lemma add_nan_r (x : float) : (x + nan)%float = nan.
Proof.
  rewrite <- (SF2Prim_Prim2SF (x + nan)), add_spec.
  change (Prim2SF nan) with S754_nan.
  unfold SF64add, SFadd. destruct (Prim2SF x); reflexivity.
Qed.

Lemma add_nan_l (x : float) : (nan + x)%float = nan.
Proof.
  rewrite <- (SF2Prim_Prim2SF (nan + x)), add_spec. reflexivity.
Qed.

Lemma mul_nan_r (x : float) : (x * nan)%float = nan.
Proof.
  rewrite <- (SF2Prim_Prim2SF (x * nan)), mul_spec.
  change (Prim2SF nan) with S754_nan.
  unfold SF64mul, SFmul. destruct (Prim2SF x); reflexivity.
Qed.

Lemma mul_nan_l (x : float) : (nan * x)%float = nan.
Proof.
  rewrite <- (SF2Prim_Prim2SF (nan * x)), mul_spec. reflexivity.
Qed.

Lemma div_nan_r (x : float) : (x / nan)%float = nan.
Proof.
  rewrite <- (SF2Prim_Prim2SF (x / nan)), div_spec.
  change (Prim2SF nan) with S754_nan.
  unfold SF64div, SFdiv. destruct (Prim2SF x); reflexivity.
Qed.

Lemma div_nan_l (x : float) : (nan / x)%float = nan.
Proof.
  rewrite <- (SF2Prim_Prim2SF (nan / x)), div_spec. reflexivity.
Qed.

(** A positive float is not zero: [r > 0] makes [r] truthy. *)
Lemma positive_not_zero (r : float) : (0 <? r)%float = true -> is_zero r = false.
Proof.
  unfold is_zero. rewrite FloatAxioms.ltb_spec, FloatAxioms.eqb_spec. unfold SFltb, SFeqb.
  change (Prim2SF 0) with (S754_zero false).
  destruct (Prim2SF r) as [s | s | | s m e]; simpl; try discriminate;
    destruct s; simpl; congruence.
Qed.

Lemma positive_not_nan (r : float) : (0 <? r)%float = true -> is_nan r = false.
Proof.
  intros H. destruct (is_nan r) eqn:E; [|reflexivity].
  apply is_nan_eq in E. subst r. discriminate.
Qed.

(** ** The error monad *)

Lemma bind_Ok {A B} (m : result A) (f : A -> result B) (b : B) :
  m ≫= f = Ok b <-> exists a, m = Ok a /\ f a = Ok b.
Proof.
  destruct m as [a | e]; simpl; split.
  - intros H. exists a. auto.
  - intros (a' & Ha & Hf). congruence.
  - discriminate.
  - intros (a' & Ha & _). discriminate.
Qed.

Lemma quiet_Ok {A} (a : A) : quiet (Ok a).
Proof. intros e H. discriminate. Qed.

Lemma quiet_bind {A B} (m : result A) (f : A -> result B) :
  quiet m -> (forall a, quiet (f a)) -> quiet (m ≫= f).
Proof.
  intros Hm Hf. destruct m as [a | e]; simpl.
  - apply Hf.
  - intros e' H. inversion H; subst. exact (Hm e' eq_refl).
Qed.

(** A [try] whose handler returns catches everything a quiet body raises. *)
Lemma try_except_quiet {A} (body : result A) (a0 : A) :
  quiet body -> exists a, try_except body (fun _ => Ok a0) = Ok a.
Proof.
  intros Hq. destruct body as [a | e]; simpl; [eauto |].
  rewrite (Hq e eq_refl). eauto.
Qed.

(** Whatever the body does, such a [try] returns or passes an interrupt on. *)
Lemma try_except_cases {A} (body : result A) (a0 : A) :
  (exists a, try_except body (fun _ => Ok a0) = Ok a) \/
  (exists e, try_except body (fun _ => Ok a0) = Raise e /\ is_Exception e = false).
Proof.
  destruct body as [a | e]; simpl; [eauto |].
  destruct (is_Exception e) eqn:E; eauto.
Qed.

Lemma quiet_try_except {A} (body : result A) (a0 : A) :
  quiet (try_except body (fun _ => Ok a0)) -> quiet body.
Proof.
  intros Hq e ->. destruct (is_Exception e) eqn:E; [reflexivity |].
  specialize (Hq e). simpl in Hq. rewrite E in Hq. exact (Hq eq_refl).
Qed.

(** ** Loops *)

Lemma for_each_app {A S} (body : S -> A -> result S) (xs ys : list A) (s : S) :
  for_each (xs ++ ys) body s = for_each xs body s ≫= for_each ys body.
Proof.
  revert s. induction xs as [| x xs IH]; intros s; simpl; [reflexivity |].
  destruct (body s x) as [s' | e]; simpl; [apply IH | reflexivity].
Qed.

(** An invariant of the loop, indexed by the elements already visited. *)
Lemma for_each_invariant {A S} (P : list A -> S -> Prop) (body : S -> A -> result S) :
  (forall seen s x s', P seen s -> body s x = Ok s' -> P (seen ++ [x]) s') ->
  forall xs seen s s', P seen s -> for_each xs body s = Ok s' -> P (seen ++ xs) s'.
Proof.
  intros Hstep. induction xs as [| x xs IH]; intros seen s s' HP Hrun; simpl in Hrun.
  - inversion Hrun; subst. rewrite app_nil_r. exact HP.
  - apply bind_Ok in Hrun as (s1 & Hb & Hrest).
    replace (seen ++ x :: xs) with ((seen ++ [x]) ++ xs) by (rewrite <- app_assoc; reflexivity).
    eapply IH; [| exact Hrest]. eapply Hstep; eauto.
Qed.

(** An element on which the body never returns stops the loop. *)
Lemma for_each_never_Ok {A S} (body : S -> A -> result S) (h : A) (xs : list A) :
  h ∈ xs -> (forall s s', body s h <> Ok s') ->
  forall s s', for_each xs body s <> Ok s'.
Proof.
  intros Hin Hbad. induction xs as [| x xs IH]; intros s s' Hrun.
  - inversion Hin.
  - simpl in Hrun. apply bind_Ok in Hrun as (s1 & Hb & Hrest).
    apply elem_of_cons in Hin as [-> | Hin].
    + exact (Hbad _ _ Hb).
    + exact (IH Hin _ _ Hrest).
Qed.

(** When the body returns or raises a [ValueError], and raises on [h], the
    loop raises a [ValueError]. *)
Lemma for_each_ValueError {A S} (body : S -> A -> result S) (h : A) (xs : list A) :
  h ∈ xs ->
  (forall s x, (exists s', body s x = Ok s') \/ (exists m, body s x = Raise (ValueError m))) ->
  (forall s s', body s h <> Ok s') ->
  forall s, exists m, for_each xs body s = Raise (ValueError m).
Proof.
  intros Hin Hcases Hbad. induction xs as [| x xs IH]; intros s.
  - inversion Hin.
  - simpl. destruct (Hcases s x) as [(s1 & Hb) | (m & Hb)]; rewrite Hb; simpl.
    + apply elem_of_cons in Hin as [-> | Hin]; [destruct (Hbad _ _ Hb) | apply IH, Hin].
    + eauto.
Qed.

(** A loop whose body always returns returns. *)
Lemma for_each_total {A S} (body : S -> A -> result S) (xs : list A) :
  (forall s x, x ∈ xs -> exists s', body s x = Ok s') ->
  forall s, exists s', for_each xs body s = Ok s'.
Proof.
  induction xs as [| x xs IH]; intros Hb s; simpl; [eauto |].
  destruct (Hb s x) as (s1 & ->); [left |]. simpl.
  apply IH. intros s2 y Hy. apply Hb. right. exact Hy.
Qed.

(** ** The valuation engine *)

Lemma both_prices_USD (price : float) (usd_jpy : option float) :
  both_prices "USD" price usd_jpy = Ok (price, (price * or_nan usd_jpy)%float).
Proof. reflexivity. Qed.

Lemma both_prices_other (ccy : string) (price : float) (usd_jpy : option float) :
  ccy <> "USD" ->
  both_prices ccy price usd_jpy =
  Ok (match usd_jpy with
      | Some r => if is_zero r then nan else (price / r)%float
      | None => nan
      end, price).
Proof.
  intros Hne. unfold both_prices. destruct (decide (ccy = "USD")) as [E | _]; [contradiction |].
  destruct usd_jpy as [r |]; simpl; [| reflexivity].
  unfold py_div. destruct (is_zero r); reflexivity.
Qed.

Lemma both_prices_returns (ccy : string) (price : float) (usd_jpy : option float) :
  exists p, both_prices ccy price usd_jpy = Ok p.
Proof.
  destruct (decide (ccy = "USD")) as [-> | Hne].
  - rewrite both_prices_USD. eauto.
  - rewrite (both_prices_other _ _ _ Hne). eauto.
Qed.

Lemma build_rows_body_unsupported yf prices usd_jpy d m y st h :
  unsupported (holding_ccy h) = true ->
  build_rows_body yf prices usd_jpy d m y st h = Raise (ValueError (unsupported_message h)).
Proof. intros H. unfold build_rows_body. rewrite H. reflexivity. Qed.

(** What an iteration that returns has done to the loop's variables. *)
Lemma build_rows_body_Ok yf prices usd_jpy d m y st h st' :
  build_rows_body yf prices usd_jpy d m y st h = Ok st' ->
  exists r, valuation_of prices usd_jpy h r /\
            bs_rows st' = bs_rows st ++ [r] /\
            bs_total_usd st' = (bs_total_usd st + usd_value r)%float /\
            bs_total_jpy st' = (bs_total_jpy st + jpy_value r)%float.
Proof.
  unfold build_rows_body. destruct (unsupported (holding_ccy h)) eqn:Hs; [discriminate |].
  intros H. apply bind_Ok in H as ([u j] & Hp & H).
  apply bind_Ok in H as (ch & _ & H).
  apply bind_Ok in H as ([name cache] & _ & H).
  apply bind_Ok in H as (pv & _ & H).
  inversion H; subst; clear H. eexists. split; [| simpl; auto].
  unfold valuation_of; simpl. auto 10.
Qed.

Lemma float_sum_snoc (vs : list float) (v : float) :
  float_sum (vs ++ [v]) = (float_sum vs + v)%float.
Proof. unfold float_sum. rewrite foldl_app. reflexivity. Qed.

(** The rows and totals of a run of [build_rows] that returns. *)
Lemma build_rows_Ok hs prices usd_jpy provider rows tu tj :
  build_rows hs prices usd_jpy provider = Ok (rows, tu, tj) ->
  Forall2 (valuation_of prices usd_jpy) hs rows /\
  tu = float_sum (usd_value <$> rows) /\
  tj = float_sum (jpy_value <$> rows).
Proof.
  unfold build_rows. intros H.
  apply bind_Ok in H as ([[d m] y] & _ & H).
  apply bind_Ok in H as (st & Hloop & H).
  inversion H; subst; clear H.
  pose (P := fun (seen : list Holding) (s : BuildState) =>
    Forall2 (valuation_of prices usd_jpy) seen (bs_rows s) /\
    bs_total_usd s = float_sum (usd_value <$> bs_rows s) /\
    bs_total_jpy s = float_sum (jpy_value <$> bs_rows s)).
  change (P ([] ++ hs) st).
  eapply (for_each_invariant P); [| | exact Hloop].
  - intros seen s x s' (HF & Hu & Hj) Hb.
    apply build_rows_body_Ok in Hb as (r & Hv & Hr & Hu' & Hj').
    unfold P. rewrite Hr, Hu', Hj', !fmap_app. cbn [fmap list_fmap].
    rewrite !float_sum_snoc, Hu, Hj.
    split; [| auto]. apply Forall2_app; [exact HF | constructor; [exact Hv | constructor]].
  - unfold P. simpl. split; [constructor | split; reflexivity].
Qed.

Lemma quiet_py_index {A} (l : list A) (i : Z) : quiet (py_index l i).
Proof.
  unfold py_index, quiet. intros e.
  destruct (_ || _); [intros H; inversion H; reflexivity |].
  destruct (l !! _); intros H; inversion H; reflexivity.
Qed.

Lemma quiet_py_div (x y : float) : quiet (py_div x y).
Proof.
  unfold py_div, quiet. intros e. destruct (is_zero y); intros H; inversion H; reflexivity.
Qed.

Lemma quiet_get_monthly_series yf sym months :
  yf_quiet yf -> quiet (get_monthly_series yf sym months).
Proof.
  intros (_ & Hh & _). unfold get_monthly_series. apply quiet_bind; [apply Hh |].
  intros res. destruct (_ && _); apply quiet_Ok.
Qed.

Lemma previous_month_close_returns yf ticker :
  yf_quiet yf -> exists p, previous_month_close yf ticker = Ok p.
Proof.
  intros Hq. unfold previous_month_close. apply try_except_quiet.
  apply quiet_bind; [apply quiet_get_monthly_series, Hq |].
  intros ser. destruct (_ <=? _); [| apply quiet_Ok].
  apply quiet_bind; [apply quiet_py_index | intros; apply quiet_Ok].
Qed.

Lemma previous_year_close_returns yf ticker :
  yf_quiet yf -> exists p, previous_year_close yf ticker = Ok p.
Proof.
  intros Hq. unfold previous_year_close. apply try_except_quiet.
  apply quiet_bind; [apply quiet_get_monthly_series, Hq |].
  intros ser. destruct (_ <=? _); [| apply quiet_Ok].
  apply quiet_bind; [apply quiet_py_index | intros; apply quiet_Ok].
Qed.

Lemma quiet_of_returns {A} (r : result A) : (exists a, r = Ok a) -> quiet r.
Proof. intros (a & ->). apply quiet_Ok. Qed.

Lemma quiet_prev_over_fx p fx : quiet (prev_over_fx p fx).
Proof.
  unfold prev_over_fx. destruct p, fx; try apply quiet_Ok.
  destruct (is_zero _); [apply quiet_Ok |].
  apply quiet_bind; [apply quiet_py_div | intros; apply quiet_Ok].
Qed.

Lemma change_metrics_returns yf d m y ccy sym u j :
  yf_quiet yf -> exists ch, change_metrics yf d m y ccy sym u j = Ok ch.
Proof.
  intros Hq. unfold change_metrics. apply try_except_quiet.
  pose proof Hq as (Hd & _).
  apply quiet_bind; [| intros [[[[[? ?] ?] ?] ?] ?]; apply quiet_Ok].
  destruct (decide (ccy = "USD")).
  - apply quiet_bind; [apply Hd | intros].
    apply quiet_bind; [apply quiet_of_returns, previous_month_close_returns, Hq | intros].
    apply quiet_bind; [apply quiet_of_returns, previous_year_close_returns, Hq | intros].
    apply quiet_Ok.
  - apply quiet_bind; [apply Hd | intros].
    apply quiet_bind; [apply quiet_of_returns, previous_month_close_returns, Hq | intros].
    apply quiet_bind; [apply quiet_of_returns, previous_year_close_returns, Hq | intros].
    do 3 (apply quiet_bind; [apply quiet_prev_over_fx | intros]).
    apply quiet_Ok.
Qed.

(** With a provider that is not interrupted, an iteration on a holding of a
    supported currency returns. *)
Lemma build_rows_body_returns yf prices usd_jpy d m y st h :
  match yf with Some o => yf_quiet o | None => True end ->
  unsupported (holding_ccy h) = false ->
  exists st', build_rows_body yf prices usd_jpy d m y st h = Ok st'.
Proof.
  intros Hq Hs. unfold build_rows_body. rewrite Hs.
  destruct (both_prices_returns (holding_ccy h) (default nan (prices !! h_symbol h)) usd_jpy)
    as ([u j] & ->). simpl.
  destruct yf as [o |]; simpl; [| eauto].
  destruct (change_metrics_returns o d m y (holding_ccy h) (h_symbol h) u j Hq) as (ch & ->).
  simpl. destruct Hq as (_ & _ & Hn & Hp).
  destruct (bs_name_cache st !! h_symbol h) as [cached |]; simpl.
  - destruct (try_except_quiet
                (yf_get_per o (h_symbol h) ≫= fun pv => mret (match pv with Some v => v | None => nan end))
                nan) as (pv & Hpv).
    { apply quiet_bind; [apply Hp | intros; apply quiet_Ok]. }
    unfold mret, result_ret in *. rewrite Hpv. simpl. eauto.
  - destruct (try_except_quiet (yf_get_name o (h_symbol h)) None (Hn _)) as (n & Hn').
    unfold mret, result_ret in *. rewrite Hn'. simpl.
    destruct (try_except_quiet
                (yf_get_per o (h_symbol h) ≫= fun pv => mret (match pv with Some v => v | None => nan end))
                nan) as (pv & Hpv).
    { apply quiet_bind; [apply Hp | intros; apply quiet_Ok]. }
    unfold mret, result_ret in *. rewrite Hpv. simpl. eauto.
Qed.

(** The three previous closes of the FX pair, read before the loop. *)
Lemma fx_prev_returns (o : YFinanceOracle) :
  yf_quiet o ->
  exists p,
    (d ← try_except (yf_previous_day_close o "USDJPY=X") (fun _ => mret None);
     m ← try_except (previous_month_close o "USDJPY=X") (fun _ => mret None);
     y ← try_except (previous_year_close o "USDJPY=X") (fun _ => mret None);
     mret (d, m, y)) = Ok p.
Proof.
  intros Hq. pose proof Hq as (Hd & _).
  destruct (try_except_quiet (yf_previous_day_close o "USDJPY=X") None (Hd _)) as (d & Hd').
  destruct (try_except_quiet (previous_month_close o "USDJPY=X") None) as (m & Hm').
  { apply quiet_of_returns, previous_month_close_returns, Hq. }
  destruct (try_except_quiet (previous_year_close o "USDJPY=X") None) as (y & Hy').
  { apply quiet_of_returns, previous_year_close_returns, Hq. }
  unfold mret, result_ret in *. rewrite Hd'. simpl. rewrite Hm'. simpl. rewrite Hy'. simpl. eauto.
Qed.

(** [build_rows] returns when every holding has a supported currency and the
    provider is not interrupted. *)
Lemma build_rows_returns hs prices usd_jpy provider :
  provider_quiet provider ->
  Forall (fun h => unsupported (holding_ccy h) = false) hs ->
  exists res, build_rows hs prices usd_jpy provider = Ok res.
Proof.
  intros Hq Hall. unfold build_rows, provider_quiet in *.
  assert (Hpre : exists p,
    match as_yfinance provider with
    | Some o =>
        d ← try_except (yf_previous_day_close o "USDJPY=X") (fun _ => mret None);
        m ← try_except (previous_month_close o "USDJPY=X") (fun _ => mret None);
        y ← try_except (previous_year_close o "USDJPY=X") (fun _ => mret None);
        mret (d, m, y)
    | None => mret (None, None, None)
    end = Ok p).
  { destruct (as_yfinance provider) as [o |]; [apply fx_prev_returns, Hq | eexists; reflexivity]. }
  destruct Hpre as ([[d m] y] & ->). simpl.
  edestruct (for_each_total
               (build_rows_body (as_yfinance provider) prices usd_jpy d m y) hs) as (st & ->).
  - intros s x Hx. apply build_rows_body_returns; [exact Hq |].
    rewrite Forall_forall in Hall. apply Hall, Hx.
  - simpl. eauto.
Qed.

Lemma build_rows_length hs prices usd_jpy provider rows tu tj :
  build_rows hs prices usd_jpy provider = Ok (rows, tu, tj) -> length rows = length hs.
Proof. intros H. apply build_rows_Ok in H as (HF & _). symmetry. eapply Forall2_length, HF. Qed.

Example scenario_build_rows :
  build_rows scenario_holdings scenario_prices (Some 150%float) None
  = Ok (scenario_rows, 1600%float, 240000%float).
Proof. vm_compute. reflexivity. Qed.

Example gap_build_rows :
  build_rows gap_holdings gap_prices (Some 100%float) None = Ok (gap_rows, nan, nan).
Proof. vm_compute. reflexivity. Qed.

(** C10: a run of [build_rows] that returns gives one row per holding, in the
    order of the holdings; the row at a position carries the symbol and the
    share count of the holding there, and its currency is the holding's, upper
    case, ["USD"] when the holding has none.  Holdings of one symbol each have
    their row: rows are matched to holdings by position. *)
Theorem build_rows_one_row_per_holding hs prices usd_jpy provider rows tu tj :
  build_rows hs prices usd_jpy provider = Ok (rows, tu, tj) ->
  length rows = length hs /\
  forall i h, hs !! i = Some h ->
    exists r, rows !! i = Some r /\
              symbol r = h_symbol h /\ shares r = h_shares h /\
              currency r = upper (str_or (h_currency h) "USD").
Proof.
  intros H. apply build_rows_Ok in H as (HF & _). split.
  - symmetry. eapply Forall2_length, HF.
  - intros i h Hi. destruct (Forall2_lookup_l _ _ _ _ _ HF Hi) as (r & Hr & Hv).
    exists r. destruct Hv as (? & ? & ? & _). auto.
Qed.

Lemma build_rows_one_row_per_holding_witness :
  length scenario_rows = length scenario_holdings /\
  forall i h, scenario_holdings !! i = Some h ->
    exists r, scenario_rows !! i = Some r /\
              symbol r = h_symbol h /\ shares r = h_shares h /\
              currency r = upper (str_or (h_currency h) "USD").
Proof.
  apply (build_rows_one_row_per_holding scenario_holdings scenario_prices
           (Some 150%float) None scenario_rows 1600%float 240000%float).
  vm_compute. reflexivity.
Defined.

(** C3: in a run of [build_rows] that returns, a holding in USD valued at a
    rate [r > 0] has [jpy_price = usd_price * r] and
    [jpy_value = shares * jpy_price]; a holding in JPY has
    [usd_price = jpy_price / r] when [r > 0], and a [usd_price] that is NaN,
    not zero, when the rate is [None] or zero. *)
Theorem build_rows_currency_conversion hs prices usd_jpy provider rows tu tj i h r :
  build_rows hs prices usd_jpy provider = Ok (rows, tu, tj) ->
  hs !! i = Some h -> rows !! i = Some r ->
  (upper (str_or (h_currency h) "USD") = "USD" ->
   forall rate, usd_jpy = Some rate -> (0 <? rate)%float = true ->
     jpy_price r = (usd_price r * rate)%float /\
     jpy_value r = (shares r * jpy_price r)%float) /\
  (upper (str_or (h_currency h) "USD") = "JPY" ->
   (forall rate, usd_jpy = Some rate -> (0 <? rate)%float = true ->
      usd_price r = (jpy_price r / rate)%float) /\
   (usd_jpy = None \/ (exists z, usd_jpy = Some z /\ (z =? 0)%float = true) ->
      usd_price r = nan /\ is_nan (usd_price r) = true /\ (usd_price r =? 0)%float = false)).
Proof.
  intros H Hi Hr. apply build_rows_Ok in H as (HF & _).
  destruct (Forall2_lookup_l _ _ _ _ _ HF Hi) as (r' & Hr' & Hv).
  rewrite Hr in Hr'. inversion Hr'; subst r'; clear Hr'.
  destruct Hv as (_ & _ & _ & _ & Hp & Hu & Hj).
  fold (holding_ccy h). split.
  - intros Hc rate -> Hpos. rewrite Hc, both_prices_USD in Hp.
    injection Hp as Hup Hjp. split; [| exact Hj].
    rewrite <- Hjp, <- Hup. simpl. rewrite (positive_not_zero _ Hpos). reflexivity.
  - intros Hc. rewrite Hc, both_prices_other in Hp by discriminate.
    injection Hp as Hup Hjp. rewrite <- Hup, <- Hjp. split.
    + intros rate -> Hpos. rewrite (positive_not_zero _ Hpos). reflexivity.
    + intros [-> | (z & -> & Hz)].
      * auto.
      * unfold is_zero. rewrite Hz. auto.
Qed.

Lemma build_rows_currency_conversion_witness :
  (jpy_price scenario_row_usd = (usd_price scenario_row_usd * 150)%float /\
   jpy_value scenario_row_usd = (shares scenario_row_usd * jpy_price scenario_row_usd)%float) /\
  usd_price scenario_row_jpy = (jpy_price scenario_row_jpy / 150)%float /\
  (usd_price unrated_row_jpy = nan /\ is_nan (usd_price unrated_row_jpy) = true /\
   (usd_price unrated_row_jpy =? 0)%float = false).
Proof.
  assert (Hrun : build_rows scenario_holdings scenario_prices (Some 150%float) None
                 = Ok (scenario_rows, 1600%float, 240000%float))
    by (vm_compute; reflexivity).
  assert (Hunrated : build_rows scenario_holdings scenario_prices None None
                     = Ok (unrated_rows, nan, nan))
    by (vm_compute; reflexivity).
  split; [| split].
  - exact (proj1 (build_rows_currency_conversion _ _ _ _ _ _ _ 0%nat
                    (mkHolding "AAPL" 10 (Some "USD")) scenario_row_usd
                    Hrun eq_refl eq_refl)
                 eq_refl 150%float eq_refl eq_refl).
  - exact (proj1 (proj2 (build_rows_currency_conversion _ _ _ _ _ _ _ 1%nat
                           (mkHolding "7203.T" 5 (Some "JPY")) scenario_row_jpy
                           Hrun eq_refl eq_refl)
                        eq_refl)
                 150%float eq_refl eq_refl).
  - exact (proj2 (proj2 (build_rows_currency_conversion _ _ _ _ _ _ _ 1%nat
                           (mkHolding "7203.T" 5 (Some "JPY")) unrated_row_jpy
                           Hunrated eq_refl eq_refl)
                        eq_refl)
                 (or_introl eq_refl)).
Defined.

Lemma build_rows_with_upper hs prices usd_jpy provider :
  build_rows_with upper hs prices usd_jpy provider = build_rows hs prices usd_jpy provider.
Proof. reflexivity. Qed.

Lemma build_rows_body_with_unsupported str_upper yf prices usd_jpy d m y st h :
  unsupported (holding_ccy_with str_upper h) = true ->
  build_rows_body_with str_upper yf prices usd_jpy d m y st h
  = Raise (ValueError (unsupported_message_with str_upper h)).
Proof. intros H. unfold build_rows_body_with. rewrite H. reflexivity. Qed.

Lemma build_rows_body_with_returns str_upper yf prices usd_jpy d m y st h :
  match yf with Some o => yf_quiet o | None => True end ->
  unsupported (holding_ccy_with str_upper h) = false ->
  exists st', build_rows_body_with str_upper yf prices usd_jpy d m y st h = Ok st'.
Proof.
  intros Hq Hs. unfold build_rows_body_with. rewrite Hs.
  destruct (both_prices_returns (holding_ccy_with str_upper h)
              (default nan (prices !! h_symbol h)) usd_jpy) as ([u j] & ->). simpl.
  destruct yf as [o |]; simpl; [| eauto].
  destruct (change_metrics_returns o d m y (holding_ccy_with str_upper h) (h_symbol h) u j Hq)
    as (ch & ->).
  simpl. destruct Hq as (_ & _ & Hn & Hp).
  assert (Hper : exists pv,
    try_except
      (yf_get_per o (h_symbol h) ≫= fun pv => mret (match pv with Some v => v | None => nan end))
      (fun _ => mret nan) = Ok pv).
  { apply try_except_quiet. apply quiet_bind; [apply Hp | intros; apply quiet_Ok]. }
  destruct Hper as (pv & Hpv).
  destruct (bs_name_cache st !! h_symbol h) as [cached |]; simpl.
  - unfold mret, result_ret in *. rewrite Hpv. simpl. eauto.
  - destruct (try_except_quiet (yf_get_name o (h_symbol h)) None (Hn _)) as (n & Hn').
    unfold mret, result_ret in *. rewrite Hn'. simpl. rewrite Hpv. simpl. eauto.
Qed.

(** C4: whatever [str.upper] computes, when a holding of the list has a
    currency that, upper-cased, is neither USD nor JPY, [build_rows] returns
    no rows, however many holdings of a supported currency stand before or
    after it; what it raises is a [ValueError], unless an interrupt reached a
    provider call first. *)
Theorem build_rows_unsupported_currency (str_upper : string -> string)
    hs prices usd_jpy provider h :
  h ∈ hs -> unsupported (str_upper (str_or (h_currency h) "USD")) = true ->
  (forall res, build_rows_with str_upper hs prices usd_jpy provider <> Ok res) /\
  (provider_quiet provider ->
   exists msg, build_rows_with str_upper hs prices usd_jpy provider = Raise (ValueError msg)).
Proof.
  intros Hin Hbad. fold (holding_ccy_with str_upper h) in Hbad. split.
  - intros [[rows tu] tj] H. unfold build_rows_with in H.
    apply bind_Ok in H as ([[d m] y] & _ & H).
    apply bind_Ok in H as (st & Hloop & _).
    revert Hloop. apply (for_each_never_Ok _ h); [exact Hin |].
    intros s s'. rewrite build_rows_body_with_unsupported by exact Hbad. discriminate.
  - intros Hq. unfold build_rows_with, provider_quiet in *.
    assert (Hpre : exists p,
      match as_yfinance provider with
      | Some o =>
          d ← try_except (yf_previous_day_close o "USDJPY=X") (fun _ => mret None);
          m ← try_except (previous_month_close o "USDJPY=X") (fun _ => mret None);
          y ← try_except (previous_year_close o "USDJPY=X") (fun _ => mret None);
          mret (d, m, y)
      | None => mret (None, None, None)
      end = Ok p).
    { destruct (as_yfinance provider) as [o |]; [apply fx_prev_returns, Hq | eexists; reflexivity]. }
    destruct Hpre as ([[d m] y] & ->). simpl.
    destruct (for_each_ValueError
                (build_rows_body_with str_upper (as_yfinance provider) prices usd_jpy d m y)
                h hs Hin)
      with (s := mkBuildState [] 0%float 0%float ∅) as (msg & ->).
    + intros s x. destruct (unsupported (holding_ccy_with str_upper x)) eqn:Hx.
      * right. rewrite build_rows_body_with_unsupported by exact Hx. eauto.
      * left. apply build_rows_body_with_returns; assumption.
    + intros s s'. rewrite build_rows_body_with_unsupported by exact Hbad. discriminate.
    + simpl. eauto.
Qed.

Lemma build_rows_unsupported_currency_witness :
  (forall res, build_rows euro_holdings scenario_prices (Some 150%float) None <> Ok res) /\
  (provider_quiet None ->
   exists msg, build_rows euro_holdings scenario_prices (Some 150%float) None
               = Raise (ValueError msg)).
Proof.
  apply (build_rows_unsupported_currency upper euro_holdings scenario_prices (Some 150%float)
           None (mkHolding "SAP" 3 (Some "EUR"))).
  - unfold euro_holdings. apply list_elem_of_further, list_elem_of_here.
  - vm_compute. reflexivity.
Defined.

Example euro_build_rows :
  build_rows euro_holdings scenario_prices (Some 150%float) None
  = Raise (ValueError "未対応の通貨です: SAP currency=EUR (USD/JPYのみ対応)").
Proof. vm_compute. reflexivity. Qed.

(** ** Running totals *)

Lemma foldl_add_nan (vs : list float) : foldl PrimFloat.add nan vs = nan.
Proof. induction vs as [| v vs IH]; simpl; [reflexivity |]. rewrite add_nan_l. exact IH. Qed.

(** A NaN among the values makes the running total NaN. *)
Lemma float_sum_poisoned (vs : list float) : nan ∈ vs -> float_sum vs = nan.
Proof.
  intros Hin. apply list_elem_of_split in Hin as (l1 & l2 & ->).
  unfold float_sum. rewrite foldl_app. simpl. rewrite add_nan_r. apply foldl_add_nan.
Qed.

(** The totals that [format_report] returns are the running totals over all
    rows. *)
Lemma format_report_totals now rows usd_jpy text tu tj :
  format_report now rows usd_jpy = Ok (text, (tu, tj)) ->
  tu = float_sum (usd_value <$> rows) /\ tj = float_sum (jpy_value <$> rows).
Proof.
  unfold format_report. intros H.
  apply bind_Ok in H as ([[lines u] j] & Hloop & H).
  assert (u = tu /\ j = tj) as [<- <-] by (destruct usd_jpy; inversion H; auto).
  clear H.
  pose (P := fun (seen : list Row) (s : list string * float * float) =>
    s.1.2 = float_sum (usd_value <$> seen) /\ s.2 = float_sum (jpy_value <$> seen)).
  change (P ([] ++ rows) (lines, u, j)).
  eapply (for_each_invariant P); [| | exact Hloop].
  - intros seen [[l a] b] r s' [Ha Hb] Hbody. simpl in Ha, Hb.
    unfold format_report_body in Hbody.
    apply bind_Ok in Hbody as (line & _ & Hbody). inversion Hbody; subst; clear Hbody.
    unfold P. rewrite !fmap_app. cbn [fmap list_fmap]. rewrite !float_sum_snoc. auto.
  - split; reflexivity.
Qed.

(** A row whose value is NaN makes the totals of [build_rows] NaN. *)
Lemma build_rows_totals_poisoned hs prices usd_jpy provider rows tu tj r :
  build_rows hs prices usd_jpy provider = Ok (rows, tu, tj) ->
  r ∈ rows ->
  (is_nan (usd_value r) = true -> tu = nan) /\ (is_nan (jpy_value r) = true -> tj = nan).
Proof.
  intros H Hr. apply build_rows_Ok in H as (_ & -> & ->).
  split; intros Hn; apply is_nan_eq in Hn; apply float_sum_poisoned; rewrite <- Hn;
    apply list_elem_of_fmap; eauto.
Qed.

(** A row whose value is NaN makes the totals of [format_report] NaN. *)
Lemma format_report_totals_poisoned now rows usd_jpy text tu tj r :
  format_report now rows usd_jpy = Ok (text, (tu, tj)) ->
  r ∈ rows ->
  (is_nan (usd_value r) = true -> tu = nan) /\ (is_nan (jpy_value r) = true -> tj = nan).
Proof.
  intros H Hr. apply format_report_totals in H as (-> & ->).
  split; intros Hn; apply is_nan_eq in Hn; apply float_sum_poisoned; rewrite <- Hn;
    apply list_elem_of_fmap; eauto.
Qed.

(** The month sums of the HTML reporter's monthly view leave a NaN out. *)
Lemma month_body_sums ds i m :
  (month_body ds i m).1.2
    = float_sum_skipping_nan ((fun r => (month_values r i).1.1.2) <$> ds_rows ds) /\
  (month_body ds i m).2
    = float_sum_skipping_nan ((fun r => (month_values r i).2) <$> ds_rows ds).
Proof.
  unfold month_body. generalize (ds_rows ds) as rs.
  set (st0 := ([_], 0%float, 0%float)).
  intros rs.
  assert (H : (foldl (month_row_body i) st0 rs).1.2
                = float_sum_skipping_nan ((fun r => (month_values r i).1.1.2) <$> rs) /\
              (foldl (month_row_body i) st0 rs).2
                = float_sum_skipping_nan ((fun r => (month_values r i).2) <$> rs)).
  { induction rs as [| r rs IH] using rev_ind; [split; reflexivity |].
    rewrite foldl_app. simpl. destruct (foldl (month_row_body i) st0 rs) as [[ls a] b].
    simpl in IH. destruct IH as [-> ->].
    unfold month_row_body. destruct (month_values r i) as [[[up uv] jp] jv] eqn:E. simpl.
    rewrite !fmap_app. cbn [fmap list_fmap]. rewrite E. simpl.
    unfold float_sum_skipping_nan. rewrite !filter_app, !filter_cons, !filter_nil.
    split.
    - destruct (is_nan uv) eqn:Eu.
      + rewrite decide_False by done. rewrite app_nil_r. reflexivity.
      + rewrite decide_True by done. rewrite float_sum_snoc. reflexivity.
    - destruct (is_nan jv) eqn:Ej.
      + rewrite decide_False by done. rewrite app_nil_r. reflexivity.
      + rewrite decide_True by done. rewrite float_sum_snoc. reflexivity. }
  destruct (foldl (month_row_body i) st0 rs) as [[ls a] b]. exact H.
Qed.

(** C2 (the code does otherwise): three yen holdings of one share each, the
    second without a price, valued at 100 yen to the dollar.  The row values
    are 100, NaN and 300 yen; the values that are numbers add up to 4 dollars
    and 400 yen, but the totals of [build_rows] and of [format_report], and the
    TOTAL line of the report, are NaN. *)
Theorem totals_poisoned_by_nan_row :
  build_rows gap_holdings gap_prices (Some 100%float) None = Ok (gap_rows, nan, nan) /\
  usd_value <$> gap_rows = [1%float; nan; 3%float] /\
  jpy_value <$> gap_rows = [100%float; nan; 300%float] /\
  float_sum_skipping_nan (usd_value <$> gap_rows) = 4%float /\
  float_sum_skipping_nan (jpy_value <$> gap_rows) = 400%float /\
  format_report "2026-01-05 09:00" gap_rows (Some 100%float)
  = Ok (join nl
          [ "ポートフォリオ評価額 (2026-01-05 09:00)  (USD/JPY 表示)"; "";
            "| SYMBOL | SHARES | USD_PRICE | USD_VALUE | JPY_PRICE | JPY_VALUE |";
            "|:------ | -----:| ---------:| ---------:| ---------:| ---------:|";
            "| A | 1 | 1.00 | 1.00 | 100 | 100 |";
            "| B | 1 |  |  |  |  |";
            "| C | 1 | 3.00 | 3.00 | 300 | 300 |";
            "| TOTAL |  |  | nan |  | nan |";
            "";
            "為替: USD→JPY = 100.0000" ],
        (nan, nan)).
Proof. vm_compute. repeat split; reflexivity. Qed.

(** ** The HTML reporter *)

(** An iteration of the loop over the rows never returns. *)
Lemma html_rows_body_raises st r :
  html_rows_body st r
  = match int_round (shares r) with
    | Ok _ => Raise (NameError "name 'row_html' is not defined")
    | Raise e => Raise e
    end.
Proof.
  unfold html_rows_body. destruct (int_round (shares r)) as [n | e]; simpl; [| reflexivity].
  destruct (decide (upper (currency r) = "JPY")); reflexivity.
Qed.

(** Without a monthly dataset the reporter raises on a list with a row. *)
Lemma format_report_html_rows_raise now r rows usd_jpy monthly_csv_text :
  format_report_html now (r :: rows) usd_jpy None monthly_csv_text
  = match int_round (shares r) with
    | Ok _ => Raise (NameError "name 'row_html' is not defined")
    | Raise e => Raise e
    end.
Proof.
  unfold format_report_html.
  change (for_each (r :: rows) html_rows_body html_state0)
    with (html_rows_body html_state0 r ≫= for_each rows html_rows_body).
  rewrite html_rows_body_raises. destruct (int_round (shares r)); reflexivity.
Qed.

(** C1 (the code does otherwise): called without a monthly dataset on a list
    with at least one row, [format_report_html] returns no document.  It
    raises at the first row: [NameError] for the unbound [row_html], or the
    error of [int(round(shares))] when the share count is NaN or infinite.
    On the rows of the specification's scenario it raises the [NameError]. *)
Theorem format_report_html_raises_on_rows :
  (forall now r rows usd_jpy monthly_csv_text,
     format_report_html now (r :: rows) usd_jpy None monthly_csv_text
     = match int_round (shares r) with
       | Ok _ => Raise (NameError "name 'row_html' is not defined")
       | Raise e => Raise e
       end) /\
  format_report_html "2026-01-05 09:00" scenario_rows (Some 150%float) None None
  = Raise (NameError "name 'row_html' is not defined").
Proof.
  split; [exact format_report_html_rows_raise | vm_compute; reflexivity].
Qed.

(** With no row the document has empty tables and zero totals. *)
Example format_report_html_no_rows :
  format_report_html "2026-01-05 09:00" [] (Some 150%float) None None
  = Ok {| html_title := "ポートフォリオ評価額 (2026-01-05 09:00)  (USD/JPY 表示)";
          html_toolbar := false;
          html_data_blocks := [];
          html_jpy_body := "<tbody></tbody>";
          html_jpy_foot := _footer_row "TOTAL" 0 0;
          html_usd_body := "";
          html_usd_foot := _footer_row "TOTAL" 0 0;
          html_overall_foot := _footer_row "OVERALL TOTAL" 0 0;
          html_fx := "<p id='fx-rate' class='muted'>為替: USD→JPY = 150.0000</p>" |}.
Proof. vm_compute. reflexivity. Qed.

(** ** Sorting *)

Example sort_rows_orders_numbers :
  jpy_value <$> sort_rows "jpy" "desc" scenario_rows = [225000%float; 15000%float] /\
  jpy_value <$> sort_rows "jpy" "asc" scenario_rows = [15000%float; 225000%float].
Proof. vm_compute. split; reflexivity. Qed.

(** C9 (the code does otherwise): rows with the JPY values 100, NaN and 300
    leave the sort of [main] in the order they came in, in the descending and
    in the ascending direction: the NaN row stays in the middle. *)
Theorem sort_rows_leaves_nan_in_place :
  jpy_value <$> gap_rows = [100%float; nan; 300%float] /\
  jpy_value <$> sort_rows "jpy" "desc" gap_rows = [100%float; nan; 300%float] /\
  jpy_value <$> sort_rows "jpy" "asc" gap_rows = [100%float; nan; 300%float].
Proof. vm_compute. repeat split; reflexivity. Qed.

(** ** [list.sort] rearranges *)

Lemma binarysort_permutation {A} (lt : A -> A -> bool) (rest sorted : list A) :
  binarysort lt sorted rest ≡ₚ sorted ++ rest.
Proof.
  revert sorted. induction rest as [| pivot rest IH]; intros sorted; simpl.
  - rewrite app_nil_r. reflexivity.
  - rewrite IH. transitivity ((pivot :: sorted) ++ rest).
    + f_equiv. rewrite <- Permutation_middle, take_drop. reflexivity.
    + simpl. apply Permutation_middle.
Qed.

Lemma sort_short_permutation {A} (lt : A -> A -> bool) (l : list A) :
  sort_short lt l ≡ₚ l.
Proof.
  unfold sort_short. destruct (length l <? 2)%nat; [reflexivity |].
  destruct (count_run lt l) as [n descending]. rewrite binarysort_permutation.
  transitivity (take n l ++ drop n l); [| rewrite take_drop; reflexivity].
  f_equiv. destruct descending; [apply reverse_Permutation | reflexivity].
Qed.

(** The sort of [main] keeps the rows: it only changes their order. *)
Lemma sort_rows_permutation (sort_by sort_order : string) (rows : list Row) :
  sort_rows sort_by sort_order rows ≡ₚ rows.
Proof.
  unfold sort_rows. destruct (decide (sort_by = "none")); [reflexivity |].
  unfold list_sort. destruct (bool_decide (sort_order = "desc")).
  - rewrite reverse_Permutation, sort_short_permutation. apply reverse_Permutation.
  - apply sort_short_permutation.
Qed.

(** ** The client-side sort *)

Section ClientSideSort.
Context {A : Type} (key : A -> float) (asc : bool).

Lemma js_insert_permutation (x : A) (l : list A) : js_insert key asc x l ≡ₚ x :: l.
Proof.
  induction l as [| y l IH]; simpl; [reflexivity |].
  destruct (0 <? js_compare_num asc (key y) (key x))%float; [| reflexivity].
  rewrite IH. apply Permutation_swap.
Qed.

(** A value that is not a number goes to the end (the head of the reversed
    list). *)
Lemma js_insert_not_number (x : A) (l : list A) :
  is_number (key x) = false -> js_insert key asc x l = x :: l.
Proof.
  intros Hx. destruct l as [| y l]; [reflexivity |]. simpl.
  unfold js_compare_num. rewrite Hx. destruct (is_number (key y)); reflexivity.
Qed.

(** A number passes the values that are not numbers. *)
Lemma js_insert_number (x : A) (others numbers : list A) :
  is_number (key x) = true ->
  Forall (fun a => is_number (key a) = false) others ->
  js_insert key asc x (others ++ numbers) = others ++ js_insert key asc x numbers.
Proof.
  intros Hx Ho. induction Ho as [| y others Hy Ho IH]; [reflexivity |].
  simpl. unfold js_compare_num at 1. rewrite Hx, Hy. simpl. rewrite IH. reflexivity.
Qed.

Lemma js_insert_among_numbers (x : A) (numbers : list A) :
  is_number (key x) = true ->
  Forall (fun a => is_number (key a) = true) numbers ->
  Forall (fun a => is_number (key a) = true) (js_insert key asc x numbers).
Proof.
  intros Hx Hn. induction Hn as [| y numbers Hy Hn IH]; simpl; [repeat constructor; exact Hx |].
  destruct (0 <? js_compare_num asc (key y) (key x))%float; repeat constructor; assumption.
Qed.

(** However the column is read and whichever the direction, the sorted rows
    are the rows, and the rows whose value is a number come first. *)
Lemma js_sort_numbers_first (rows : list A) :
  js_sort key asc rows ≡ₚ rows /\
  exists numbers others,
    js_sort key asc rows = numbers ++ others /\
    Forall (fun a => is_number (key a) = true) numbers /\
    Forall (fun a => is_number (key a) = false) others.
Proof.
  unfold js_sort.
  assert (H : forall acc others numbers,
            acc = others ++ numbers ->
            Forall (fun a => is_number (key a) = false) others ->
            Forall (fun a => is_number (key a) = true) numbers ->
            foldl (fun sorted_rev x => js_insert key asc x sorted_rev) acc rows
              ≡ₚ reverse rows ++ acc /\
            exists others' numbers',
              foldl (fun sorted_rev x => js_insert key asc x sorted_rev) acc rows
                = others' ++ numbers' /\
              Forall (fun a => is_number (key a) = false) others' /\
              Forall (fun a => is_number (key a) = true) numbers').
  { induction rows as [| x rows IH]; intros acc others numbers -> Ho Hn; simpl.
    - split; [reflexivity | eauto].
    - destruct (is_number (key x)) eqn:Hx.
      + rewrite (js_insert_number x others numbers Hx Ho).
        destruct (IH (others ++ js_insert key asc x numbers) others
                    (js_insert key asc x numbers) eq_refl Ho
                    (js_insert_among_numbers x numbers Hx Hn)) as [Hp He].
        split; [| exact He]. rewrite Hp, reverse_cons, <- app_assoc. f_equiv.
        rewrite (js_insert_permutation x numbers). simpl.
        symmetry. apply Permutation_middle.
      + rewrite (js_insert_not_number x (others ++ numbers) Hx).
        destruct (IH (x :: others ++ numbers) (x :: others) numbers eq_refl
                    ltac:(constructor; assumption) Hn) as [Hp He].
        split; [| exact He]. rewrite Hp, reverse_cons, <- app_assoc. reflexivity. }
  destruct (H [] [] [] eq_refl ltac:(constructor) ltac:(constructor))
    as [Hp (others & numbers & He & Ho & Hn)].
  rewrite He in *. split.
  - rewrite reverse_Permutation, Hp, app_nil_r. apply reverse_Permutation.
  - exists (reverse numbers), (reverse others). rewrite reverse_app.
    split; [reflexivity |]. split; apply Forall_reverse; assumption.
Qed.

End ClientSideSort.

(** The rows of the sorting example, sorted by the script on the JPY value:
    the NaN row is last in both directions. *)
Example js_sort_gap_rows :
  jpy_value <$> js_sort jpy_value false gap_rows = [300%float; 100%float; nan] /\
  jpy_value <$> js_sort jpy_value true gap_rows = [100%float; 300%float; nan].
Proof. vm_compute. split; reflexivity. Qed.

(** ** The exit statuses of [main] *)

Lemma exit_status_of_body w args :
  exit_status w args =
  match main_body w args with
  | Ok run => Some (status run)
  | Raise KeyboardInterrupt => Some 130
  | Raise e => if is_Exception e then Some 1 else None
  end.
Proof.
  unfold exit_status, main. destruct (main_body w args) as [run | e]; [reflexivity |].
  destruct e; reflexivity.
Qed.

Lemma exit_status_Exception w args e :
  main_body w args = Raise e -> is_Exception e = true -> exit_status w args = Some 1.
Proof.
  intros H He. rewrite exit_status_of_body, H. destruct e; try reflexivity; discriminate.
Qed.

Lemma exit_status_interrupt w args :
  main_body w args = Raise KeyboardInterrupt -> exit_status w args = Some 130.
Proof. intros H. rewrite exit_status_of_body, H. reflexivity. Qed.

(** On the sample world where every call is answered, the run still fails:
    the HTML reporter raises on the rows, and [main] reports the generic
    failure. *)
Example main_on_steady_world :
  main world_steady sample_args
  = Ok {| status := 1; stdout := [];
          stderr := [ "エラー: name 'row_html' is not defined" ] |}.
Proof. vm_compute. reflexivity. Qed.

(** C5 (as stated, refuted): a configuration failure (a placeholder API key)
    and a fetch failure (the provider's price call raises) are two of the
    failure kinds, and [main] gives both the same status. *)
Lemma config_and_fetch_failures_share_status :
  (exists e, load_config world_placeholder_key (a_config sample_args) = Raise e /\
             is_Exception e = true) /\
  (exists cfg hs provider e,
     load_config world_fetch_down (a_config sample_args) = Ok cfg /\
     load_portfolio_api world_fetch_down (a_portfolio_url sample_args) (quote_currency cfg)
       = Ok hs /\
     hs <> [] /\
     make_provider world_fetch_down cfg = Ok provider /\
     fetch_prices provider hs = Raise e /\ is_Exception e = true) /\
  exit_status world_placeholder_key sample_args = Some 1 /\
  exit_status world_fetch_down sample_args = Some 1.
Proof.
  split; [| split; [| split]].
  - eexists. split; [vm_compute; reflexivity | reflexivity].
  - eexists _, _, _, _. repeat split; try (vm_compute; reflexivity). discriminate.
  - vm_compute. reflexivity.
  - vm_compute. reflexivity.
Qed.

(** C5 (amended): the statuses of a run that fails.  A holdings source with no
    holding gives 2.  Every failure raised as an [Exception] gives the one
    generic status 1: a configuration that [load_config] refuses, a provider
    that cannot be constructed, a price or rate fetch that raises.  An
    interrupt from the keyboard gives 130.  The three statuses differ from
    each other and from zero. *)
Theorem main_failure_statuses w args :
  (forall e, load_config w (a_config args) = Raise e -> is_Exception e = true ->
     exit_status w args = Some 1) /\
  (forall cfg, load_config w (a_config args) = Ok cfg ->
     (load_portfolio_api w (a_portfolio_url args) (quote_currency cfg) = Ok [] ->
        exit_status w args = Some 2) /\
     (forall hs e,
        load_portfolio_api w (a_portfolio_url args) (quote_currency cfg) = Ok hs ->
        hs <> [] -> is_Exception e = true ->
        (make_provider w cfg = Raise e \/
         exists provider, make_provider w cfg = Ok provider /\
           (fetch_prices provider hs = Raise e \/
            exists prices, fetch_prices provider hs = Ok prices /\
                           get_fx_rate provider "USD" "JPY" = Raise e)) ->
        exit_status w args = Some 1)) /\
  (forall e, main_body w args = Raise e -> is_Exception e = true ->
     exit_status w args = Some 1) /\
  (main_body w args = Raise KeyboardInterrupt -> exit_status w args = Some 130) /\
  (1 <> 2 /\ 1 <> 130 /\ 2 <> 130 /\ 1 <> 0 /\ 2 <> 0 /\ 130 <> 0).
Proof.
  split; [| split; [| split; [| split; [| lia]]]].
  - intros e H He. apply (exit_status_Exception w args e); [| exact He].
    unfold main_body. rewrite H. reflexivity.
  - intros cfg Hcfg. split.
    + intros Hh. rewrite exit_status_of_body. unfold main_body. rewrite Hcfg. simpl.
      rewrite Hh. reflexivity.
    + intros hs e Hh Hne He Hfail. apply (exit_status_Exception w args e); [| exact He].
      unfold main_body. rewrite Hcfg. cbn [mbind result_bind]. rewrite Hh.
      cbn [mbind result_bind]. destruct hs as [| h hs']; [contradiction |].
      destruct Hfail as [H1 | (p & H1 & [H2 | (prices & H2 & H3)])];
        rewrite H1; cbn [mbind result_bind];
        [ reflexivity
        | rewrite H2; reflexivity
        | rewrite H2; cbn [mbind result_bind]; rewrite H3; reflexivity ].
  - apply exit_status_Exception.
  - apply exit_status_interrupt.
Qed.

Lemma main_failure_statuses_witness :
  exit_status world_placeholder_key sample_args = Some 1 /\
  exit_status world_empty sample_args = Some 2 /\
  exit_status world_fetch_down sample_args = Some 1 /\
  exit_status world_interrupted sample_args = Some 130.
Proof.
  split; [| split; [| split]].
  - apply (proj1 (main_failure_statuses world_placeholder_key sample_args)
             (ValueError placeholder_key_message)); reflexivity.
  - apply (proj1 (proj1 (proj2 (main_failure_statuses world_empty sample_args))
                    (mkAppConfig (mkAlphaVantageConfig "") "yfinance" (Some "JPY") "USD")
                    eq_refl)).
    reflexivity.
  - apply (proj1 (proj2 (proj2 (main_failure_statuses world_fetch_down sample_args)))
             (OSError "connection refused")); [vm_compute |]; reflexivity.
  - apply (proj1 (proj2 (proj2 (proj2 (main_failure_statuses world_interrupted sample_args))))).
    vm_compute. reflexivity.
Defined.

(** A run of [main] never ends with status 0: with holdings the HTML
    reporter raises on the rows, without holdings the status is 2. *)
Lemma main_never_succeeds w args run : main w args = Ok run -> status run <> 0.
Proof.
  unfold main. destruct (main_body w args) as [r | e] eqn:Hbody.
  - intros Hr. inversion Hr; subst r; clear Hr. unfold main_body in Hbody.
    apply bind_Ok in Hbody as (cfg & _ & Hbody).
    apply bind_Ok in Hbody as (hs & _ & Hbody).
    destruct hs as [| h hs]; [inversion Hbody; simpl; lia |].
    apply bind_Ok in Hbody as (provider & _ & Hbody).
    apply bind_Ok in Hbody as (prices & _ & Hbody).
    apply bind_Ok in Hbody as (rate & _ & Hbody).
    apply bind_Ok in Hbody as ([[rows tu] tj] & Hrows & Hbody).
    apply bind_Ok in Hbody as ([report totals] & _ & Hbody).
    apply bind_Ok in Hbody as (html & Hhtml & _).
    exfalso. apply build_rows_length in Hrows.
    pose proof (sort_rows_permutation (a_sort_by args) (a_sort_order args) rows) as Hp.
    apply Permutation_length in Hp.
    destruct (sort_rows (a_sort_by args) (a_sort_order args) rows) as [| r rs];
      [simpl in *; lia |].
    rewrite format_report_html_rows_raise in Hhtml.
    destruct (int_round (shares r)); discriminate.
  - destruct e; try discriminate; intros Hr; inversion Hr; simpl; lia.
Qed.

Lemma main_never_succeeds_witness :
  status {| status := 2; stdout := []; stderr := [ "ポートフォリオが空です" ] |} <> 0.
Proof.
  apply (main_never_succeeds world_empty sample_args). vm_compute. reflexivity.
Defined.

(** ** The rate limiter *)

Section RateLimiterProperties.
Import RateLimiter.
Local Open Scope Q_scope.

Lemma Qltb_true (a b : Q) : Qltb a b = true <-> a < b.
Proof.
  unfold Qltb. destruct (Qlt_le_dec a b) as [H | H]; split; auto; try discriminate.
  intros H'. lra.
Qed.

Lemma Qltb_false (a b : Q) : Qltb a b = false <-> b <= a.
Proof.
  unfold Qltb. destruct (Qlt_le_dec a b) as [H | H]; split; auto; try discriminate.
  intros H'. lra.
Qed.

(** A timestamp inside the window of a later reading is inside the window of
    an earlier one. *)
Lemma in_window_earlier (per now now' t : Q) :
  now <= now' -> in_window per now' t = true -> in_window per now t = true.
Proof. unfold in_window. rewrite !Qltb_true. intros. lra. Qed.

Lemma filter_filter_implied {A} (f g : A -> bool) (l : list A) :
  (forall x, f x = true -> g x = true) ->
  List.filter f (List.filter g l) = List.filter f l.
Proof.
  intros Himp. induction l as [| x l IH]; simpl; [reflexivity |].
  destruct (g x) eqn:Eg; simpl.
  - rewrite IH. reflexivity.
  - destruct (f x) eqn:Ef; [| exact IH]. rewrite (Himp x Ef) in Eg. discriminate.
Qed.

Lemma filter_length_bound {A} (f : A -> bool) (l : list A) :
  (length (List.filter f l) <= length l)%nat.
Proof.
  induction l as [| x l IH]; simpl; [lia |]. destruct (f x); simpl; lia.
Qed.

(** The agreement survives the passing of time and a pruning. *)
Lemma tracks_later (per clock now : Q) (history times : list Q) :
  clock <= now -> tracks per clock history times ->
  tracks per now history (prune per now times) /\ tracks per now history times.
Proof.
  unfold tracks, prune. intros Hle H.
  assert (Himp : forall t, in_window per now t = true -> in_window per clock t = true)
    by (intros t; apply in_window_earlier, Hle).
  assert (E : List.filter (in_window per now) history
              = List.filter (in_window per now) times).
  { rewrite <- (filter_filter_implied _ _ history Himp), H.
    apply filter_filter_implied, Himp. }
  split; [| exact E]. rewrite E. symmetry. apply filter_filter_implied. auto.
Qed.

Lemma spaced_snoc (limit : Z) (per : Q) (history : list Q) (s : Q) :
  spaced limit per history ->
  (Z.of_nat (length (List.filter (in_window per s) history)) <= limit - 1)%Z ->
  spaced limit per (history ++ [s]).
Proof.
  intros Hsp Hs i x Hi. destruct (decide (i < length history)%nat) as [Hlt | Hge].
  - rewrite lookup_app_l in Hi by exact Hlt. rewrite take_app_le by lia. apply Hsp, Hi.
  - assert (i = length history) as ->.
    { apply lookup_lt_Some in Hi. rewrite length_app in Hi. simpl in Hi. lia. }
    rewrite list_lookup_middle in Hi by reflexivity. inversion Hi; subst x.
    rewrite take_app_length. exact Hs.
Qed.

Lemma spaced_prefix (limit : Z) (per : Q) (history : list Q) (s : Q) :
  spaced limit per (history ++ [s]) ->
  spaced limit per history /\
  (Z.of_nat (length (List.filter (in_window per s) history)) <= limit - 1)%Z.
Proof.
  intros Hsp. split.
  - intros i x Hi. pose proof (lookup_lt_Some _ _ _ Hi) as Hlt.
    specialize (Hsp i x). rewrite lookup_app_l, take_app_le in Hsp by lia. auto.
  - specialize (Hsp (length history) s).
    rewrite list_lookup_middle, take_app_length in Hsp by reflexivity. auto.
Qed.

(** Spaced timestamps put at most [limit] calls in any window [(T - per, T]]. *)
Lemma spaced_window (limit : Z) (per : Q) (history : list Q) (T : Q) :
  (0 <= limit)%Z -> spaced limit per history ->
  (Z.of_nat (calls_in_window per T history) <= limit)%Z.
Proof.
  intros Hlim. induction history as [| s history IH] using rev_ind; intros Hsp.
  - simpl. exact Hlim.
  - apply spaced_prefix in Hsp as [Hsp Hs]. specialize (IH Hsp).
    unfold calls_in_window in *. rewrite List.filter_app, length_app. simpl.
    destruct (Qltb (T - per) s && Qle_bool s T) eqn:E; simpl; [| lia].
    apply andb_true_iff in E as [E1 E2]. apply Qltb_true in E1. apply Qle_bool_iff in E2.
    assert (Hle : (length (List.filter (fun s0 => Qltb (T - per) s0 && Qle_bool s0 T) history)
                   <= length (List.filter (in_window per s) history))%nat).
    { rewrite <- (filter_filter_implied
                    (fun s0 => Qltb (T - per) s0 && Qle_bool s0 T) (in_window per s) history).
      - apply filter_length_bound.
      - intros t Ht. apply andb_true_iff in Ht as [Ht _]. apply Qltb_true in Ht.
        unfold in_window. apply Qltb_true. lra. }
    lia.
Qed.

(** The [if] block of [acquire] on a list that tracks the history and holds
    at most [limit] timestamps: it returns, not before [now], with a list that
    tracks the history and holds fewer than [limit] timestamps; when the list
    was full, the oldest timestamp has left the window by then. *)
Lemma wait_if_full_step (d : Delays) (self : t) (now : Q) (history times : list Q) :
  (1 <= limit self)%Z -> nonneg d ->
  tracks (per_seconds self) now history times ->
  (forall x, In x times -> in_window (per_seconds self) now x = true) ->
  (Z.of_nat (length times) <= limit self)%Z ->
  exists times' after,
    wait_if_full d self now times = Ok (times', after) /\
    now <= after /\
    tracks (per_seconds self) after history times' /\
    (Z.of_nat (length times') <= limit self - 1)%Z /\
    (forall t0 rest, times = t0 :: rest -> (limit self <= Z.of_nat (length times))%Z ->
       t0 + per_seconds self + (5 # 100) <= after).
Proof.
  intros Hlim (Hd1 & Hd2 & Hd3 & Hd4) Htr Hall Hlen. unfold wait_if_full.
  set (per := per_seconds self) in *.
  destruct (limit self <=? Z.of_nat (length times))%Z eqn:Efull.
  - apply Z.leb_le in Efull.
    destruct times as [| t0 rest]; [simpl in Efull; lia |].
    assert (Hin : now - t0 < per).
    { apply Qltb_true. apply (Hall t0). left. reflexivity. }
    change (py_index (t0 :: rest) 0) with (Ok (A := Q) t0). cbn [mbind result_bind].
    assert (Hsl : Qltb 0 (per - (now - t0) + (5 # 100)) = true) by (apply Qltb_true; lra).
    cbv zeta. rewrite Hsl.
    set (now2 := now + (per - (now - t0) + (5 # 100)) + oversleep d + before_renow d).
    assert (Hnow2 : now <= now2) by (unfold now2; lra).
    eexists _, _. split; [reflexivity |]. split; [exact Hnow2 |]. split; [| split].
    + apply (tracks_later per now now2 history (t0 :: rest) Hnow2 Htr).
    + unfold prune. simpl.
      assert (Hout : in_window per now2 t0 = false).
      { unfold in_window. apply Qltb_false. unfold now2. lra. }
      rewrite Hout.
      pose proof (filter_length_bound (in_window per now2) rest).
      simpl in Efull, Hlen. lia.
    + intros t1 rest1 E _. inversion E; subst. unfold now2. lra.
  - apply Z.leb_gt in Efull. eexists _, _. split; [reflexivity |].
    split; [lra |]. split; [exact Htr |]. split; [lia |].
    intros t0 rest _ Hfull. lia.
Qed.

(** One call of [acquire] on a limiter that tracks the history: it returns,
    not before the clock it started at; the new timestamp has fewer than
    [limit] recorded ones less than [per_seconds] before it; the limiter
    tracks the extended history. *)
Lemma acquire_step (d : Delays) (self : t) (clock : Q) (history : list Q) :
  (1 <= limit self)%Z -> nonneg d ->
  tracks (per_seconds self) clock history (_times self) ->
  (Z.of_nat (length (_times self)) <= limit self)%Z ->
  exists self' stamp,
    acquire d self clock = Ok (self', stamp) /\
    clock <= stamp /\
    limit self' = limit self /\ per_seconds self' = per_seconds self /\
    tracks (per_seconds self) stamp (history ++ [stamp]) (_times self') /\
    (Z.of_nat (length (_times self')) <= limit self)%Z /\
    (Z.of_nat (length (List.filter (in_window (per_seconds self) stamp) history))
     <= limit self - 1)%Z.
Proof.
  intros Hlim Hd Htr Hlen. pose proof Hd as (Hd1 & Hd2 & Hd3 & Hd4).
  unfold acquire. cbv zeta.
  set (per := per_seconds self) in *.
  set (now := clock + before_now d).
  set (times1 := prune per now (_times self)).
  assert (Hnow : clock <= now) by (unfold now; lra).
  destruct (tracks_later per clock now history (_times self) Hnow Htr) as [Htr1 _].
  fold times1 in Htr1.
  assert (Hlen1 : (length times1 <= length (_times self))%nat) by apply filter_length_bound.
  destruct (wait_if_full_step d self now history times1 Hlim Hd Htr1)
    as (times2 & after & Hw & Hafter & Htr2 & Hlen2 & _).
  { intros x Hx. unfold times1, prune in Hx. apply List.filter_In in Hx. tauto. }
  { lia. }
  rewrite Hw. cbn [mbind result_bind].
  set (stamp := after + before_stamp d).
  assert (Hstamp : after <= stamp) by (unfold stamp; lra).
  destruct (tracks_later per after stamp history times2 Hstamp Htr2) as [_ Htr3].
  eexists _, _. split; [reflexivity |]. simpl.
  split; [lra |]. split; [reflexivity |]. split; [reflexivity |]. split; [| split].
  - unfold tracks. rewrite !List.filter_app, Htr3. reflexivity.
  - rewrite length_app. simpl. lia.
  - rewrite Htr3. pose proof (filter_length_bound (in_window per stamp) times2). lia.
Qed.

(** A sequence of calls on a limiter that tracks a spaced history: every call
    returns and the history stays spaced. *)
Lemma acquire_all_spaced (ds : list Delays) :
  forall (self : t) (clock : Q) (history : list Q),
  (1 <= limit self)%Z -> Forall nonneg ds ->
  tracks (per_seconds self) clock history (_times self) ->
  (Z.of_nat (length (_times self)) <= limit self)%Z ->
  spaced (limit self) (per_seconds self) history ->
  exists self' clock' stamps,
    acquire_all ds self clock = Ok (self', clock', stamps) /\
    length stamps = length ds /\
    spaced (limit self) (per_seconds self) (history ++ stamps).
Proof.
  induction ds as [| d ds IH]; intros self clock history Hlim Hnn Htr Hlen Hsp.
  - exists self, clock, []. simpl. rewrite app_nil_r. auto.
  - inversion Hnn as [| ? ? Hd Hds]; subst.
    destruct (acquire_step d self clock history Hlim Hd Htr Hlen)
      as (self1 & stamp & Hacq & _ & Hl & Hp & Htr1 & Hlen1 & Hs).
    destruct (IH self1 stamp (history ++ [stamp])) as (self2 & clock2 & stamps & Hrun & Hn & Hsp2).
    + rewrite Hl. exact Hlim.
    + exact Hds.
    + rewrite Hp. exact Htr1.
    + rewrite Hl. exact Hlen1.
    + rewrite Hl, Hp. apply spaced_snoc; assumption.
    + exists self2, clock2, (stamp :: stamps). simpl. rewrite Hacq. cbn [mbind result_bind].
      rewrite Hrun. cbn [mbind result_bind]. split; [reflexivity |]. split; [simpl; lia |].
      rewrite Hl, Hp in Hsp2. rewrite <- app_assoc in Hsp2. exact Hsp2.
Qed.

(** A call that finds the pruned list full records its timestamp only once
    the oldest retained timestamp [t0] is more than [per_seconds] old. *)
Lemma acquire_waits_for_oldest (d : Delays) (self self' : t) (clock stamp t0 : Q)
    (rest : list Q) :
  nonneg d ->
  acquire d self clock = Ok (self', stamp) ->
  prune (per_seconds self) (clock + before_now d) (_times self) = t0 :: rest ->
  (limit self <= Z.of_nat (length (t0 :: rest)))%Z ->
  t0 + per_seconds self + (5 # 100) <= stamp /\
  in_window (per_seconds self) stamp t0 = false.
Proof.
  intros (Hd1 & Hd2 & Hd3 & Hd4) Hacq Hpr Hfull.
  assert (Hin : clock + before_now d - t0 < per_seconds self).
  { apply Qltb_true. change (in_window (per_seconds self) (clock + before_now d) t0 = true).
    assert (Hm : In t0 (prune (per_seconds self) (clock + before_now d) (_times self)))
      by (rewrite Hpr; left; reflexivity).
    unfold prune in Hm. apply List.filter_In in Hm. tauto. }
  unfold acquire in Hacq. cbv zeta in Hacq. rewrite Hpr in Hacq.
  unfold wait_if_full in Hacq. apply Z.leb_le in Hfull. rewrite Hfull in Hacq.
  change (py_index (t0 :: rest) 0) with (Ok (A := Q) t0) in Hacq.
  cbn [mbind result_bind] in Hacq. cbv zeta in Hacq.
  assert (Hsl : Qltb 0 (per_seconds self - (clock + before_now d - t0) + (5 # 100)) = true)
    by (apply Qltb_true; lra).
  rewrite Hsl in Hacq. cbn [mbind result_bind mret result_ret] in Hacq.
  inversion Hacq; subst; clear Hacq.
  assert (Hle : t0 + per_seconds self + (5 # 100)
                <= clock + before_now d
                   + (per_seconds self - (clock + before_now d - t0) + (5 # 100))
                   + oversleep d + before_renow d + before_stamp d) by lra.
  split; [exact Hle |]. unfold in_window. apply Qltb_false. lra.
Qed.

End RateLimiterProperties.

(** The test of the specification: with two calls a second, three calls made
    back to back at time 0 are recorded at 0, 0 and 1.05; the third call
    takes more than a second. *)
Example three_calls_back_to_back :
  match RateLimiter.acquire_all
          [ RateLimiter.mkDelays 0 0 0 0; RateLimiter.mkDelays 0 0 0 0;
            RateLimiter.mkDelays 0 0 0 0 ]
          (RateLimiter.init 2 1) 0 with
  | Ok (_, clock, stamps) => Forall2 Qeq stamps [ 0; 0; 105 # 100 ]%Q /\ (clock == 105 # 100)%Q
  | Raise _ => False
  end.
Proof. vm_compute. repeat constructor. Qed.

(** A limiter with no room raises on its first call: the list is empty when
    [acquire] reads its first element. *)
Example acquire_limit_zero :
  RateLimiter.acquire (RateLimiter.mkDelays 0 0 0 0) (RateLimiter.init 0 1) 0
  = Raise (IndexError "list index out of range").
Proof. reflexivity. Qed.

(** The limiter in exact arithmetic: calls of [acquire] made one after the
    other on a fresh limiter with [limit >= 1], on a clock that does not run
    backwards, all return, and at most [limit] of the recorded timestamps lie
    in any window [(T - per_seconds, T]].  A call that finds [limit]
    timestamps inside the window records its own only once the oldest of
    them is more than [per_seconds] old. *)
Theorem acquire_rolling_window (limit : Z) (per : Q) (ds : list RateLimiter.Delays)
    (clock0 : Q) :
  (1 <= limit)%Z -> Forall RateLimiter.nonneg ds ->
  (exists self clock stamps,
     RateLimiter.acquire_all ds (RateLimiter.init limit per) clock0
       = Ok (self, clock, stamps) /\
     length stamps = length ds /\
     forall T, (Z.of_nat (RateLimiter.calls_in_window per T stamps) <= limit)%Z) /\
  (forall d self clock self' stamp t0 rest,
     RateLimiter.nonneg d ->
     RateLimiter.acquire d self clock = Ok (self', stamp) ->
     RateLimiter.prune (RateLimiter.per_seconds self)
       (clock + RateLimiter.before_now d)%Q (RateLimiter._times self) = t0 :: rest ->
     (RateLimiter.limit self <= Z.of_nat (length (t0 :: rest)))%Z ->
     (t0 + RateLimiter.per_seconds self + (5 # 100) <= stamp)%Q /\
     RateLimiter.in_window (RateLimiter.per_seconds self) stamp t0 = false).
Proof.
  intros Hlim Hds. split.
  - destruct (acquire_all_spaced ds (RateLimiter.init limit per) clock0 [])
      as (self & clock & stamps & Hrun & Hlen & Hsp); simpl; try assumption; try lia.
    + reflexivity.
    + intros i s Hi. inversion Hi.
    + exists self, clock, stamps. split; [exact Hrun |]. split; [exact Hlen |].
      intros T. apply spaced_window; [lia | exact Hsp].
  - intros. eapply acquire_waits_for_oldest; eassumption.
Qed.

Lemma acquire_rolling_window_witness :
  (exists self clock stamps,
     RateLimiter.acquire_all
       [ RateLimiter.mkDelays 0 0 0 0; RateLimiter.mkDelays 0 0 0 0;
         RateLimiter.mkDelays 0 0 0 0 ]
       (RateLimiter.init 2 1) 0
       = Ok (self, clock, stamps) /\
     length stamps = 3%nat /\
     forall T, (Z.of_nat (RateLimiter.calls_in_window 1 T stamps) <= 2)%Z) /\
  (forall d self clock self' stamp t0 rest,
     RateLimiter.nonneg d ->
     RateLimiter.acquire d self clock = Ok (self', stamp) ->
     RateLimiter.prune (RateLimiter.per_seconds self)
       (clock + RateLimiter.before_now d)%Q (RateLimiter._times self) = t0 :: rest ->
     (RateLimiter.limit self <= Z.of_nat (length (t0 :: rest)))%Z ->
     (t0 + RateLimiter.per_seconds self + (5 # 100) <= stamp)%Q /\
     RateLimiter.in_window (RateLimiter.per_seconds self) stamp t0 = false).
Proof.
  apply (acquire_rolling_window 2 1
           [ RateLimiter.mkDelays 0 0 0 0; RateLimiter.mkDelays 0 0 0 0;
             RateLimiter.mkDelays 0 0 0 0 ] 0).
  - lia.
  - repeat constructor; vm_compute; discriminate.
Defined.
(** ** The limiter as the interpreter runs it *)

(** A limiter that waits: with one call allowed a minute, the second call
    comes thirty seconds after the first, sleeps for the thirty seconds that
    are left and the margin, and finds the first timestamp out of the
    window when it wakes. *)
Example acquire_waits_for_the_minute :
  RateLimiter64.acquire_all
    [ RateLimiter64.mkReadings 1700000000 1700000000 1700000000;
      RateLimiter64.mkReadings 1700000030 1700000060.0625 1700000060.0625 ]
    (RateLimiter64.init 1 60)
  = Ok (RateLimiter64.mk 1 60 [ 1700000060.0625%float ],
        [ 1700000000%float; 1700000060.0625%float ],
        [ None; Some (60 - 30 + RateLimiter64.margin)%float ]).
Proof. vm_compute. reflexivity. Qed.

(** [time.time()] is the wall clock: when it is set back twenty seconds
    while [acquire] sleeps, the call wakes, finds the first timestamp still
    in the window and records its own all the same. *)
Example acquire_after_clock_set_back :
  RateLimiter64.acquire_all
    [ RateLimiter64.mkReadings 1700000000 1700000000 1700000000;
      RateLimiter64.mkReadings 1700000030 1700000040.0625 1700000040.0625 ]
    (RateLimiter64.init 1 60)
  = Ok (RateLimiter64.mk 1 60 [ 1700000000%float; 1700000040.0625%float ],
        [ 1700000000%float; 1700000040.0625%float ],
        [ None; Some (60 - 30 + RateLimiter64.margin)%float ])
  /\ RateLimiter64.calls_in_window 60 1700000041
       [ 1700000000%float; 1700000040.0625%float ] = 2%nat.
Proof. split; vm_compute; reflexivity. Qed.

(** Without room for a call, [acquire] reads the first element of an empty
    list. *)
Example acquire64_limit_zero :
  RateLimiter64.acquire (RateLimiter64.mkReadings 1700000000 1700000000 1700000000)
    (RateLimiter64.init 0 60)
  = Raise (IndexError "list index out of range").
Proof. reflexivity. Qed.


(** ** The monthly dataset builder *)

Lemma traverse_Ok {A B} (f : A -> result B) (l : list A) (ys : list B) :
  traverse f l = Ok ys -> Forall2 (fun x y => f x = Ok y) l ys.
Proof.
  revert ys. induction l as [| x l IH]; intros ys H; simpl in H.
  - inversion H. constructor.
  - apply bind_Ok in H as (y & Hy & H). apply bind_Ok in H as (ys' & Hys & H).
    inversion H; subst. constructor; [exact Hy | apply IH, Hys].
Qed.

Lemma traverse_returns {A B} (f : A -> result B) (l : list A) :
  (forall x, x ∈ l -> exists y, f x = Ok y) -> exists ys, traverse f l = Ok ys.
Proof.
  induction l as [| x l IH]; intros Hf; simpl; [eexists; reflexivity |].
  destruct (Hf x) as (y & ->); [left |]. cbn [mbind result_bind].
  destruct IH as (ys & ->); [intros z Hz; apply Hf; right; exact Hz |].
  eexists; reflexivity.
Qed.

(** The prices of a month, case by case; the division never meets a zero. *)
Lemma month_prices_USD (px : float) (fx : option float) :
  month_prices "USD" px fx
  = Ok (px, match fx with
            | Some f => if is_nan px then nan else (px * f)%float
            | None => nan
            end).
Proof. unfold month_prices. simpl. destruct fx; [destruct (is_nan px) |]; reflexivity. Qed.

Lemma month_prices_other (ccy : string) (px : float) (fx : option float) :
  ccy <> "USD" ->
  month_prices ccy px fx
  = Ok (match fx with
        | Some f => if is_zero f || is_nan px then nan else (px / f)%float
        | None => nan
        end, px).
Proof.
  intros Hne. unfold month_prices. destruct (decide (ccy = "USD")); [contradiction |].
  destruct fx as [f |]; simpl; [| reflexivity]. unfold py_div.
  destruct (is_zero f), (is_nan px); reflexivity.
Qed.

Lemma month_prices_returns (ccy : string) (px : float) (fx : option float) :
  exists p, month_prices ccy px fx = Ok p.
Proof.
  destruct (decide (ccy = "USD")) as [-> | Hne].
  - rewrite month_prices_USD. eauto.
  - rewrite (month_prices_other _ _ _ Hne). eauto.
Qed.

Lemma values_of_lookup (sh : float) (prices : list float) (i : nat) (p : float) :
  prices !! i = Some p ->
  values_of sh prices !! i = Some (if is_nan p then nan else (p * sh)%float).
Proof.
  intros H. unfold values_of. rewrite list_lookup_fmap, H. simpl.
  destruct (is_nan p); reflexivity.
Qed.

(** The row that the builder makes for a holding, month by month. *)
Lemma monthly_row_Ok yf months labels fx_map h r :
  monthly_row yf months labels fx_map h = Ok r ->
  exists ser sh,
    get_monthly_series yf (h_symbol h) months = Ok ser /\
    int_round (h_shares h) = Ok sh /\
    d_symbol r = h_symbol h /\ d_shares r = sh /\ d_currency r = holding_ccy h /\
    length (d_usd_price r) = length labels /\ length (d_usd_value r) = length labels /\
    length (d_jpy_price r) = length labels /\ length (d_jpy_value r) = length labels /\
    forall i lbl, labels !! i = Some lbl ->
      exists up jp,
        month_prices (holding_ccy h) (default nan (dict_of_pairs ser !! lbl)) (fx_map !! lbl)
          = Ok (up, jp) /\
        d_usd_price r !! i = Some up /\ d_jpy_price r !! i = Some jp /\
        d_usd_value r !! i = Some (if is_nan up then nan else (up * h_shares h)%float) /\
        d_jpy_value r !! i = Some (if is_nan jp then nan else (jp * h_shares h)%float).
Proof.
  unfold monthly_row. intros H.
  apply bind_Ok in H as (ser & Hser & H).
  apply bind_Ok in H as (both & Hboth & H).
  apply bind_Ok in H as (sh & Hsh & H).
  inversion H; subst; clear H. simpl.
  apply traverse_Ok in Hboth.
  assert (Hlen : length both = length labels).
  { apply Forall2_length in Hboth. rewrite <- Hboth, length_zip_with.
    unfold align. rewrite length_fmap. lia. }
  exists ser, sh. repeat split; try assumption;
    try (unfold values_of; rewrite !length_fmap; exact Hlen);
    try (rewrite length_fmap; exact Hlen).
  intros i lbl Hi.
  assert (Hz : zip labels (align labels ser) !! i
               = Some (lbl, default nan (dict_of_pairs ser !! lbl))).
  { apply lookup_zip_Some. split; [exact Hi |]. unfold align.
    rewrite list_lookup_fmap, Hi. simpl. destruct (dict_of_pairs ser !! lbl); reflexivity. }
  destruct (Forall2_lookup_l _ _ _ _ _ Hboth Hz) as ([up jp] & Hb & Hmp).
  exists up, jp. split; [exact Hmp |].
  assert (Hup : (both.*1) !! i = Some up) by (rewrite list_lookup_fmap, Hb; reflexivity).
  assert (Hjp : (both.*2) !! i = Some jp) by (rewrite list_lookup_fmap, Hb; reflexivity).
  split; [exact Hup |]. split; [exact Hjp |].
  split; apply values_of_lookup; assumption.
Qed.

Lemma monthly_row_returns yf months labels fx_map h :
  (exists ser, get_monthly_series yf (h_symbol h) months = Ok ser) ->
  (exists sh, int_round (h_shares h) = Ok sh) ->
  exists r, monthly_row yf months labels fx_map h = Ok r.
Proof.
  intros (ser & Hser) (sh & Hsh). unfold monthly_row. rewrite Hser. cbn [mbind result_bind].
  destruct (traverse_returns
              (fun '(lbl, px) => month_prices (holding_ccy h) px (fx_map !! lbl))
              (zip labels (align labels ser))) as (both & ->).
  { intros [lbl px] _. apply month_prices_returns. }
  cbn [mbind result_bind]. rewrite Hsh. eexists; reflexivity.
Qed.

Lemma dict_of_pairs_snoc {V} (pairs : list (string * V)) (kv : string * V) :
  dict_of_pairs (pairs ++ [kv]) = <[kv.1 := kv.2]> (dict_of_pairs pairs).
Proof. unfold dict_of_pairs. rewrite foldl_app. reflexivity. Qed.

(** Every label of a series has a value in the series' dictionary. *)
Lemma dict_of_pairs_label {V} (pairs : list (string * V)) (k : string) :
  k ∈ pairs.*1 -> is_Some (dict_of_pairs pairs !! k).
Proof.
  induction pairs as [| kv pairs IH] using rev_ind; [intros H; inversion H |].
  rewrite fmap_app, elem_of_app, dict_of_pairs_snoc. intros [H | H].
  - destruct (decide (kv.1 = k)) as [-> | Hne].
    + rewrite lookup_insert_eq. eauto.
    + rewrite lookup_insert_ne by exact Hne. apply IH, H.
  - apply list_elem_of_singleton in H. subst k. rewrite lookup_insert_eq. eauto.
Qed.

Example two_month_build :
  build_monthly_dataset (YFinanceProvider two_month_yfinance) scenario_holdings 12
  = Ok (Some two_month_dataset).
Proof. vm_compute. reflexivity. Qed.

(** The builder returns a dataset when the provider answers the series calls
    and every share count is a finite number. *)
Lemma build_monthly_dataset_returns yf holdings months :
  (forall sym, exists ser, get_monthly_series yf sym months = Ok ser) ->
  (forall h, h ∈ holdings -> exists sh, int_round (h_shares h) = Ok sh) ->
  exists ds, build_monthly_dataset (YFinanceProvider yf) holdings months = Ok (Some ds).
Proof.
  intros Hser Hsh. unfold build_monthly_dataset.
  destruct (Hser "USDJPY=X") as (fx_pairs & ->). cbn [mbind result_bind].
  destruct (traverse_returns
              (monthly_row yf months (fx_pairs.*1) (dict_of_pairs fx_pairs)) holdings)
    as (rows & ->).
  { intros h Hh. apply monthly_row_returns; [apply Hser | apply Hsh, Hh]. }
  eexists; reflexivity.
Qed.

(** C7: in a dataset built from a provider with monthly series, there is one
    row per holding and each of its four series has one entry per month
    label, as has the FX series.  At a month for which the holding's series
    has no observation all four entries are NaN.  The converted entries of a
    month (the JPY price and value of a USD holding, the USD price and value
    of any other) are computed from that month's price and FX value alone,
    and are numbers only when the holding's series has a price that is a
    number for the month and the FX series a value that is a number (for a
    division, not zero either). *)
Theorem build_monthly_dataset_aligned yf holdings months ds :
  build_monthly_dataset (YFinanceProvider yf) holdings months = Ok (Some ds) ->
  length (ds_rows ds) = length holdings /\
  length (ds_fx ds) = length (ds_months ds) /\
  forall k h, holdings !! k = Some h ->
    exists r ser,
      ds_rows ds !! k = Some r /\
      get_monthly_series yf (h_symbol h) months = Ok ser /\
      length (d_usd_price r) = length (ds_months ds) /\
      length (d_usd_value r) = length (ds_months ds) /\
      length (d_jpy_price r) = length (ds_months ds) /\
      length (d_jpy_value r) = length (ds_months ds) /\
      forall i lbl, ds_months ds !! i = Some lbl ->
        exists up uv jp jv fx,
          d_usd_price r !! i = Some up /\ d_usd_value r !! i = Some uv /\
          d_jpy_price r !! i = Some jp /\ d_jpy_value r !! i = Some jv /\
          ds_fx ds !! i = Some fx /\
          (dict_of_pairs ser !! lbl = None ->
             is_nan up = true /\ is_nan uv = true /\
             is_nan jp = true /\ is_nan jv = true) /\
          (upper (str_or (h_currency h) "USD") = "USD" ->
             jp = match fx with
                  | Some f => if is_nan up then nan else (up * f)%float
                  | None => nan
                  end /\
             jv = (if is_nan jp then nan else (jp * h_shares h)%float) /\
             (is_nan jp = false \/ is_nan jv = false ->
                (exists p, dict_of_pairs ser !! lbl = Some p /\ is_nan p = false /\ up = p) /\
                (exists f, fx = Some f /\ is_nan f = false))) /\
          (upper (str_or (h_currency h) "USD") <> "USD" ->
             up = match fx with
                  | Some f => if is_zero f || is_nan jp then nan else (jp / f)%float
                  | None => nan
                  end /\
             uv = (if is_nan up then nan else (up * h_shares h)%float) /\
             (is_nan up = false \/ is_nan uv = false ->
                (exists p, dict_of_pairs ser !! lbl = Some p /\ is_nan p = false /\ jp = p) /\
                (exists f, fx = Some f /\ is_nan f = false /\ is_zero f = false))).
Proof.
  unfold build_monthly_dataset. intros H.
  apply bind_Ok in H as (fx_pairs & Hfx & H).
  apply bind_Ok in H as (rows & Hrows & H).
  inversion H; subst; clear H. simpl.
  apply traverse_Ok in Hrows.
  split; [symmetry; eapply Forall2_length, Hrows |].
  split; [rewrite !length_fmap; reflexivity |].
  intros k h Hk. fold (holding_ccy h).
  destruct (Forall2_lookup_l _ _ _ _ _ Hrows Hk) as (r & Hr & Hrow).
  apply monthly_row_Ok in Hrow
    as (ser & sh & Hser & _ & _ & _ & _ & L1 & L2 & L3 & L4 & Hmonths).
  exists r, ser. rewrite L1, L2, L3, L4. repeat (split; [first [assumption | reflexivity] |]).
  intros i lbl Hi.
  destruct (Hmonths i lbl Hi) as (up & jp & Hmp & Hup & Hjp & Huv & Hjv).
  exists up, (if is_nan up then nan else (up * h_shares h)%float),
         jp, (if is_nan jp then nan else (jp * h_shares h)%float),
         (dict_of_pairs fx_pairs !! lbl).
  repeat (split; [first [assumption | reflexivity] |]).
  split; [rewrite list_lookup_fmap, Hi; reflexivity |].
  set (fx := dict_of_pairs fx_pairs !! lbl) in *.
  destruct (decide (holding_ccy h = "USD")) as [Hc | Hc].
  - rewrite Hc, month_prices_USD in Hmp. injection Hmp as Hup' Hjp'.
    split; [| split; [| intros; contradiction]].
    + intros Hnone. rewrite Hnone in Hup', Hjp'. simpl in Hup', Hjp'.
      subst up. assert (jp = nan) as -> by (destruct fx; subst jp; reflexivity).
      auto.
    + intros _. split; [| split; [reflexivity |]].
      * rewrite <- Hjp', Hup'. reflexivity.
      * intros Hnum.
        assert (Hjn : is_nan jp = false).
        { destruct Hnum as [Hn | Hn]; [exact Hn |]. destruct (is_nan jp); [discriminate | reflexivity]. }
        destruct (dict_of_pairs ser !! lbl) as [p |] eqn:Ep; simpl in Hup', Hjp'.
        -- destruct fx as [f |]; [| subst jp; discriminate].
           destruct (is_nan p) eqn:Enp; [subst jp; discriminate |].
           split; [exists p; auto |]. exists f. split; [reflexivity |].
           destruct (is_nan f) eqn:Enf; [| reflexivity].
           apply is_nan_eq in Enf. subst f. rewrite mul_nan_r in Hjp'. subst jp. discriminate.
        -- destruct fx; subst jp; discriminate.
  - rewrite (month_prices_other _ _ _ Hc) in Hmp. injection Hmp as Hup' Hjp'.
    split; [| split; [intros; contradiction |]].
    + intros Hnone. rewrite Hnone in Hup', Hjp'. simpl in Hup', Hjp'.
      subst jp. assert (up = nan) as ->.
      { destruct fx as [f |]; subst up; [| reflexivity]. rewrite orb_true_r. reflexivity. }
      auto.
    + intros _. split; [| split; [reflexivity |]].
      * rewrite <- Hup', Hjp'. reflexivity.
      * intros Hnum.
        assert (Hun : is_nan up = false).
        { destruct Hnum as [Hn | Hn]; [exact Hn |]. destruct (is_nan up); [discriminate | reflexivity]. }
        destruct (dict_of_pairs ser !! lbl) as [p |] eqn:Ep; simpl in Hup', Hjp'.
        -- destruct fx as [f |]; [| subst up; discriminate].
           destruct (is_zero f) eqn:Ezf; [subst up; discriminate |].
           destruct (is_nan p) eqn:Enp; [subst up; discriminate |]. simpl in Hup'.
           split; [exists p; auto |]. exists f. split; [reflexivity |]. split; [| exact Ezf].
           destruct (is_nan f) eqn:Enf; [| reflexivity].
           apply is_nan_eq in Enf. subst f. rewrite div_nan_r in Hup'. subst up. discriminate.
        -- destruct fx as [f |]; subst up; [| discriminate].
           rewrite orb_true_r in Hun. discriminate.
Qed.

Lemma build_monthly_dataset_aligned_witness :
  length (ds_rows two_month_dataset) = length scenario_holdings /\
  length (ds_fx two_month_dataset) = length (ds_months two_month_dataset) /\
  exists r ser,
    ds_rows two_month_dataset !! 0%nat = Some r /\
    get_monthly_series two_month_yfinance "AAPL" 12 = Ok ser /\
    length (d_jpy_value r) = length (ds_months two_month_dataset).
Proof.
  destruct (build_monthly_dataset_aligned two_month_yfinance scenario_holdings 12
              two_month_dataset ltac:(vm_compute; reflexivity)) as (H1 & H2 & H3).
  split; [exact H1 |]. split; [exact H2 |].
  destruct (H3 0%nat (mkHolding "AAPL" 10 (Some "USD")) eq_refl)
    as (r & ser & Hr & Hser & _ & _ & _ & Hlen & _).
  exists r, ser. auto.
Defined.

(** ** Decimal digits, written and read back *)

Lemma digit_of_digit_char (d : Z) :
  0 <= d <= 9 -> digit_of_char (digit_char d) = Some d.
Proof.
  intros H.
  assert (d = 0 \/ d = 1 \/ d = 2 \/ d = 3 \/ d = 4 \/ d = 5 \/ d = 6 \/ d = 7 \/ d = 8 \/ d = 9)
    as Hd by lia.
  repeat (destruct Hd as [-> | Hd]; [reflexivity |]). subst d. reflexivity.
Qed.

Lemma string_app_cons (c : ascii) (a b : string) : String c a +:+ b = String c (a +:+ b).
Proof. reflexivity. Qed.

Lemma string_app_nil (b : string) : "" +:+ b = b.
Proof. reflexivity. Qed.

Lemma string_app_assoc (a b c : string) : (a +:+ b) +:+ c = a +:+ (b +:+ c).
Proof.
  induction a as [| x a IH]; [reflexivity |]. rewrite !string_app_cons, IH. reflexivity.
Qed.

Lemma string_app_length (a b : string) :
  String.length (a +:+ b) = (String.length a + String.length b)%nat.
Proof.
  induction a as [| x a IH]; [reflexivity |]. rewrite string_app_cons. simpl.
  rewrite IH. reflexivity.
Qed.

Lemma read_digits_app (acc : Z) (s u : string) :
  read_digits acc (s +:+ u)
  = match read_digits acc s with
    | Some a => read_digits a u
    | None => None
    end.
Proof.
  revert acc. induction s as [| c s IH]; intros acc; [reflexivity |].
  rewrite string_app_cons. simpl. destruct (digit_of_char c); [apply IH | reflexivity].
Qed.

Lemma fixed_digits_length (w : nat) (n : Z) : String.length (fixed_digits w n) = w.
Proof.
  revert n. induction w as [| w IH]; intros n; simpl; [reflexivity |].
  rewrite string_app_length, IH. simpl. lia.
Qed.

(** Reading [w] fixed digits of [n] after [acc] appends [n mod 10^w]. *)
Lemma read_fixed_digits (w : nat) (n acc : Z) :
  read_digits acc (fixed_digits w n) = Some (acc * 10 ^ Z.of_nat w + n mod 10 ^ Z.of_nat w).
Proof.
  revert n acc. induction w as [| w IH]; intros n acc.
  - simpl. rewrite Z.mod_1_r. f_equal. lia.
  - cbn [fixed_digits]. rewrite read_digits_app, IH. simpl.
    rewrite digit_of_digit_char by (pose proof (Z.mod_pos_bound n 10); lia).
    f_equal. rewrite Nat2Z.inj_succ, Z.pow_succ_r by lia.
    rewrite (Z.rem_mul_r n 10 (10 ^ Z.of_nat w)) by lia. lia.
Qed.

(** [count_digits] counts enough digits when the fuel suffices. *)
Lemma count_digits_bound (fuel : nat) (n : Z) :
  0 <= n < 10 * 2 ^ Z.of_nat fuel -> n < 10 ^ Z.of_nat (count_digits fuel n).
Proof.
  revert n. induction fuel as [| fuel IH]; intros n Hn.
  - simpl in *. lia.
  - cbn [count_digits]. destruct (n <? 10) eqn:E.
    + apply Z.ltb_lt in E. simpl. lia.
    + apply Z.ltb_ge in E. rewrite Nat2Z.inj_succ, Z.pow_succ_r in * by lia.
      assert (Hq : n / 10 < 10 ^ Z.of_nat (count_digits fuel (n / 10))).
      { apply IH. split; [apply Z.div_pos; lia |].
        apply Z.div_lt_upper_bound; [lia |].
        assert (0 < 2 ^ Z.of_nat fuel) by (apply Z.pow_pos_nonneg; lia). lia. }
      pose proof (Z.div_mod n 10 ltac:(lia)). pose proof (Z.mod_pos_bound n 10 ltac:(lia)).
      lia.
Qed.

Lemma digits_of_Z_bound (n : Z) :
  0 <= n -> n < 10 ^ Z.of_nat (count_digits (Z.to_nat (Z.log2 n)) n).
Proof.
  intros Hn. apply count_digits_bound. split; [exact Hn |].
  rewrite Z2Nat.id by apply Z.log2_nonneg.
  destruct (Z.eq_dec n 0) as [-> | Hne]; [simpl; lia |].
  pose proof (Z.log2_spec n ltac:(lia)) as [_ Hup].
  rewrite Z.pow_succ_r in Hup by apply Z.log2_nonneg. lia.
Qed.

Lemma read_digits_of_Z (n : Z) : 0 <= n -> read_digits 0 (digits_of_Z n) = Some n.
Proof.
  intros Hn. unfold digits_of_Z. rewrite read_fixed_digits. f_equal.
  rewrite Z.mod_small by (split; [exact Hn | apply digits_of_Z_bound, Hn]). lia.
Qed.

Lemma all_digits_app (a b : string) :
  all_digits (a +:+ b) = all_digits a && all_digits b.
Proof.
  induction a as [| c a IH]; [reflexivity |]. rewrite string_app_cons. simpl.
  rewrite IH, andb_assoc. reflexivity.
Qed.

Lemma all_digits_fixed (w : nat) (n : Z) : all_digits (fixed_digits w n) = true.
Proof.
  revert n. induction w as [| w IH]; intros n; simpl; [reflexivity |].
  rewrite all_digits_app, IH. simpl.
  rewrite digit_of_digit_char by (pose proof (Z.mod_pos_bound n 10); lia). reflexivity.
Qed.

Lemma count_digits_pos (fuel : nat) (n : Z) : (1 <= count_digits fuel n)%nat.
Proof. destruct fuel; simpl; [lia |]. destruct (n <? 10); lia. Qed.

(** A digit is neither a point nor a minus sign. *)
Lemma digit_not_point (c : ascii) :
  is_Some (digit_of_char c) -> Ascii.eqb c "." = false /\ Ascii.eqb c "-" = false.
Proof.
  intros [d Hd]. split; apply Ascii.eqb_neq; intros ->; discriminate.
Qed.

Lemma split_point_digits (s u : string) :
  all_digits s = true -> split_point (s +:+ String "." u) = (s, Some u).
Proof.
  induction s as [| c s IH]; [reflexivity |]. rewrite string_app_cons. simpl.
  intros H. apply andb_true_iff in H as [Hc Hs]. apply bool_decide_eq_true in Hc.
  destruct (digit_not_point c Hc) as [-> _]. rewrite (IH Hs). reflexivity.
Qed.

Lemma read_unsigned_units (prec : nat) (units : Z) :
  0 <= units ->
  read_unsigned (format_units false (S prec) units)
  = Some (Qmake units (Z.to_pos (10 ^ Z.of_nat (S prec)))).
Proof.
  intros Hu. unfold format_units. cbn match.
  set (scale := 10 ^ Z.of_nat (S prec)).
  assert (Hscale : 0 < scale) by (apply Z.pow_pos_nonneg; lia).
  set (ip := digits_of_Z (units / scale)).
  set (fp := fixed_digits (S prec) (units mod scale)).
  assert (Hip : all_digits ip = true) by apply all_digits_fixed.
  assert (Hipl : String.eqb ip "" = false).
  { assert (1 <= String.length ip)%nat
      by (unfold ip, digits_of_Z; rewrite fixed_digits_length; apply count_digits_pos).
    destruct ip; [simpl in *; lia | reflexivity]. }
  assert (Hfpl : String.eqb fp "" = false).
  { assert (String.length fp = S prec) by apply fixed_digits_length.
    destruct fp; [discriminate | reflexivity]. }
  unfold read_unsigned.
  change (ip +:+ "." +:+ fp) with (ip +:+ String "." fp).
  rewrite (split_point_digits ip fp Hip), Hipl, Hfpl. cbn [orb].
  unfold ip at 1. rewrite read_digits_of_Z by (apply Z.div_pos; lia).
  unfold fp at 1. rewrite read_fixed_digits. unfold fp. rewrite fixed_digits_length.
  fold scale. rewrite Z.mul_0_l, Z.add_0_l, Z.mod_mod by lia.
  do 2 f_equal. pose proof (Z.div_mod units scale ltac:(lia)). lia.
Qed.

(** The first character of a number of units in fixed notation is a digit. *)
Lemma format_units_head (commas : bool) (prec : nat) (units : Z) :
  exists c rest, format_units false prec units = String c rest /\ Ascii.eqb c "-" = false.
Proof.
  unfold format_units. cbn match.
  set (ip := digits_of_Z _).
  assert (Hip : all_digits ip = true) by apply all_digits_fixed.
  assert (1 <= String.length ip)%nat
    by (unfold ip, digits_of_Z; rewrite fixed_digits_length; apply count_digits_pos).
  destruct ip as [| c ip']; [simpl in *; lia |].
  simpl in Hip. apply andb_true_iff in Hip as [Hc _]. apply bool_decide_eq_true in Hc.
  exists c. eexists. rewrite string_app_cons. split; [reflexivity |].
  apply (digit_not_point c Hc).
Qed.

(** A field in fixed notation with at least one decimal reads as the number
    of units it was written from, with its sign. *)
Lemma read_fixed_units (prec : nat) (units : Z) (negative : bool) :
  0 <= units ->
  read_fixed ((if negative then "-" else "") +:+ format_units false (S prec) units)
  = Some (let q := Qmake units (Z.to_pos (10 ^ Z.of_nat (S prec))) in
          if negative then Qopp q else q).
Proof.
  intros Hu. destruct negative.
  - change ("-" +:+ format_units false (S prec) units)
      with (String "-" (format_units false (S prec) units)).
    unfold read_fixed. cbn [Ascii.eqb Bool.eqb]. cbv iota.
    rewrite read_unsigned_units by exact Hu. reflexivity.
  - rewrite string_app_nil.
    destruct (format_units_head false (S prec) units) as (c & rest & E & Hc).
    pose proof (read_unsigned_units prec units Hu) as Hr. rewrite E in *.
    unfold read_fixed. rewrite Hc. exact Hr.
Qed.

(** ** Rounding *)

(** [round_half_even n d] is a nearest integer to [n / d], the even one of
    two that are equally near. *)
Lemma round_half_even_nearest (n d : Z) :
  0 <= n -> 0 < d ->
  let r := round_half_even n d in
  0 <= r /\ 2 * Z.abs (r * d - n) <= d /\ (2 * Z.abs (r * d - n) = d -> Z.even r = true).
Proof.
  intros Hn Hd. unfold round_half_even. cbv zeta.
  pose proof (Z.div_mod n d ltac:(lia)) as Hdm.
  pose proof (Z.mod_pos_bound n d Hd) as Hm.
  assert (Hq : 0 <= n / d) by (apply Z.div_pos; lia).
  set (q := n / d) in *. set (m := n mod d) in *. clearbody q m.
  assert (Hlow : Z.abs (q * d - n) = m).
  { replace (q * d - n) with (- m) by lia. rewrite Z.abs_opp. apply Z.abs_eq. lia. }
  assert (Hhigh : Z.abs ((q + 1) * d - n) = d - m).
  { replace ((q + 1) * d - n) with (d - m) by lia. apply Z.abs_eq. lia. }
  destruct (Z.compare_spec (2 * m) d) as [E | E | E].
  - destruct (Z.even q) eqn:Ev.
    + rewrite Hlow. split; [lia |]. split; [lia | auto].
    + rewrite Hhigh. split; [lia |]. split; [lia |]. intros _.
      rewrite Z.even_add, Ev. reflexivity.
  - rewrite Hlow. split; [lia |]. split; [lia | intros; exfalso; lia].
  - rewrite Hhigh. split; [lia |]. split; [lia | intros; exfalso; lia].
Qed.

Lemma scaled_magnitude_nonneg (scale : Z) (m : positive) (e : Z) :
  0 <= scale -> 0 <= scaled_magnitude scale m e.
Proof.
  intros Hs. unfold scaled_magnitude. destruct e as [| p | p].
  - lia.
  - assert (0 < 2 ^ Z.pos p) by (apply Z.pow_pos_nonneg; lia). nia.
  - apply round_half_even_nearest; [lia | apply Z.pow_pos_nonneg; lia].
Qed.

(** A float written with at least one decimal reads back as the float
    rounded to that many decimals; what is written for a NaN or an infinity
    reads as no number. *)
Lemma read_format_fixed (prec : nat) (x : float) :
  read_fixed (format_fixed false (S prec) x) = rounded_to (S prec) x.
Proof.
  unfold format_fixed, rounded_to. destruct (Prim2SF x) as [s | s | | s m e].
  - rewrite (read_fixed_units prec 0 s) by lia. destruct s; reflexivity.
  - destruct s; reflexivity.
  - reflexivity.
  - rewrite (read_fixed_units prec _ s); [reflexivity |].
    apply scaled_magnitude_nonneg. apply Z.pow_nonneg. lia.
Qed.

(** The float rounded to [prec] decimals is within half a unit of the last
    decimal of the float's exact value. *)
Lemma rounded_to_close (prec : nat) (x : float) (q v : Q) :
  rounded_to prec x = Some q -> exact_value x = Some v ->
  (Qabs (q - v) <= 1 # (2 * Z.to_pos (10 ^ Z.of_nat prec)))%Q.
Proof.
  unfold rounded_to, exact_value.
  set (scale := 10 ^ Z.of_nat prec).
  assert (Hscale : 0 < scale) by (apply Z.pow_pos_nonneg; lia).
  destruct (Z.to_pos scale) as [] eqn:Epos; pose proof (Z2Pos.id scale Hscale) as Hid;
    rewrite Epos in Hid.
  all: destruct (Prim2SF x) as [s | s | | s m e]; try discriminate.
  all: intros Hq Hv; inversion Hq; subst q; inversion Hv; subst v; clear Hq Hv.
  all: apply Qabs_Qle_condition.
  all: try (unfold Qle, Qminus, Qplus, Qopp; simpl; lia).
  all: unfold scaled_magnitude; destruct e as [| pe | pe].
  all: try (destruct s; unfold Qle, Qminus, Qplus, Qopp, inject_Z; simpl;
            rewrite ?Pos2Z.inj_mul, ?Pos2Z.inj_pow; nia).
  all: pose proof (round_half_even_nearest (Z.pos m * scale) (2 ^ Z.pos pe) ltac:(lia)
                     ltac:(apply Z.pow_pos_nonneg; lia)) as (H0 & Hnear & _).
  all: set (r := round_half_even (Z.pos m * scale) (2 ^ Z.pos pe)) in *.
  all: assert (Hd : 0 < 2 ^ Z.pos pe) by (apply Z.pow_pos_nonneg; lia).
  all: destruct s; unfold Qle, Qminus, Qplus, Qopp; simpl;
       rewrite ?Pos2Z.inj_mul, ?Pos2Z.inj_pow; nia.
Qed.

(** ** The CSV serializer *)

Lemma month_lines_length {A B C} (g : nat -> A -> B -> C) (months : list A) (rows : list B) :
  length (mjoin (imap (fun i m => g i m <$> rows) months))
  = (length months * length rows)%nat.
Proof.
  revert g. induction months as [| m months IH]; intros g; [reflexivity |].
  simpl. rewrite length_app, length_fmap. f_equal. apply (IH (fun i => g (S i))).
Qed.

Lemma month_lines_lookup {A B C} (g : nat -> A -> B -> C) (months : list A) (rows : list B)
    (i k : nat) (m : A) (r : B) :
  months !! i = Some m -> rows !! k = Some r ->
  mjoin (imap (fun i m => g i m <$> rows) months) !! (i * length rows + k)%nat
  = Some (g i m r).
Proof.
  intros Hm Hr. apply join_lookup_Some_same_length'.
  - apply Forall_forall. intros l Hl. apply list_elem_of_lookup in Hl as (j & Hj).
    rewrite list_lookup_imap in Hj. destruct (months !! j); inversion Hj.
    apply length_fmap.
  - eapply lookup_lt_Some, Hr.
  - exists (g i m <$> rows). rewrite list_lookup_imap, Hm, list_lookup_fmap, Hr. auto.
Qed.

Lemma digits_of_Z_nonempty (n : Z) : digits_of_Z n <> "".
Proof.
  intros E. apply (f_equal String.length) in E. unfold digits_of_Z in E.
  rewrite fixed_digits_length in E.
  pose proof (count_digits_pos (Z.to_nat (Z.log2 n)) n). simpl in E. lia.
Qed.

(** A finite float in fixed notation with [prec] decimals: an optional minus
    sign, digits, a point and [prec] digits. *)
Lemma format_fixed_shape (prec : nat) (x : float) :
  is_number x = true ->
  exists (negative : bool) (int_digits frac_digits : string),
    format_fixed false (S prec) x
      = (if negative then "-" else "") +:+ int_digits +:+ "." +:+ frac_digits /\
    all_digits int_digits = true /\ int_digits <> "" /\
    all_digits frac_digits = true /\ String.length frac_digits = S prec.
Proof.
  unfold is_number, format_fixed, format_units.
  destruct (Prim2SF x) as [s | s | | s m e]; try discriminate; intros _; cbn match.
  all: eexists s, _, _; split; [reflexivity |].
  all: split; [apply all_digits_fixed |].
  all: split; [apply digits_of_Z_nonempty |].
  all: split; [apply all_digits_fixed | apply fixed_digits_length].
Qed.

Lemma rounded_to_number (prec : nat) (x : float) :
  is_number x = true ->
  exists q v, rounded_to prec x = Some q /\ exact_value x = Some v.
Proof.
  unfold is_number, rounded_to, exact_value.
  destruct (Prim2SF x); try discriminate; eauto.
Qed.

Example two_month_csv :
  dataset_to_csv two_month_dataset
  = join nl
      [ "month,symbol,shares,currency,usd_price,usd_value,jpy_price,jpy_value,fx_rate";
        "2025-01,AAPL,10,USD,,,,,150.000000";
        "2025-01,7203.T,5,JPY,20.000000,100.000000,3000.000000,15000.000000,150.000000";
        "2025-02,AAPL,10,USD,200.000000,2000.000000,32000.000000,320000.000000,160.000000";
        "2025-02,7203.T,5,JPY,20.000000,100.000000,3200.000000,16000.000000,160.000000" ]
    +:+ nl.
Proof. vm_compute. reflexivity. Qed.

(** ** The text of the export, split at its separators *)

Lemma split_on_nonempty (sep : ascii) (s : string) : split_on sep s <> [].
Proof.
  destruct s as [| c s]; simpl; [discriminate |].
  destruct (Ascii.eqb c sep); [discriminate |]. destruct (split_on sep s); discriminate.
Qed.

(** Splitting where a separator stands splits the two sides. *)
Lemma split_on_app (sep : ascii) (a b : string) :
  split_on sep (a +:+ String sep b) = split_on sep a ++ split_on sep b.
Proof.
  induction a as [| c a IH].
  - rewrite string_app_nil. simpl. rewrite Ascii.eqb_refl. reflexivity.
  - rewrite string_app_cons. simpl. destruct (Ascii.eqb c sep).
    + rewrite IH. reflexivity.
    + rewrite IH. pose proof (split_on_nonempty sep a) as Hne.
      destruct (split_on sep a) as [| piece pieces]; [contradiction | reflexivity].
Qed.

Lemma split_on_lacks (sep : ascii) (s : string) :
  lacks sep s = true -> split_on sep s = [ s ].
Proof.
  induction s as [| c s IH]; [reflexivity |]. simpl. intros H.
  apply andb_true_iff in H as [Hc Hs]. apply negb_true_iff in Hc. rewrite Hc, (IH Hs).
  reflexivity.
Qed.

Lemma lacks_app (c : ascii) (a b : string) :
  lacks c (a +:+ b) = lacks c a && lacks c b.
Proof.
  induction a as [| x a IH]; [reflexivity |]. rewrite string_app_cons. simpl.
  rewrite IH, andb_assoc. reflexivity.
Qed.

(** A text joined by a separator that its parts lack splits into the parts. *)
Lemma split_on_join (sep : ascii) (parts : list string) :
  parts <> [] -> Forall (fun s => lacks sep s = true) parts ->
  split_on sep (join (String sep "") parts) = parts.
Proof.
  induction parts as [| p rest IH]; [contradiction |]. intros _ Hall.
  apply Forall_cons in Hall as [Hp Hrest].
  destruct rest as [| q rest]; [apply split_on_lacks, Hp |].
  change (join (String sep "") (p :: q :: rest))
    with (p +:+ String sep "" +:+ join (String sep "") (q :: rest)).
  change (String sep "" +:+ join (String sep "") (q :: rest))
    with (String sep (join (String sep "") (q :: rest))).
  rewrite split_on_app, (split_on_lacks sep p Hp), IH by (discriminate || exact Hrest).
  reflexivity.
Qed.

Lemma lacks_join (c : ascii) (sep : string) (parts : list string) :
  lacks c sep = true -> Forall (fun s => lacks c s = true) parts ->
  lacks c (join sep parts) = true.
Proof.
  intros Hsep. induction parts as [| p rest IH]; intros Hall; [reflexivity |].
  apply Forall_cons in Hall as [Hp Hrest].
  destruct rest as [| q rest]; [exact Hp |].
  change (join sep (p :: q :: rest)) with (p +:+ sep +:+ join sep (q :: rest)).
  rewrite !lacks_app, Hp, Hsep, (IH Hrest). reflexivity.
Qed.

Lemma all_digits_lacks (c : ascii) (s : string) :
  digit_of_char c = None -> all_digits s = true -> lacks c s = true.
Proof.
  intros Hc. induction s as [| a s IH]; [reflexivity |]. simpl. intros H.
  apply andb_true_iff in H as [Ha Hs]. apply bool_decide_eq_true in Ha.
  rewrite (IH Hs), andb_true_r. apply negb_true_iff, Ascii.eqb_neq. intros ->.
  rewrite Hc in Ha. destruct Ha as [d Hd]. discriminate.
Qed.

Lemma all_digits_of_number (n : Z) : all_digits (digits_of_Z n) = true.
Proof. apply all_digits_fixed. Qed.

Lemma lacks_one (c a : ascii) : a <> c -> lacks c (String a "") = true.
Proof.
  intros H. apply Ascii.eqb_neq in H. unfold lacks. rewrite H. reflexivity.
Qed.

(** Neither separator stands in a number as the export writes it. *)
Lemma format_int_lacks (c : ascii) (n : Z) :
  digit_of_char c = None -> c <> "-"%char -> lacks c (format_int false n) = true.
Proof.
  intros Hd Hm. unfold format_int. rewrite lacks_app.
  rewrite (all_digits_lacks c _ Hd (all_digits_of_number _)), andb_true_r.
  destruct (n <? 0); [apply lacks_one; congruence | reflexivity].
Qed.

Lemma format_units_lacks (c : ascii) (prec : nat) (units : Z) :
  digit_of_char c = None -> c <> "."%char -> lacks c (format_units false prec units) = true.
Proof.
  intros Hd Hp. unfold format_units. rewrite lacks_app.
  rewrite (all_digits_lacks c _ Hd (all_digits_of_number _)), andb_true_l.
  destruct prec as [| prec]; [reflexivity |].
  rewrite lacks_app, (all_digits_lacks c _ Hd (all_digits_fixed _ _)), andb_true_r.
  apply lacks_one. congruence.
Qed.

Lemma blank_if_nan_lacks (c : ascii) (prec : nat) (x : float) :
  c = ","%char \/ c = lf -> lacks c (blank_if_nan false prec x) = true.
Proof.
  intros Hc.
  assert (Hd : digit_of_char c = None) by (destruct Hc as [-> | ->]; reflexivity).
  assert (Hp : c <> "."%char) by (destruct Hc as [-> | ->]; discriminate).
  assert (Hm : lacks c "-" = true) by (destruct Hc as [-> | ->]; reflexivity).
  unfold blank_if_nan. destruct (is_nan x); [reflexivity |].
  unfold format_fixed. destruct (Prim2SF x) as [s | s | | s m e].
  - rewrite lacks_app, (format_units_lacks c prec _ Hd Hp), andb_true_r.
    destruct s; [exact Hm | reflexivity].
  - destruct s, Hc as [-> | ->]; reflexivity.
  - destruct Hc as [-> | ->]; reflexivity.
  - rewrite lacks_app, (format_units_lacks c prec _ Hd Hp), andb_true_r.
    destruct s; [exact Hm | reflexivity].
Qed.

Lemma _get_lacks (c : ascii) (lst : list float) (i : nat) :
  c = ","%char \/ c = lf -> lacks c (_get lst i) = true.
Proof.
  intros Hc. unfold _get. destruct (lst !! i); [apply blank_if_nan_lacks, Hc | reflexivity].
Qed.

Lemma fx_field_lacks (c : ascii) (fx : option float) :
  c = ","%char \/ c = lf -> lacks c (fx_field fx) = true.
Proof.
  intros Hc. unfold fx_field. destruct fx; [apply blank_if_nan_lacks, Hc | reflexivity].
Qed.

Lemma separator_free_lacks (c : ascii) (s : string) :
  c = ","%char \/ c = lf -> separator_free s = true -> lacks c s = true.
Proof.
  intros Hc H. apply andb_true_iff in H as [H1 H2]. destruct Hc as [-> | ->]; assumption.
Qed.

(** The fields of a line of the export hold no separator when the labels
    hold none. *)
Lemma csv_fields_lack (c : ascii) (fx_list : list (option float)) (i : nat) (m : string)
    (r : DatasetRow) :
  c = ","%char \/ c = lf ->
  separator_free m = true -> separator_free (d_symbol r) = true ->
  separator_free (d_currency r) = true ->
  Forall (fun s => lacks c s = true)
    [ m; d_symbol r; format_int false (d_shares r); d_currency r;
      _get (d_usd_price r) i; _get (d_usd_value r) i;
      _get (d_jpy_price r) i; _get (d_jpy_value r) i;
      fx_field (mjoin (fx_list !! i)) ].
Proof.
  intros Hc Hm Hs Hy. repeat apply Forall_cons_2; try apply Forall_nil_2.
  - apply separator_free_lacks; assumption.
  - apply separator_free_lacks; assumption.
  - apply format_int_lacks; destruct Hc as [-> | ->]; (reflexivity || discriminate).
  - apply separator_free_lacks; assumption.
  - apply _get_lacks, Hc.
  - apply _get_lacks, Hc.
  - apply _get_lacks, Hc.
  - apply _get_lacks, Hc.
  - apply fx_field_lacks, Hc.
Qed.

Lemma csv_line_fields (fx_list : list (option float)) (i : nat) (m : string) (r : DatasetRow) :
  separator_free m = true -> separator_free (d_symbol r) = true ->
  separator_free (d_currency r) = true ->
  lacks lf (csv_line fx_list i m r) = true /\
  split_on "," (csv_line fx_list i m r)
  = [ m; d_symbol r; format_int false (d_shares r); d_currency r;
      _get (d_usd_price r) i; _get (d_usd_value r) i;
      _get (d_jpy_price r) i; _get (d_jpy_value r) i;
      fx_field (mjoin (fx_list !! i)) ].
Proof.
  intros Hm Hs Hy. unfold csv_line. split.
  - apply lacks_join; [reflexivity |]. apply csv_fields_lack; auto.
  - apply (split_on_join ","%char); [discriminate |]. apply csv_fields_lack; auto.
Qed.

Lemma month_lines_Forall {A B C} (P : C -> Prop) (g : nat -> A -> B -> C)
    (months : list A) (rows : list B) :
  (forall i m r, months !! i = Some m -> r ∈ rows -> P (g i m r)) ->
  Forall P (mjoin (imap (fun i m => g i m <$> rows) months)).
Proof.
  revert g. induction months as [| m months IH]; intros g H; [constructor |].
  simpl. apply Forall_app. split.
  - apply Forall_fmap, Forall_forall. intros r Hr. apply (H 0%nat m r); [reflexivity | exact Hr].
  - apply (IH (fun i => g (S i))). intros i m' r Hm' Hr. apply (H (S i) m' r); assumption.
Qed.

(** C8 (amended): for a dataset whose month labels, symbols and currencies
    hold no comma and no line feed, the text of [dataset_to_csv], cut at its
    line feeds, is the header line, then one line for each pair of a month
    and a holding, [M * H] in all, month by month, and nothing after the last
    line feed; the header, cut at its commas, is the nine column names in
    their order, and the line of a month and a holding, cut at its commas, is
    the month, the symbol, the share count, the currency, the four values of
    the holding at the month and the month's FX rate.  The share count is
    written as a whole number.  A value that is missing or NaN is written as
    the empty string, an infinite one as [inf] or [-inf].  A finite value is
    written in fixed notation with six decimals, and what is written reads
    back as the value rounded to six decimals, which is within half a
    millionth of the value. *)
Theorem dataset_to_csv_text (ds : MonthlyDataset) :
  plain_labels ds ->
  (exists data,
     split_on lf (dataset_to_csv ds) = csv_header :: data ++ [ "" ] /\
     length data = (length (ds_months ds) * length (ds_rows ds))%nat /\
     forall i m k r, ds_months ds !! i = Some m -> ds_rows ds !! k = Some r ->
       exists line,
         data !! (i * length (ds_rows ds) + k)%nat = Some line /\
         split_on "," line
         = [ m; d_symbol r; format_int false (d_shares r); d_currency r;
             _get (d_usd_price r) i; _get (d_usd_value r) i;
             _get (d_jpy_price r) i; _get (d_jpy_value r) i;
             fx_field (mjoin (ds_fx ds !! i)) ]) /\
  split_on "," csv_header
  = [ "month"; "symbol"; "shares"; "currency"; "usd_price"; "usd_value";
      "jpy_price"; "jpy_value"; "fx_rate" ] /\
  (forall n, exists digits,
     format_int false n = (if n <? 0 then "-" else "") +:+ digits /\
     all_digits digits = true /\ digits <> "" /\ read_digits 0 digits = Some (Z.abs n)) /\
  (forall lst i, lst !! i = None -> _get lst i = "") /\
  fx_field None = "" /\
  (forall lst i v, lst !! i = Some v -> _get lst i = fx_field (Some v)) /\
  (forall v, is_nan v = true -> fx_field (Some v) = "") /\
  fx_field (Some infinity) = "inf" /\ fx_field (Some neg_infinity) = "-inf" /\
  (forall v, is_number v = true ->
     (exists (negative : bool) (int_digits frac_digits : string),
        fx_field (Some v)
          = (if negative then "-" else "") +:+ int_digits +:+ "." +:+ frac_digits /\
        all_digits int_digits = true /\ int_digits <> "" /\
        all_digits frac_digits = true /\ String.length frac_digits = 6%nat) /\
     (exists q x, read_fixed (fx_field (Some v)) = Some q /\
                  rounded_to 6 v = Some q /\ exact_value v = Some x /\
                  (Qabs (q - x) <= 1 # 2000000)%Q)).
Proof.
  intros [Hmonths Hrows].
  split; [| split; [reflexivity |]].
  - exists (mjoin (imap (fun i m => csv_line (ds_fx ds) i m <$> ds_rows ds) (ds_months ds))).
    assert (Hline : forall i m r, ds_months ds !! i = Some m -> r ∈ ds_rows ds ->
              lacks lf (csv_line (ds_fx ds) i m r) = true /\
              split_on "," (csv_line (ds_fx ds) i m r)
              = [ m; d_symbol r; format_int false (d_shares r); d_currency r;
                  _get (d_usd_price r) i; _get (d_usd_value r) i;
                  _get (d_jpy_price r) i; _get (d_jpy_value r) i;
                  fx_field (mjoin (ds_fx ds !! i)) ]).
    { intros i m r Hm Hr. rewrite Forall_forall in Hmonths. rewrite Forall_forall in Hrows.
      destruct (Hrows r Hr) as [Hs Hy].
      apply csv_line_fields; [apply Hmonths; eapply list_elem_of_lookup_2, Hm | exact Hs | exact Hy]. }
    split; [| split].
    + unfold dataset_to_csv, nl. change (ascii_of_nat 10) with lf.
      rewrite split_on_app. simpl (split_on lf ""). rewrite app_comm_cons. f_equal.
      unfold csv_out_lines. apply split_on_join; [discriminate |].
      apply Forall_cons_2; [reflexivity |].
      apply (month_lines_Forall (fun s => lacks lf s = true)
               (fun i m r => csv_line (ds_fx ds) i m r)).
      intros i m r Hm Hr. apply (Hline i m r Hm Hr).
    + apply (month_lines_length (fun i m r => csv_line (ds_fx ds) i m r)).
    + intros i m k r Hm Hr. exists (csv_line (ds_fx ds) i m r). split.
      * apply (month_lines_lookup (fun i m r => csv_line (ds_fx ds) i m r)); assumption.
      * apply (Hline i m r Hm). eapply list_elem_of_lookup_2, Hr.
  - split; [| split; [| split; [| split; [| split; [| split; [| split]]]]]].
    + intros n. exists (digits_of_Z (Z.abs n)). split; [reflexivity |].
      split; [apply all_digits_of_number |]. split; [apply digits_of_Z_nonempty |].
      apply read_digits_of_Z. lia.
    + intros lst i H. unfold _get. rewrite H. reflexivity.
    + reflexivity.
    + intros lst i v H. unfold _get. rewrite H. reflexivity.
    + intros v H. unfold fx_field, blank_if_nan. rewrite H. reflexivity.
    + vm_compute. reflexivity.
    + vm_compute. reflexivity.
    + intros v Hv.
      assert (Hn : is_nan v = false).
      { destruct (is_nan v) eqn:E; [| reflexivity]. apply is_nan_eq in E. subst v. discriminate. }
      assert (Hf : fx_field (Some v) = format_fixed false 6 v)
        by (unfold fx_field, blank_if_nan; rewrite Hn; reflexivity).
      split.
      * rewrite Hf. apply (format_fixed_shape 5 v Hv).
      * destruct (rounded_to_number 6 v Hv) as (q & x & Hq & Hx).
        exists q, x. rewrite Hf, (read_format_fixed 5 v).
        split; [exact Hq |]. split; [exact Hq |]. split; [exact Hx |].
        apply (rounded_to_close 6 v q x Hq Hx).
Qed.

Lemma dataset_to_csv_text_witness :
  plain_labels two_month_dataset /\
  exists data,
    split_on lf (dataset_to_csv two_month_dataset) = csv_header :: data ++ [ "" ] /\
    length data = 4%nat /\
    forall i m k r, ds_months two_month_dataset !! i = Some m ->
      ds_rows two_month_dataset !! k = Some r ->
      exists line,
        data !! (i * 2 + k)%nat = Some line /\
        split_on "," line
        = [ m; d_symbol r; format_int false (d_shares r); d_currency r;
            _get (d_usd_price r) i; _get (d_usd_value r) i;
            _get (d_jpy_price r) i; _get (d_jpy_value r) i;
            fx_field (mjoin (ds_fx two_month_dataset !! i)) ].
Proof.
  assert (H : plain_labels two_month_dataset).
  { split; repeat constructor. }
  split; [exact H |].
  destruct (dataset_to_csv_text two_month_dataset H) as ((data & Hsplit & Hlen & Hlines) & _).
  exists data. split; [exact Hsplit |]. split; [exact Hlen | exact Hlines].
Defined.

(** C8 (as stated, refuted): the export of one month and one holding has
    two data lines when the symbol holds a line feed; when the symbol holds a
    comma its data line has ten fields, and an infinite value is written
    [inf], which is not fixed notation and does not read back. *)
Lemma dataset_to_csv_breaks_on_separators :
  (length (ds_months line_feed_dataset) * length (ds_rows line_feed_dataset) = 1)%nat /\
  split_on lf (dataset_to_csv line_feed_dataset)
  = [ csv_header; "2025-01,BRK";
      "B,3,USD,500.000000,1500.000000,75000.000000,225000.000000,150.000000"; "" ] /\
  split_on lf (dataset_to_csv comma_dataset)
  = [ csv_header; "2025-01,BRK,B,3,USD,inf,inf,inf,-inf,150.000000"; "" ] /\
  split_on "," "2025-01,BRK,B,3,USD,inf,inf,inf,-inf,150.000000"
  = [ "2025-01"; "BRK"; "B"; "3"; "USD"; "inf"; "inf"; "inf"; "-inf"; "150.000000" ] /\
  read_fixed "inf" = None /\ read_fixed "-inf" = None.
Proof. repeat split; vm_compute; reflexivity. Qed.

(** ** Strings as lists of characters *)

Lemma list_of_rev_app (s1 s2 : string) :
  String.list_ascii_of_string (String.rev_app s1 s2)
  = List.rev (String.list_ascii_of_string s1) ++ String.list_ascii_of_string s2.
Proof.
  revert s2. induction s1 as [| c s1 IH]; intros s2; simpl; [reflexivity |].
  rewrite IH. simpl. rewrite <- app_assoc. reflexivity.
Qed.

Lemma list_of_rev (s : string) :
  String.list_ascii_of_string (String.rev s) = List.rev (String.list_ascii_of_string s).
Proof. unfold String.rev. rewrite list_of_rev_app. simpl. apply app_nil_r. Qed.

Lemma list_of_string_inj (s t : string) :
  String.list_ascii_of_string s = String.list_ascii_of_string t -> s = t.
Proof.
  intros H. rewrite <- (String.string_of_list_ascii_of_string s),
    <- (String.string_of_list_ascii_of_string t), H. reflexivity.
Qed.

Lemma string_rev_involutive (s : string) : String.rev (String.rev s) = s.
Proof. apply list_of_string_inj. rewrite !list_of_rev. apply rev_involutive. Qed.










(** ** Price fetching *)

(** A loop that raises does so in its body, on one of the elements. *)
Lemma for_each_Raise {A S} (body : S -> A -> result S) (xs : list A) (s : S) (e : exn) :
  for_each xs body s = Raise e -> exists s' x, x ∈ xs /\ body s' x = Raise e.
Proof.
  revert s. induction xs as [| x xs IH]; intros s H; simpl in H; [discriminate |].
  destruct (body s x) as [s1 | e1] eqn:Hb; simpl in H.
  - destruct (IH _ H) as (s' & y & Hy & Hby). exists s', y. split; [right; exact Hy | exact Hby].
  - inversion H; subst. exists s, x. split; [left | exact Hb].
Qed.

Lemma fetch_prices_Ok_lookup provider hs prices :
  fetch_prices provider hs = Ok prices ->
  (forall s, is_Some (prices !! s) <-> s ∈ h_symbol <$> hs) /\
  (forall s p, prices !! s = Some p -> get_price provider s = Ok p).
Proof.
  unfold fetch_prices. intros H.
  pose (P := fun (seen : list Holding) (m : gmap string float) =>
    (forall s, is_Some (m !! s) <-> s ∈ h_symbol <$> seen) /\
    (forall s p, m !! s = Some p -> get_price provider s = Ok p)).
  change (P ([] ++ hs) prices).
  eapply (for_each_invariant P); [| | exact H].
  - intros seen m h m' [Hdom Hval] Hb. unfold P.
    destruct (m !! h_symbol h) as [p0 |] eqn:Em.
    + inversion Hb; subst m'; clear Hb. split; [| exact Hval].
      intros s. rewrite fmap_app, elem_of_app, <- Hdom. cbn [fmap list_fmap].
      rewrite list_elem_of_singleton. split; [auto |].
      intros [Hs | ->]; [exact Hs | rewrite Em; eauto].
    + apply bind_Ok in Hb as (p & Hp & Hb). inversion Hb; subst m'; clear Hb. split.
      * intros s. rewrite fmap_app, elem_of_app, <- Hdom. cbn [fmap list_fmap].
        rewrite list_elem_of_singleton.
        destruct (decide (h_symbol h = s)) as [<- | Hne].
        -- rewrite lookup_insert_eq. split; eauto.
        -- rewrite lookup_insert_ne by exact Hne. split; [auto |].
           intros [Hs | ->]; [exact Hs | contradiction].
      * intros s q. destruct (decide (h_symbol h = s)) as [<- | Hne].
        -- rewrite lookup_insert_eq. intros Hq. inversion Hq; subst. exact Hp.
        -- rewrite lookup_insert_ne by exact Hne. apply Hval.
  - split.
    + intros s. rewrite lookup_empty. split; [intros [? ?]; discriminate | intros Hs; inversion Hs].
    + intros s p. rewrite lookup_empty. discriminate.
Qed.

(** [fetch_prices] returns a price for each symbol of the holdings and for
    nothing else, however often a symbol occurs among them; the price of a
    symbol is what the provider's [get_price] answers for it. *)
Theorem fetch_prices_one_price_per_symbol provider hs prices :
  fetch_prices provider hs = Ok prices ->
  (forall s, is_Some (prices !! s) <-> s ∈ h_symbol <$> hs) /\
  (forall s p, prices !! s = Some p -> get_price provider s = Ok p).
Proof. apply fetch_prices_Ok_lookup. Qed.

Lemma fetch_prices_one_price_per_symbol_witness :
  (forall s, is_Some (scenario_prices !! s) <-> s ∈ h_symbol <$> repeated_holdings) /\
  (forall s p, scenario_prices !! s = Some p ->
     get_price (YFinanceProvider quoting_yfinance) s = Ok p).
Proof.
  apply (fetch_prices_one_price_per_symbol (YFinanceProvider quoting_yfinance)
           repeated_holdings scenario_prices).
  vm_compute. reflexivity.
Defined.

(** [fetch_prices] returns exactly when the provider answers the price of
    every holding; when it raises, it raises what the provider raised for
    one of the holdings, and no price is returned. *)
Theorem fetch_prices_all_or_nothing provider hs :
  ((exists prices, fetch_prices provider hs = Ok prices) <->
   (forall h, h ∈ hs -> exists p, get_price provider (h_symbol h) = Ok p)) /\
  (forall e, fetch_prices provider hs = Raise e ->
     exists h, h ∈ hs /\ get_price provider (h_symbol h) = Raise e).
Proof.
  split; [split |].
  - intros (prices & H) h Hh.
    destruct (fetch_prices_Ok_lookup provider hs prices H) as [Hdom Hval].
    destruct (proj2 (Hdom (h_symbol h))) as (p & Hp).
    { apply list_elem_of_fmap. eauto. }
    exists p. apply Hval, Hp.
  - intros Hall. unfold fetch_prices. apply for_each_total.
    intros m h Hh. destruct (m !! h_symbol h); [eexists; reflexivity |].
    destruct (Hall h Hh) as (p & ->). eexists; reflexivity.
  - intros e H. unfold fetch_prices in H.
    apply for_each_Raise in H as (m & h & Hh & Hb). exists h. split; [exact Hh |].
    destruct (m !! h_symbol h); [discriminate |].
    destruct (get_price provider (h_symbol h)); [discriminate | simpl in Hb; inversion Hb; reflexivity].
Qed.

(** ** More on the valuation engine *)

(** What an iteration that returns has put in the optional fields of the
    row. *)
Lemma build_rows_body_fields yf prices usd_jpy d m y st h st' :
  build_rows_body yf prices usd_jpy d m y st h = Ok st' ->
  exists r, bs_rows st' = bs_rows st ++ [r] /\
    match yf with
    | Some o =>
        change_metrics o d m y (holding_ccy h) (h_symbol h) (usd_price r) (jpy_price r)
          = Ok (changes_of r)
    | None => changes_of r = no_changes /\ per r = nan /\ company_name r = None
    end.
Proof.
  unfold build_rows_body. destruct (unsupported (holding_ccy h)); [discriminate |].
  intros H. apply bind_Ok in H as ([u j] & _ & H).
  apply bind_Ok in H as (ch & Hch & H).
  apply bind_Ok in H as ([name cache] & Hname & H).
  apply bind_Ok in H as (pv & Hpv & H).
  inversion H; subst; clear H. eexists. split; [reflexivity |]. simpl.
  destruct yf as [o |].
  - rewrite Hch. destruct ch; reflexivity.
  - inversion Hch; subst. inversion Hname; subst. inversion Hpv; subst. auto.
Qed.

(** The same, for the rows of a run of [build_rows] that returns. *)
Lemma build_rows_fields hs prices usd_jpy provider rows tu tj :
  build_rows hs prices usd_jpy provider = Ok (rows, tu, tj) ->
  exists d m y,
    Forall2 (fun h r =>
               match as_yfinance provider with
               | Some o =>
                   change_metrics o d m y (holding_ccy h) (h_symbol h)
                     (usd_price r) (jpy_price r) = Ok (changes_of r)
               | None => changes_of r = no_changes /\ per r = nan /\ company_name r = None
               end) hs rows.
Proof.
  unfold build_rows. intros H.
  apply bind_Ok in H as ([[d m] y] & _ & H).
  apply bind_Ok in H as (st & Hloop & H).
  inversion H; subst; clear H. exists d, m, y.
  pose (P := fun (seen : list Holding) (s : BuildState) =>
    Forall2 (fun h r =>
               match as_yfinance provider with
               | Some o =>
                   change_metrics o d m y (holding_ccy h) (h_symbol h)
                     (usd_price r) (jpy_price r) = Ok (changes_of r)
               | None => changes_of r = no_changes /\ per r = nan /\ company_name r = None
               end) seen (bs_rows s)).
  change (P ([] ++ hs) st).
  eapply (for_each_invariant P); [| | exact Hloop].
  - intros seen s x s' HF Hb. apply build_rows_body_fields in Hb as (r & Hr & Hf).
    unfold P. rewrite Hr. apply Forall2_app; [exact HF | constructor; [exact Hf | constructor]].
  - constructor.
Qed.

(** A run of [build_rows] with a provider that is not the yfinance one (the
    Alpha Vantage provider, or none) gives rows without change metrics,
    without a PER and without a company name: the fields keep their
    defaults. *)
Theorem build_rows_plain_without_yfinance hs prices usd_jpy provider rows tu tj :
  as_yfinance provider = None ->
  build_rows hs prices usd_jpy provider = Ok (rows, tu, tj) ->
  Forall (fun r => usd_mom r = nan /\ usd_dod r = nan /\ jpy_mom r = nan /\
                   jpy_dod r = nan /\ usd_yoy r = nan /\ jpy_yoy r = nan /\
                   per r = nan /\ company_name r = None) rows.
Proof.
  intros Hno H. apply build_rows_fields in H as (d & m & y & HF). rewrite Hno in HF.
  induction HF as [| h r hs' rows' (Hc & Hp & Hn) _ IH]; constructor; [| exact IH].
  unfold changes_of, no_changes in Hc. injection Hc as H1 H2 H3 H4 H5 H6. auto 10.
Qed.

Lemma build_rows_plain_without_yfinance_witness :
  Forall (fun r => usd_mom r = nan /\ usd_dod r = nan /\ jpy_mom r = nan /\
                   jpy_dod r = nan /\ usd_yoy r = nan /\ jpy_yoy r = nan /\
                   per r = nan /\ company_name r = None) scenario_rows.
Proof.
  apply (build_rows_plain_without_yfinance scenario_holdings scenario_prices
           (Some 150%float) None scenario_rows 1600%float 240000%float).
  - reflexivity.
  - vm_compute. reflexivity.
Defined.

(** The change metrics of a row are computed together: when the provider's
    previous-day close fails for a holding, its row has none of the six
    metrics, the month-over-month and year-over-year ones included, whatever
    monthly history the provider has. *)
Theorem build_rows_changes_all_or_none o hs prices usd_jpy rows tu tj i h r e :
  build_rows hs prices usd_jpy (Some (YFinanceProvider o)) = Ok (rows, tu, tj) ->
  hs !! i = Some h -> rows !! i = Some r ->
  yf_previous_day_close o (h_symbol h) = Raise e ->
  usd_mom r = nan /\ usd_dod r = nan /\ jpy_mom r = nan /\
  jpy_dod r = nan /\ usd_yoy r = nan /\ jpy_yoy r = nan.
Proof.
  intros H Hi Hr He. apply build_rows_fields in H as (d & m & y & HF). simpl in HF.
  destruct (Forall2_lookup_l _ _ _ _ _ HF Hi) as (r' & Hr' & Hc).
  rewrite Hr in Hr'. inversion Hr'; subst r'; clear Hr'.
  unfold change_metrics in Hc. rewrite He in Hc.
  destruct (decide (holding_ccy h = "USD")); simpl in Hc;
    destruct (is_Exception e); try discriminate;
    injection Hc as H1 H2 H3 H4 H5 H6; auto 10.
Qed.

Lemma build_rows_changes_all_or_none_witness :
  exists rows r,
    build_rows scenario_holdings scenario_prices (Some 150%float)
      (Some (YFinanceProvider patchy_yfinance)) = Ok (rows, 1600%float, 240000%float) /\
    usd_mom <$> rows = [ 0.25%float; nan ] /\
    rows !! 1%nat = Some r /\
    usd_mom r = nan /\ usd_dod r = nan /\ jpy_mom r = nan /\
    jpy_dod r = nan /\ usd_yoy r = nan /\ jpy_yoy r = nan.
Proof.
  eexists _, _. split; [vm_compute; reflexivity |].
  split; [vm_compute; reflexivity |]. split; [reflexivity |].
  eapply (build_rows_changes_all_or_none patchy_yfinance scenario_holdings scenario_prices
            (Some 150%float) _ 1600%float 240000%float 1%nat
            (mkHolding "7203.T" 5 (Some "JPY")) _ (OSError "timed out")).
  - vm_compute. reflexivity.
  - reflexivity.
  - reflexivity.
  - reflexivity.
Defined.

(** The totals that [build_rows] returns are the running sums of the rows'
    values, from [0.0], in the order of the rows; the value of a row is its
    share count times its price. *)
Theorem build_rows_totals_are_running_sums hs prices usd_jpy provider rows tu tj :
  build_rows hs prices usd_jpy provider = Ok (rows, tu, tj) ->
  tu = float_sum (usd_value <$> rows) /\
  tj = float_sum (jpy_value <$> rows) /\
  Forall (fun r => usd_value r = (shares r * usd_price r)%float /\
                   jpy_value r = (shares r * jpy_price r)%float) rows.
Proof.
  intros H. apply build_rows_Ok in H as (HF & Hu & Hj).
  split; [exact Hu |]. split; [exact Hj |]. clear Hu Hj.
  induction HF as [| h r hs' rows' Hv _ IH]; constructor; [| exact IH].
  destruct Hv as (_ & _ & _ & _ & _ & Hvu & Hvj). auto.
Qed.

Lemma build_rows_totals_are_running_sums_witness :
  1600%float = float_sum (usd_value <$> scenario_rows) /\
  240000%float = float_sum (jpy_value <$> scenario_rows) /\
  Forall (fun r => usd_value r = (shares r * usd_price r)%float /\
                   jpy_value r = (shares r * jpy_price r)%float) scenario_rows.
Proof.
  apply (build_rows_totals_are_running_sums scenario_holdings scenario_prices
           (Some 150%float) None).
  vm_compute. reflexivity.
Defined.

(** A holding whose symbol has no entry in the price table is not an error:
    its row has NaN for both prices and both values, and with it both totals
    are NaN. *)
Theorem build_rows_missing_price hs prices usd_jpy provider rows tu tj i h r :
  build_rows hs prices usd_jpy provider = Ok (rows, tu, tj) ->
  hs !! i = Some h -> rows !! i = Some r ->
  prices !! h_symbol h = None ->
  usd_price r = nan /\ jpy_price r = nan /\ usd_value r = nan /\ jpy_value r = nan /\
  tu = nan /\ tj = nan.
Proof.
  intros H Hi Hr Hnone. apply build_rows_Ok in H as (HF & Hu & Hj).
  destruct (Forall2_lookup_l _ _ _ _ _ HF Hi) as (r' & Hr' & Hv).
  rewrite Hr in Hr'. inversion Hr'; subst r'; clear Hr'.
  destruct Hv as (_ & _ & _ & _ & Hp & Hvu & Hvj).
  rewrite Hnone in Hp. simpl in Hp.
  assert (Hup : usd_price r = nan /\ jpy_price r = nan).
  { destruct (decide (holding_ccy h = "USD")) as [Hc | Hc].
    - rewrite Hc, both_prices_USD in Hp. injection Hp as <- <-.
      rewrite mul_nan_l. auto.
    - rewrite (both_prices_other _ _ _ Hc) in Hp. injection Hp as <- <-.
      split; [| reflexivity]. destruct usd_jpy as [x |]; [| reflexivity].
      destruct (is_zero x); [reflexivity | apply div_nan_l]. }
  destruct Hup as [Hup Hjp]. rewrite Hup in Hvu. rewrite Hjp in Hvj.
  rewrite mul_nan_r in Hvu, Hvj.
  repeat (split; [assumption |]).
  assert (Hin : r ∈ rows) by (eapply list_elem_of_lookup_2; exact Hr).
  split; [rewrite Hu | rewrite Hj]; apply float_sum_poisoned.
  - rewrite <- Hvu. apply list_elem_of_fmap. eauto.
  - rewrite <- Hvj. apply list_elem_of_fmap. eauto.
Qed.

Lemma build_rows_missing_price_witness :
  exists r, gap_rows !! 1%nat = Some r /\
    usd_price r = nan /\ jpy_price r = nan /\ usd_value r = nan /\ jpy_value r = nan.
Proof.
  eexists. split; [reflexivity |].
  destruct (build_rows_missing_price gap_holdings gap_prices (Some 100%float) None gap_rows
              nan nan 1%nat (mkHolding "B" 1 (Some "JPY")) _
              ltac:(vm_compute; reflexivity) eq_refl eq_refl eq_refl)
    as (H1 & H2 & H3 & H4 & _).
  auto.
Defined.

(** [build_rows] is not stopped by a provider that fails: when every holding
    has a supported currency it returns, even with a provider none of whose
    calls is answered (the failures of the optional lookups are caught). *)
Theorem build_rows_survives_provider_failures hs prices usd_jpy provider :
  provider_quiet provider ->
  Forall (fun h => unsupported (holding_ccy h) = false) hs ->
  exists rows tu tj,
    build_rows hs prices usd_jpy provider = Ok (rows, tu, tj) /\ length rows = length hs.
Proof.
  intros Hq Hall. destruct (build_rows_returns hs prices usd_jpy provider Hq Hall)
    as ([[rows tu] tj] & H).
  exists rows, tu, tj. split; [exact H | eapply build_rows_length, H].
Qed.

Lemma build_rows_survives_provider_failures_witness :
  exists rows tu tj,
    build_rows scenario_holdings scenario_prices (Some 150%float)
      (Some (YFinanceProvider dead_yfinance)) = Ok (rows, tu, tj) /\
    length rows = length scenario_holdings.
Proof.
  apply (build_rows_survives_provider_failures scenario_holdings scenario_prices
           (Some 150%float) (Some (YFinanceProvider dead_yfinance))).
  - repeat split; intros; intros e H; inversion H; reflexivity.
  - repeat constructor.
Defined.

(** The prices that [fetch_prices] fetched are the prices of the rows: the
    row of a holding carries, in the holding's own currency, the price that
    the provider's [get_price] answered for the holding's symbol. *)
Theorem fetched_prices_reach_rows provider hs prices usd_jpy provider' rows tu tj i h r :
  fetch_prices provider hs = Ok prices ->
  build_rows hs prices usd_jpy provider' = Ok (rows, tu, tj) ->
  hs !! i = Some h -> rows !! i = Some r ->
  exists p,
    get_price provider (h_symbol h) = Ok p /\
    (currency r = "USD" -> usd_price r = p) /\
    (currency r = "JPY" -> jpy_price r = p).
Proof.
  intros Hfetch Hrows Hi Hr.
  destruct (fetch_prices_Ok_lookup provider hs prices Hfetch) as [Hdom Hval].
  destruct (proj2 (Hdom (h_symbol h))) as (p & Hp).
  { apply list_elem_of_fmap. exists h. split; [reflexivity |].
    eapply list_elem_of_lookup_2, Hi. }
  exists p. split; [apply Hval, Hp |].
  apply build_rows_Ok in Hrows as (HF & _).
  destruct (Forall2_lookup_l _ _ _ _ _ HF Hi) as (r' & Hr' & Hv).
  rewrite Hr in Hr'. inversion Hr'; subst r'; clear Hr'.
  destruct Hv as (_ & _ & Hc & _ & Hb & _). rewrite Hp in Hb. simpl in Hb. rewrite Hc.
  split; intros Hccy; rewrite Hccy in Hb.
  - rewrite both_prices_USD in Hb. injection Hb as <- _. reflexivity.
  - rewrite both_prices_other in Hb by discriminate. injection Hb as _ <-. reflexivity.
Qed.

Lemma fetched_prices_reach_rows_witness :
  exists p,
    get_price (YFinanceProvider quoting_yfinance) "7203.T" = Ok p /\
    (currency scenario_row_jpy = "USD" -> usd_price scenario_row_jpy = p) /\
    (currency scenario_row_jpy = "JPY" -> jpy_price scenario_row_jpy = p).
Proof.
  apply (fetched_prices_reach_rows (YFinanceProvider quoting_yfinance) scenario_holdings
           scenario_prices (Some 150%float) None scenario_rows 1600%float 240000%float
           1%nat (mkHolding "7203.T" 5 (Some "JPY")) scenario_row_jpy).
  - vm_compute. reflexivity.
  - vm_compute. reflexivity.
  - reflexivity.
  - reflexivity.
Defined.

(** ** Monthly series and previous closes *)

(** [l[-k]] is the [k]-th element from the end. *)
Lemma py_index_from_end {A} (l : list A) (k : nat) :
  (1 <= k)%nat ->
  py_index l (- Z.of_nat k)
  = match reverse l !! (k - 1)%nat with
    | Some x => Ok x
    | None => Raise (IndexError "list index out of range")
    end.
Proof.
  intros Hk. unfold py_index.
  replace (- Z.of_nat k <? 0) with true by (symmetry; apply Z.ltb_lt; lia).
  destruct (decide (k <= length l)%nat) as [Hle | Hgt].
  - replace ((Z.of_nat (length l) + - Z.of_nat k <? 0)
             || (Z.of_nat (length l) <=? Z.of_nat (length l) + - Z.of_nat k)) with false.
    2:{ symmetry. apply orb_false_iff. split; [apply Z.ltb_ge | apply Z.leb_gt]; lia. }
    replace (Z.to_nat (Z.of_nat (length l) + - Z.of_nat k)) with (length l - k)%nat by lia.
    rewrite reverse_lookup by lia.
    replace (length l - S (k - 1))%nat with (length l - k)%nat by lia.
    destruct (l !! (length l - k)%nat) eqn:E; [reflexivity |].
    apply lookup_ge_None in E. lia.
  - replace ((Z.of_nat (length l) + - Z.of_nat k <? 0)
             || (Z.of_nat (length l) <=? Z.of_nat (length l) + - Z.of_nat k)) with true.
    2:{ symmetry. apply orb_true_iff. left. apply Z.ltb_lt. lia. }
    rewrite (proj2 (lookup_ge_None (reverse l) (k - 1)%nat)); [reflexivity |].
    rewrite length_reverse. lia.
Qed.

(** The series that [get_monthly_series] returns, given the history that the
    provider has for the period. *)
Lemma get_monthly_series_Ok yf sym months hist :
  yf_history yf sym (_period_for (Z.max 12 months)) = Ok hist ->
  1 <= months ->
  get_monthly_series yf sym months = Ok (drop (length hist - Z.to_nat months) hist).
Proof.
  intros H Hm. unfold get_monthly_series. rewrite H. cbn [mbind result_bind].
  replace (months =? 0) with false by (symmetry; apply Z.eqb_neq; lia). simpl.
  destruct (months <? Z.of_nat (length hist)) eqn:E.
  - apply Z.ltb_lt in E. unfold py_slice_from.
    replace (- months <? 0) with true by (symmetry; apply Z.ltb_lt; lia).
    f_equal. f_equal. lia.
  - apply Z.ltb_ge in E. replace (length hist - Z.to_nat months)%nat with O by lia.
    reflexivity.
Qed.

(** [get_monthly_series] keeps the most recent [months] entries of the
    provider's history for the period: the history without its oldest
    entries when it is longer than [months], the whole of it otherwise.
    With [months = 0] nothing is cut. *)
Theorem get_monthly_series_recent_months yf sym months hist :
  yf_history yf sym (_period_for (Z.max 12 months)) = Ok hist ->
  (1 <= months ->
   exists ser,
     get_monthly_series yf sym months = Ok ser /\
     ser = drop (length hist - Z.to_nat months) hist /\
     reverse ser = take (Z.to_nat months) (reverse hist) /\
     Z.of_nat (length ser) = Z.min months (Z.of_nat (length hist))) /\
  (months = 0 -> get_monthly_series yf sym months = Ok hist).
Proof.
  intros H. split.
  - intros Hm. eexists. split; [apply (get_monthly_series_Ok _ _ _ _ H Hm) |].
    split; [reflexivity |]. split; [| rewrite length_drop; lia].
    rewrite reverse_drop.
    destruct (decide (Z.to_nat months <= length hist)%nat) as [Hle | Hgt].
    + f_equal. lia.
    + replace (length hist - (length hist - Z.to_nat months))%nat with (length hist) by lia.
      rewrite !take_ge by (rewrite length_reverse; lia). reflexivity.
  - intros ->. unfold get_monthly_series. rewrite H. reflexivity.
Qed.

Lemma get_monthly_series_recent_months_witness :
  (exists ser,
     get_monthly_series patchy_yfinance "AAPL" 2 = Ok ser /\
     ser = [ ("2025-02", 120%float); ("2025-03", 150%float) ] /\
     Z.of_nat (length ser) = 2).
Proof.
  destruct (proj1 (get_monthly_series_recent_months patchy_yfinance "AAPL" 2
                     [ ("2025-01", 100%float); ("2025-02", 120%float); ("2025-03", 150%float) ]
                     eq_refl) ltac:(lia))
    as (ser & H1 & H2 & _ & H3).
  exists ser. split; [exact H1 |]. split; [exact H2 | exact H3].
Defined.

(** The previous month's close is the close of the last but one monthly bar
    of the one-year history, the previous year's close that of the
    thirteenth bar from the end of the two-year history; each is [None] when
    the history is shorter, and when the provider's history call fails. *)
Theorem previous_closes_from_history yf ticker :
  (forall hist, yf_history yf ticker "1y" = Ok hist ->
     previous_month_close yf ticker = Ok (snd <$> reverse hist !! 1%nat)) /\
  (forall hist, yf_history yf ticker "2y" = Ok hist ->
     previous_year_close yf ticker = Ok (snd <$> reverse hist !! 12%nat)) /\
  (forall e, is_Exception e = true ->
     (yf_history yf ticker "1y" = Raise e -> previous_month_close yf ticker = Ok None) /\
     (yf_history yf ticker "2y" = Raise e -> previous_year_close yf ticker = Ok None)).
Proof.
  assert (Hgen : forall (k : nat) (kz nz : Z) (hist : list (string * float)),
    (1 <= k)%nat -> kz = Z.of_nat k -> nz = - kz ->
    (ser ← Ok (drop (length hist - k) hist);
     if kz <=? Z.of_nat (length ser)
     then p ← py_index ser nz; mret (Some p.2)
     else mret None)
    = Ok (snd <$> reverse hist !! (k - 1)%nat) :> result (option float)).
  { intros k kz nz hist Hk -> ->. cbn [mbind result_bind]. rewrite length_drop.
    destruct (decide (k <= length hist)%nat) as [Hle | Hgt].
    - replace (Z.of_nat k <=? Z.of_nat (length hist - (length hist - k))) with true
        by (symmetry; apply Z.leb_le; lia).
      rewrite (py_index_from_end _ k Hk), reverse_drop.
      replace (length hist - (length hist - k))%nat with k by lia.
      rewrite lookup_take_lt by lia.
      destruct (reverse hist !! (k - 1)%nat) eqn:E; [reflexivity |].
      apply lookup_ge_None in E. rewrite length_reverse in E. lia.
    - replace (Z.of_nat k <=? Z.of_nat (length hist - (length hist - k))) with false
        by (symmetry; apply Z.leb_gt; lia).
      rewrite (proj2 (lookup_ge_None (reverse hist) (k - 1)%nat)); [reflexivity |].
      rewrite length_reverse. lia. }
  split; [| split].
  - intros hist H. unfold previous_month_close.
    rewrite (get_monthly_series_Ok yf ticker 2 hist H ltac:(lia)).
    change (Z.to_nat 2) with 2%nat.
    rewrite (Hgen 2%nat 2 (-2) hist ltac:(lia) eq_refl eq_refl). reflexivity.
  - intros hist H. unfold previous_year_close.
    rewrite (get_monthly_series_Ok yf ticker 13 hist H ltac:(lia)).
    change (Z.to_nat 13) with 13%nat.
    rewrite (Hgen 13%nat 13 (-13) hist ltac:(lia) eq_refl eq_refl). reflexivity.
  - intros e He. split; intros H.
    + unfold previous_month_close, get_monthly_series.
      change (_period_for (Z.max 12 2)) with "1y". rewrite H. simpl. rewrite He. reflexivity.
    + unfold previous_year_close, get_monthly_series.
      change (_period_for (Z.max 12 13)) with "2y". rewrite H. simpl. rewrite He. reflexivity.
Qed.

(** ** The plain-text reporter *)

(** [int(round(x))] returns for the finite floats and for no other. *)
Lemma int_round_cases (x : float) :
  (is_number x = true /\ exists n, int_round x = Ok n) \/
  (is_nan x = true /\
   int_round x = Raise (ValueError "cannot convert float NaN to integer")) \/
  (is_number x = false /\ is_nan x = false /\
   int_round x = Raise (OverflowError "cannot convert float infinity to integer")).
Proof.
  unfold int_round, is_number.
  destruct (Prim2SF x) as [s | s | | s m e] eqn:E.
  - left. eauto.
  - right. right. split; [reflexivity |]. split; [| reflexivity].
    destruct (is_nan x) eqn:En; [| reflexivity].
    apply is_nan_Prim2SF in En. congruence.
  - right. left. split; [apply is_nan_Prim2SF, E | reflexivity].
  - left. eauto.
Qed.

Lemma report_line_returns (r : Row) :
  is_number (shares r) = true -> exists line, report_line r = Ok line.
Proof.
  intros H. unfold report_line.
  destruct (int_round_cases (shares r)) as [(_ & n & ->) | [(Hn & _) | (Hf & _)]].
  - eexists; reflexivity.
  - apply is_nan_eq in Hn. rewrite Hn in H. discriminate.
  - congruence.
Qed.

Lemma format_report_body_Raise st r e :
  format_report_body st r = Raise e -> int_round (shares r) = Raise e.
Proof.
  destruct st as [[lines tu] tj]. unfold format_report_body, report_line.
  destruct (int_round (shares r)); simpl; [discriminate |].
  intros H. inversion H. reflexivity.
Qed.

(** [format_report] returns exactly when the share count of every row is a
    finite number.  Otherwise it raises what [int(round(shares))] raises on
    one of the rows: a [ValueError] for a NaN, an [OverflowError] for an
    infinity. *)
Theorem format_report_needs_finite_shares now rows usd_jpy :
  ((exists res, format_report now rows usd_jpy = Ok res) <->
   Forall (fun r => is_number (shares r) = true) rows) /\
  (forall e, format_report now rows usd_jpy = Raise e ->
     exists r, r ∈ rows /\
       (is_nan (shares r) = true /\
        e = ValueError "cannot convert float NaN to integer" \/
        is_number (shares r) = false /\ is_nan (shares r) = false /\
        e = OverflowError "cannot convert float infinity to integer")).
Proof.
  assert (Hloop : forall st e,
    for_each rows format_report_body st = Raise e ->
    exists r, r ∈ rows /\ int_round (shares r) = Raise e).
  { intros st e H. apply for_each_Raise in H as (s' & r & Hr & Hb).
    exists r. split; [exact Hr | eapply format_report_body_Raise, Hb]. }
  split; [split |].
  - intros (res & H). apply Forall_forall. intros r Hr.
    destruct (is_number (shares r)) eqn:En; [reflexivity | exfalso].
    unfold format_report in H. apply bind_Ok in H as (st & Hrun & _).
    revert Hrun. apply (for_each_never_Ok _ r rows Hr).
    intros [[lines tu] tj] s'. unfold format_report_body, report_line.
    destruct (int_round_cases (shares r)) as [(Hy & _) | [(_ & ->) | (_ & _ & ->)]];
      [congruence | discriminate | discriminate].
  - intros Hall. unfold format_report.
    destruct (for_each_total format_report_body rows) with (s := (
      [ "ポートフォリオ評価額 (" +:+ now +:+ ")  (USD/JPY 表示)"; "";
        "| SYMBOL | SHARES | USD_PRICE | USD_VALUE | JPY_PRICE | JPY_VALUE |";
        "|:------ | -----:| ---------:| ---------:| ---------:| ---------:|" ],
      0%float, 0%float)) as ([[lines tu] tj] & ->).
    + intros [[lines tu] tj] r Hr. unfold format_report_body.
      rewrite Forall_forall in Hall.
      destruct (report_line_returns r (Hall r Hr)) as (line & ->). eexists; reflexivity.
    + eexists; reflexivity.
  - intros e H. unfold format_report in H.
    destruct (for_each rows format_report_body _) as [[[lines tu] tj] | e'] eqn:Hrun;
      [discriminate |].
    simpl in H. inversion H; subst e'; clear H.
    apply Hloop in Hrun as (r & Hr & He). exists r. split; [exact Hr |].
    destruct (int_round_cases (shares r)) as [(_ & n & Hn) | [(Hy & Hn) | (Hf & Hy & Hn)]];
      rewrite Hn in He; [discriminate | left | right];
      inversion He; auto.
Qed.

(** The text of [format_report]: the title, an empty line, the two header
    lines of the table, one line for each row in the order of the rows, the
    TOTAL line with the two totals, and, when a rate is given, an empty line
    and the line of the rate. *)
Theorem format_report_layout now rows usd_jpy text tu tj :
  format_report now rows usd_jpy = Ok (text, (tu, tj)) ->
  exists row_lines,
    Forall2 (fun r line => report_line r = Ok line) rows row_lines /\
    text = join nl
             ([ "ポートフォリオ評価額 (" +:+ now +:+ ")  (USD/JPY 表示)"; "";
                "| SYMBOL | SHARES | USD_PRICE | USD_VALUE | JPY_PRICE | JPY_VALUE |";
                "|:------ | -----:| ---------:| ---------:| ---------:| ---------:|" ]
              ++ row_lines
              ++ [ "| TOTAL |  |  | " +:+ format_fixed true 2 tu
                   +:+ " |  | " +:+ format_fixed true 0 tj +:+ " |" ]
              ++ match usd_jpy with
                 | Some fx => [ ""; "為替: USD→JPY = " +:+ format_fixed true 4 fx ]
                 | None => []
                 end).
Proof.
  unfold format_report. intros H.
  apply bind_Ok in H as ([[lines u] j] & Hloop & H).
  set (head := [ "ポートフォリオ評価額 (" +:+ now +:+ ")  (USD/JPY 表示)"; "";
                 "| SYMBOL | SHARES | USD_PRICE | USD_VALUE | JPY_PRICE | JPY_VALUE |";
                 "|:------ | -----:| ---------:| ---------:| ---------:| ---------:|" ]) in *.
  pose (P := fun (seen : list Row) (s : list string * float * float) =>
    exists row_lines,
      Forall2 (fun r line => report_line r = Ok line) seen row_lines /\
      s.1.1 = head ++ row_lines).
  assert (HP : P ([] ++ rows) (lines, u, j)).
  { eapply (for_each_invariant P); [| | exact Hloop].
    - intros seen [[l a] b] r s' (row_lines & HF & Hl) Hbody. simpl in Hl.
      unfold format_report_body in Hbody.
      apply bind_Ok in Hbody as (line & Hline & Hbody). inversion Hbody; subst; clear Hbody.
      exists (row_lines ++ [line]). split.
      + apply Forall2_app; [exact HF | constructor; [exact Hline | constructor]].
      + change ((head ++ row_lines) ++ [line] = head ++ row_lines ++ [line]).
        rewrite <- app_assoc. reflexivity.
    - exists []. split; [constructor | symmetry; apply app_nil_r]. }
  destruct HP as (row_lines & HF & Hl). simpl in HF, Hl. exists row_lines.
  split; [exact HF |]. subst lines.
  destruct usd_jpy as [fx |]; inversion H; subst; f_equal;
    rewrite <- ?app_assoc, ?app_nil_r; reflexivity.
Qed.

Lemma format_report_layout_witness :
  exists row_lines,
    Forall2 (fun r line => report_line r = Ok line) scenario_rows row_lines /\
    row_lines = [ "| AAPL | 10 | 150.00 | 1,500.00 | 22,500 | 225,000 |";
                  "| 7203.T | 5 | 20.00 | 100.00 | 3,000 | 15,000 |" ] /\
    exists text,
      format_report "2026-01-05 09:00" scenario_rows (Some 150%float)
      = Ok (text, (1600%float, 240000%float)) /\
      text = join nl
               ([ "ポートフォリオ評価額 (2026-01-05 09:00)  (USD/JPY 表示)"; "";
                  "| SYMBOL | SHARES | USD_PRICE | USD_VALUE | JPY_PRICE | JPY_VALUE |";
                  "|:------ | -----:| ---------:| ---------:| ---------:| ---------:|" ]
                ++ row_lines
                ++ [ "| TOTAL |  |  | 1,600.00 |  | 240,000 |" ]
                ++ [ ""; "為替: USD→JPY = 150.0000" ]).
Proof.
  destruct (format_report_layout "2026-01-05 09:00" scenario_rows (Some 150%float)
              _ 1600%float 240000%float ltac:(vm_compute; reflexivity))
    as (row_lines & HF & Ht).
  exists row_lines. split; [exact HF |].
  assert (E : row_lines = [ "| AAPL | 10 | 150.00 | 1,500.00 | 22,500 | 225,000 |";
                            "| 7203.T | 5 | 20.00 | 100.00 | 3,000 | 15,000 |" ]).
  { inversion HF as [| r1 l1 rs1 ls1 H1 HF1]; subst.
    inversion HF1 as [| r2 l2 rs2 ls2 H2 HF2]; subst. inversion HF2; subst.
    vm_compute in H1. vm_compute in H2. injection H1 as <-. injection H2 as <-. reflexivity. }
  split; [exact E |]. eexists. split; [vm_compute; reflexivity |].
  rewrite E. vm_compute. reflexivity.
Defined.

(** ** The monthly view of the HTML reporter *)

(** Given a monthly dataset, [format_report_html] returns a document whatever
    the rows and the dataset are; it does not read the rows.  The month
    bodies fill the first table and the second table's body is empty.  The
    sums of the months are not shown: the three footer rows carry the totals
    [0.00] and [0]. *)
Theorem format_report_html_monthly_view now rows usd_jpy ds monthly_csv_text :
  exists doc,
    format_report_html now rows usd_jpy (Some ds) monthly_csv_text = Ok doc /\
    format_report_html now [] usd_jpy (Some ds) monthly_csv_text = Ok doc /\
    html_toolbar doc = true /\
    html_jpy_body doc
      = match ds_months ds with
        | [] => "<tbody></tbody>"
        | _ => join "" (imap (fun i m => (month_body ds i m).1.1) (ds_months ds))
        end /\
    html_usd_body doc = "" /\
    html_jpy_foot doc = _footer_row "TOTAL" 0 0 /\
    html_usd_foot doc = _footer_row "TOTAL" 0 0 /\
    html_overall_foot doc = _footer_row "OVERALL TOTAL" 0 0 /\
    _footer_row "TOTAL" 0 0
      = "<tr><td style='text-align:left'>TOTAL</td>"
        +:+ "<td></td><td></td><td></td><td></td><td></td><td></td>"
        +:+ "<td>0.00</td><td></td><td></td><td></td><td></td><td>0</td></tr>".
Proof.
  eexists. split; [reflexivity |]. split; [reflexivity |]. simpl.
  split; [reflexivity |]. split.
  - destruct (ds_months ds); reflexivity.
  - repeat split; reflexivity.
Qed.

(** ** More on the monthly dataset *)

Lemma dict_of_pairs_NoDup {V} (pairs : list (string * V)) (i : nat) (k : string) (v : V) :
  NoDup pairs.*1 -> pairs !! i = Some (k, v) -> dict_of_pairs pairs !! k = Some v.
Proof.
  revert i. induction pairs as [| kv pairs IH] using rev_ind; intros i Hnd Hi; [discriminate |].
  rewrite fmap_app in Hnd. apply NoDup_app in Hnd as (Hnd & Hdisj & _).
  rewrite dict_of_pairs_snoc.
  destruct (decide (i < length pairs)%nat) as [Hlt | Hge].
  - rewrite lookup_app_l in Hi by exact Hlt.
    rewrite lookup_insert_ne; [apply (IH i Hnd Hi) |].
    intros E. apply (Hdisj k).
    + apply list_elem_of_fmap. exists (k, v). split; [reflexivity |].
      eapply list_elem_of_lookup_2, Hi.
    + rewrite <- E. simpl. left.
  - assert (i = length pairs) as ->.
    { apply lookup_lt_Some in Hi. rewrite length_app in Hi. simpl in Hi. lia. }
    rewrite list_lookup_middle in Hi by reflexivity. inversion Hi; subst.
    apply lookup_insert_eq.
Qed.

(** The months of a dataset are the months of the USDJPY series, in its
    order, and every month has a rate: the one that the series gives for the
    month's label (the last one when the label occurs more than once). *)
Theorem build_monthly_dataset_months yf holdings months ds :
  build_monthly_dataset (YFinanceProvider yf) holdings months = Ok (Some ds) ->
  exists fx_pairs,
    get_monthly_series yf "USDJPY=X" months = Ok fx_pairs /\
    ds_months ds = fx_pairs.*1 /\
    Forall2 (fun m fx => exists v, fx = Some v /\ dict_of_pairs fx_pairs !! m = Some v)
            (ds_months ds) (ds_fx ds) /\
    (NoDup fx_pairs.*1 -> ds_fx ds = Some <$> fx_pairs.*2).
Proof.
  unfold build_monthly_dataset. intros H.
  apply bind_Ok in H as (fx_pairs & Hfx & H).
  apply bind_Ok in H as (rows & _ & H).
  inversion H; subst; clear H. simpl. exists fx_pairs.
  split; [exact Hfx |]. split; [reflexivity |]. split.
  - apply Forall2_fmap_r, Forall_Forall2_diag, Forall_forall. intros m Hm.
    destruct (dict_of_pairs_label fx_pairs m Hm) as (v & Hv). exists v. auto.
  - intros Hnd. apply list_eq. intros i. rewrite !list_lookup_fmap.
    destruct (fx_pairs !! i) as [[k v] |] eqn:E; simpl; [| reflexivity].
    rewrite (dict_of_pairs_NoDup fx_pairs i k v Hnd E). reflexivity.
Qed.

Lemma build_monthly_dataset_months_witness :
  exists fx_pairs,
    get_monthly_series two_month_yfinance "USDJPY=X" 12 = Ok fx_pairs /\
    ds_months two_month_dataset = fx_pairs.*1 /\
    ds_fx two_month_dataset = Some <$> fx_pairs.*2.
Proof.
  destruct (build_monthly_dataset_months two_month_yfinance scenario_holdings 12
              two_month_dataset ltac:(vm_compute; reflexivity))
    as (fx_pairs & H1 & H2 & _ & H3).
  exists fx_pairs. split; [exact H1 |]. split; [exact H2 |]. apply H3.
  vm_compute in H1. injection H1 as <-.
  repeat constructor; intros H; repeat (apply elem_of_cons in H as [H | H]; [discriminate |]);
    inversion H.
Defined.

(** [build_monthly_dataset] gives a dataset only when everything it needs is
    there: the provider answers the series call of the rate and of every
    holding, and every share count is a finite number.  One holding whose
    series call fails, or whose share count is a NaN, leaves no dataset at
    all.  With the Alpha Vantage provider there is none. *)
Theorem build_monthly_dataset_all_or_nothing yf holdings months :
  ((exists ds, build_monthly_dataset (YFinanceProvider yf) holdings months = Ok (Some ds)) <->
   (exists fx_pairs, get_monthly_series yf "USDJPY=X" months = Ok fx_pairs) /\
   Forall (fun h => (exists ser, get_monthly_series yf (h_symbol h) months = Ok ser) /\
                    is_number (h_shares h) = true) holdings) /\
  (forall av, build_monthly_dataset (AlphaVantageProvider av) holdings months = Ok None).
Proof.
  split; [| reflexivity]. split.
  - intros (ds & H). unfold build_monthly_dataset in H.
    apply bind_Ok in H as (fx_pairs & Hfx & H).
    apply bind_Ok in H as (rows & Hrows & _).
    split; [eauto |]. apply traverse_Ok in Hrows.
    apply Forall_forall. intros h Hh. apply list_elem_of_lookup in Hh as (i & Hi).
    destruct (Forall2_lookup_l _ _ _ _ _ Hrows Hi) as (r & _ & Hrow).
    apply monthly_row_Ok in Hrow as (ser & sh & Hser & Hsh & _).
    split; [eauto |].
    destruct (int_round_cases (h_shares h)) as [(Hy & _) | [(_ & Hn) | (_ & _ & Hn)]];
      [exact Hy | congruence | congruence].
  - intros ((fx_pairs & Hfx) & Hall). unfold build_monthly_dataset. rewrite Hfx.
    cbn [mbind result_bind].
    destruct (traverse_returns
                (monthly_row yf months (fx_pairs.*1) (dict_of_pairs fx_pairs)) holdings)
      as (rows & ->).
    + intros h Hh. rewrite Forall_forall in Hall. destruct (Hall h Hh) as [Hser Hnum].
      apply monthly_row_returns; [exact Hser |].
      destruct (int_round_cases (h_shares h)) as [(_ & Hn) | [(Hy & _) | (Hf & _)]];
        [exact Hn | | congruence].
      apply is_nan_eq in Hy. rewrite Hy in Hnum. discriminate.
    + eexists; reflexivity.
Qed.

(** ** Configuration and the holdings source *)

(** The key of a configuration that [load_config] returns.  When the
    environment variable is set its value is the key, whatever the file
    says.  A configuration for Alpha Vantage has a key that is not empty and
    is not a placeholder.  An environment variable set to the empty string
    hides the key of the file: the configuration for Alpha Vantage is then
    refused as one without a key. *)
Theorem load_config_key w path :
  (forall cfg, load_config w path = Ok cfg ->
     (forall k, w_env_api_key w = Some k -> api_key (price_provider cfg) = k) /\
     (w_env_api_key w = None ->
      exists raw, w_read_config w path = Ok raw /\
                  api_key (price_provider cfg) = str_or (raw_api_key raw) "") /\
     (price_provider_type cfg = "alpha_vantage" ->
      api_key (price_provider cfg) <> "" /\
      String.prefix "YOUR_" (upper (strip (api_key (price_provider cfg)))) = false)) /\
  (forall raw, w_read_config w path = Ok raw ->
     lower (str_or (raw_type raw) "yfinance") = "alpha_vantage" ->
     w_env_api_key w = Some "" ->
     load_config w path = Raise (ValueError missing_key_message)).
Proof.
  split.
  - intros cfg H. unfold load_config in H.
    apply bind_Ok in H as (raw & Hraw & H). cbv zeta in H.
    apply bind_Ok in H as ([] & Hcheck & H). inversion H; subst cfg; clear H. simpl.
    split; [| split].
    + intros k ->. simpl. destruct (decide (k = "")) as [-> | _]; reflexivity.
    + intros ->. exists raw. auto.
    + intros Ht. rewrite Ht in Hcheck. simpl in Hcheck.
      destruct (match w_env_api_key w with Some k => Some k | None => raw_api_key raw end)
        as [k |]; [| discriminate].
      simpl. destruct (decide (k = "")) as [-> | Hne]; [discriminate |].
      split; [exact Hne |].
      destruct (String.prefix "YOUR_" (upper (strip k))); [discriminate | reflexivity].
  - intros raw Hraw Ht Henv. unfold load_config. rewrite Hraw. cbn [mbind result_bind].
    cbv zeta. rewrite Ht, Henv. reflexivity.
Qed.

(** A provider type that is neither ["yfinance"] nor ["alpha_vantage"] (in
    any case of the letters) passes [load_config] without a look at the key,
    and [main] then constructs the Alpha Vantage provider for it, with the
    key that the configuration has, the empty one when it has none. *)
Theorem load_config_unknown_provider_type w path raw :
  w_read_config w path = Ok raw ->
  lower (str_or (raw_type raw) "yfinance") <> "alpha_vantage" ->
  exists cfg,
    load_config w path = Ok cfg /\
    price_provider_type cfg = lower (str_or (raw_type raw) "yfinance") /\
    (price_provider_type cfg <> "yfinance" ->
     make_provider w cfg
     = match w_alpha_vantage w (api_key (price_provider cfg)) with
       | Some o => Ok (AlphaVantageProvider o)
       | None => Raise (RuntimeError "'requests' パッケージが必要です。pip install requests で導入してください。")
       end).
Proof.
  intros Hraw Ht. unfold load_config. rewrite Hraw. cbn [mbind result_bind]. cbv zeta.
  destruct (decide (lower (str_or (raw_type raw) "yfinance") = "alpha_vantage"));
    [contradiction |].
  cbn [mbind result_bind]. eexists. split; [reflexivity |]. split; [reflexivity |].
  simpl. intros Hny. unfold make_provider. simpl.
  destruct (decide (lower (str_or (raw_type raw) "yfinance") = "yfinance")); [contradiction |].
  destruct (w_alpha_vantage w _); reflexivity.
Qed.

Lemma load_config_unknown_provider_type_witness :
  exists cfg,
    load_config world_misspelt_type "config.json" = Ok cfg /\
    price_provider_type cfg = "alphavantage" /\
    api_key (price_provider cfg) = "" /\
    exists o, make_provider world_misspelt_type cfg = Ok (AlphaVantageProvider o).
Proof.
  destruct (load_config_unknown_provider_type world_misspelt_type "config.json"
              (mkRawConfig (Some "AlphaVantage") None (Some "JPY") None) eq_refl)
    as (cfg & Hcfg & Ht & Hp).
  { vm_compute. discriminate. }
  exists cfg. split; [exact Hcfg |]. split; [exact Ht |].
  assert (E : cfg = mkAppConfig (mkAlphaVantageConfig "") "alphavantage" (Some "JPY") "USD").
  { vm_compute in Hcfg. injection Hcfg as <-. reflexivity. }
  split; [rewrite E; reflexivity |].
  eexists. rewrite Hp; [rewrite E; reflexivity | rewrite Ht; vm_compute; discriminate].
Defined.



(** ** The [.env] loader *)

Lemma dotenv_line_keeps environ line environ' key val :
  dotenv_line environ line = Ok environ' ->
  environ !! key = Some val -> environ' !! key = Some val.
Proof.
  unfold dotenv_line, environ_set. intros H Hk.
  destruct (dotenv_entry line) as [[k v] |]; [| inversion H; subst; exact Hk].
  destruct (decide (is_Some (environ !! k))) as [_ | Hnone]; [inversion H; subst; exact Hk |].
  destruct (has_nul k || has_nul v); [discriminate |]. inversion H; subst.
  rewrite lookup_insert_ne; [exact Hk |]. intros ->. apply Hnone. eauto.
Qed.

Lemma dotenv_lines_keeps lines :
  forall environ key val,
  environ !! key = Some val -> (dotenv_lines environ lines).1 !! key = Some val.
Proof.
  induction lines as [| line lines IH]; intros environ key val Hk; simpl; [exact Hk |].
  destruct (dotenv_line environ line) as [environ' | e] eqn:E; [| exact Hk].
  apply IH. eapply dotenv_line_keeps; eassumption.
Qed.

(** [_load_dotenv] respects the environment: a variable that is set keeps
    its value whatever the file says.  No [Exception] leaves the function: a
    file that cannot be read, or a line that [os.environ] refuses, ends the
    loading silently; only an interrupt passes.  Without a file nothing
    happens. *)
Theorem load_dotenv_respects_environ (file : option DotenvFile)
    (environ : gmap string string) :
  (forall key val, environ !! key = Some val ->
     (_load_dotenv file environ).1 !! key = Some val) /\
  (forall e, (_load_dotenv file environ).2 = Some e -> is_Exception e = false) /\
  _load_dotenv None environ = (environ, None).
Proof.
  split; [| split; [| reflexivity]].
  - intros key val Hk. destruct file as [f |]; [| exact Hk]. unfold _load_dotenv.
    pose proof (dotenv_lines_keeps (df_lines f) environ key val Hk) as H.
    destruct (dotenv_lines environ (df_lines f)) as [environ' stopped]. exact H.
  - intros e. destruct file as [f |]; [| discriminate]. unfold _load_dotenv.
    destruct (dotenv_lines environ (df_lines f)) as [environ' stopped]. simpl.
    destruct stopped as [e1 |]; [| destruct (df_failure f) as [e1 |]]; try discriminate;
      destruct (is_Exception e1) eqn:E; try discriminate;
      intros H; inversion H; subst; exact E.
Qed.







(** ** More on the rate limiter *)

Section RateLimiterMore.
Import RateLimiter.
Local Open Scope Q_scope.

(** A sequence of calls on a limiter that tracks the history: the limiter
    that it leaves holds at most [limit] timestamps, each of them a recorded
    one. *)
Lemma acquire_all_bounded (ds : list Delays) :
  forall (self : t) (clock : Q) (history : list Q),
  (1 <= limit self)%Z -> Forall nonneg ds ->
  tracks (per_seconds self) clock history (_times self) ->
  (Z.of_nat (length (_times self)) <= limit self)%Z ->
  exists self' clock' stamps,
    acquire_all ds self clock = Ok (self', clock', stamps) /\
    limit self' = limit self /\ per_seconds self' = per_seconds self /\
    (Z.of_nat (length (_times self')) <= limit self)%Z /\
    (forall x, In x (_times self') -> In x (_times self) \/ In x stamps).
Proof.
  induction ds as [| d ds IH]; intros self clock history Hlim Hnn Htr Hlen.
  - exists self, clock, []. simpl. auto 10.
  - inversion Hnn as [| ? ? Hd Hds]; subst.
    destruct (acquire_step d self clock history Hlim Hd Htr Hlen)
      as (self1 & stamp & Hacq & _ & Hl & Hp & Htr1 & Hlen1 & _).
    assert (Hsub : forall x, In x (_times self1) -> In x (_times self) \/ x = stamp).
    { unfold acquire in Hacq. cbv zeta in Hacq.
      apply bind_Ok in Hacq as ([times after] & Hw & Hacq).
      inversion Hacq; subst; clear Hacq. simpl. intros x Hx.
      apply in_app_or in Hx as [Hx | [Hx | []]]; [left | right; symmetry; exact Hx].
      unfold wait_if_full in Hw.
      destruct (limit self <=? _)%Z.
      - apply bind_Ok in Hw as (t0 & _ & Hw). inversion Hw; subst times; clear Hw.
        unfold prune in Hx. apply List.filter_In in Hx as [Hx _].
        apply List.filter_In in Hx as [Hx _]. exact Hx.
      - inversion Hw; subst times; clear Hw.
        unfold prune in Hx. apply List.filter_In in Hx as [Hx _]. exact Hx. }
    destruct (IH self1 stamp (history ++ [stamp]))
      as (self2 & clock2 & stamps & Hrun & Hl2 & Hp2 & Hlen2 & Hsub2).
    + rewrite Hl. exact Hlim.
    + exact Hds.
    + rewrite Hp. exact Htr1.
    + rewrite Hl. exact Hlen1.
    + exists self2, clock2, (stamp :: stamps). simpl. rewrite Hacq. cbn [mbind result_bind].
      rewrite Hrun. cbn [mbind result_bind]. split; [reflexivity |].
      split; [congruence |]. split; [congruence |]. split; [rewrite Hl in Hlen2; exact Hlen2 |].
      intros x Hx. destruct (Hsub2 x Hx) as [H1 | H2]; [| right; right; exact H2].
      destruct (Hsub x H1) as [H3 | ->]; [left; exact H3 | right; left; reflexivity].
Qed.

(** However many calls are made, a limiter with [limit >= 1] remembers at
    most [limit] timestamps, all of them timestamps it recorded. *)
Theorem acquire_keeps_at_most_limit_timestamps (limit0 : Z) (per : Q) (ds : list Delays)
    (clock0 : Q) :
  (1 <= limit0)%Z -> Forall nonneg ds ->
  exists self clock stamps,
    acquire_all ds (init limit0 per) clock0 = Ok (self, clock, stamps) /\
    (Z.of_nat (length (_times self)) <= limit0)%Z /\
    (forall x, In x (_times self) -> In x stamps).
Proof.
  intros Hlim Hds.
  destruct (acquire_all_bounded ds (init limit0 per) clock0 [])
    as (self & clock & stamps & Hrun & _ & _ & Hlen & Hsub); simpl; try assumption; try lia.
  - reflexivity.
  - exists self, clock, stamps. split; [exact Hrun |]. split; [exact Hlen |].
    intros x Hx. destruct (Hsub x Hx) as [[] | H]. exact H.
Qed.

Lemma prune_length (per now : Q) (times : list Q) :
  (length (prune per now times) <= length times)%nat.
Proof. apply filter_length_bound. Qed.

Lemma acquire_all_unhindered (ds : list Delays) :
  forall (self : t) (clock : Q),
  (Z.of_nat (length (_times self)) + Z.of_nat (length ds) <= limit self)%Z ->
  exists self' clock',
    acquire_all ds self clock = Ok (self', clock', unhindered ds clock).
Proof.
  induction ds as [| d ds IH]; intros self clock Hlen; simpl.
  - eauto.
  - unfold acquire. cbv zeta. unfold wait_if_full.
    pose proof (prune_length (per_seconds self) (clock + before_now d) (_times self)) as Hp.
    replace (limit self <=? Z.of_nat (length (prune (per_seconds self) (clock + before_now d)
                                                 (_times self))))%Z
      with false by (symmetry; apply Z.leb_gt; simpl in Hlen; lia).
    cbn [mbind result_bind mret result_ret].
    edestruct (IH (mk (limit self) (per_seconds self)
                      (prune (per_seconds self) (clock + before_now d) (_times self)
                       ++ [clock + before_now d + before_stamp d]))
                  (clock + before_now d + before_stamp d)) as (self' & clock' & ->).
    + simpl. rewrite length_app. simpl in *. lia.
    + cbn [mbind result_bind mret result_ret]. eauto.
Qed.

(** The first [limit] calls on a fresh limiter do not wait: each records the
    clock of its call plus the time that passes before its two readings,
    whatever the window is. *)
Theorem first_calls_do_not_wait (limit0 : Z) (per : Q) (ds : list Delays) (clock0 : Q) :
  (Z.of_nat (length ds) <= limit0)%Z ->
  exists self clock,
    acquire_all ds (init limit0 per) clock0 = Ok (self, clock, unhindered ds clock0).
Proof. intros H. apply acquire_all_unhindered. simpl. lia. Qed.

(** A limiter whose [limit] is zero or negative is constructed without
    complaint and fails at its first call: with no timestamp inside the
    window [acquire] reads the first element of an empty list. *)
Theorem acquire_without_room_raises (d : Delays) (self : t) (clock : Q) :
  (limit self <= 0)%Z ->
  prune (per_seconds self) (clock + before_now d) (_times self) = [] ->
  acquire d self clock = Raise (IndexError "list index out of range").
Proof.
  intros Hlim Hp. unfold acquire. cbv zeta. rewrite Hp. unfold wait_if_full. simpl.
  replace (limit self <=? Z.of_nat 0)%Z with true
    by (symmetry; apply Z.leb_le; exact Hlim).
  reflexivity.
Qed.

(** A call of [acquire] on a limiter whose timestamps are not in the future
    returns no later than one window and a twentieth of a second after it
    started, plus the time the process was held up; the timestamps of the
    limiter it leaves are not in the future either. *)
Theorem acquire_waits_at_most_one_window (d : Delays) (self self' : t) (clock stamp : Q) :
  nonneg d -> 0 <= per_seconds self ->
  Forall (fun x => x <= clock) (_times self) ->
  acquire d self clock = Ok (self', stamp) ->
  clock <= stamp /\
  stamp <= clock + (per_seconds self + (5 # 100))
           + (before_now d + oversleep d + before_renow d + before_stamp d) /\
  Forall (fun x => x <= stamp) (_times self').
Proof.
  intros (Hd1 & Hd2 & Hd3 & Hd4) Hper Hpast Hacq.
  unfold acquire in Hacq. cbv zeta in Hacq.
  set (now := clock + before_now d) in *.
  set (times1 := prune (per_seconds self) now (_times self)) in *.
  assert (Hpast1 : Forall (fun x => x <= clock) times1).
  { apply Forall_forall. intros x Hx. rewrite Forall_forall in Hpast. apply Hpast.
    apply list_elem_of_In. apply list_elem_of_In in Hx.
    unfold times1, prune in Hx. apply List.filter_In in Hx. tauto. }
  apply bind_Ok in Hacq as ([times after] & Hw & Hacq).
  inversion Hacq; subst self' stamp; clear Hacq. simpl.
  assert (Hafter : now <= after /\ after <= now + (per_seconds self + (5 # 100))
                                            + oversleep d + before_renow d /\
                   Forall (fun x => x <= clock) times).
  { unfold wait_if_full in Hw. destruct (limit self <=? _)%Z.
    - destruct times1 as [| t0 rest] eqn:Et; [discriminate |].
      change (py_index (t0 :: rest) 0) with (Ok (A := Q) t0) in Hw.
      cbn [mbind result_bind mret result_ret] in Hw. cbv zeta in Hw.
      assert (Ht0 : t0 <= clock) by (inversion Hpast1; assumption).
      assert (Hin : now - t0 < per_seconds self).
      { apply Qltb_true. change (in_window (per_seconds self) now t0 = true).
        assert (Hm : In t0 (prune (per_seconds self) now (_times self)))
          by (fold times1; rewrite Et; left; reflexivity).
        unfold prune in Hm. apply List.filter_In in Hm. tauto. }
      assert (Hsl : Qltb 0 (per_seconds self - (now - t0) + (5 # 100)) = true)
        by (apply Qltb_true; lra).
      rewrite Hsl in Hw. set (pruned := prune _ _ (t0 :: rest)) in Hw.
      injection Hw as Htimes Hafter. subst after times.
      unfold now in *. split; [lra |]. split; [lra |].
      apply Forall_forall. intros x Hx. rewrite Forall_forall in Hpast1. apply Hpast1.
      apply list_elem_of_In. apply list_elem_of_In in Hx. unfold pruned, prune in Hx.
      apply List.filter_In in Hx. tauto.
    - inversion Hw; subst times after; clear Hw. split; [lra |]. split; [lra | exact Hpast1]. }
  destruct Hafter as (Ha1 & Ha2 & Hpast2). unfold now in *.
  split; [lra |]. split; [lra |].
  apply Forall_app. split.
  - eapply Forall_impl; [exact Hpast2 |]. intros x Hx. simpl in Hx. lra.
  - repeat constructor. lra.
Qed.

End RateLimiterMore.

Lemma acquire_keeps_at_most_limit_timestamps_witness :
  exists self clock stamps,
    RateLimiter.acquire_all
      [ RateLimiter.mkDelays 0 0 0 0; RateLimiter.mkDelays 0 0 0 0;
        RateLimiter.mkDelays 0 0 0 0 ]
      (RateLimiter.init 2 1) 0 = Ok (self, clock, stamps) /\
    (Z.of_nat (length (RateLimiter._times self)) <= 2)%Z /\
    (forall x, In x (RateLimiter._times self) -> In x stamps).
Proof.
  apply (acquire_keeps_at_most_limit_timestamps 2 1
           [ RateLimiter.mkDelays 0 0 0 0; RateLimiter.mkDelays 0 0 0 0;
             RateLimiter.mkDelays 0 0 0 0 ] 0).
  - lia.
  - repeat constructor; vm_compute; discriminate.
Defined.

Lemma first_calls_do_not_wait_witness :
  exists self clock,
    RateLimiter.acquire_all
      [ RateLimiter.mkDelays (1 # 10) 0 0 0; RateLimiter.mkDelays (2 # 10) 0 0 (1 # 10) ]
      (RateLimiter.init 2 60) 0
    = Ok (self, clock,
          unhindered
            [ RateLimiter.mkDelays (1 # 10) 0 0 0; RateLimiter.mkDelays (2 # 10) 0 0 (1 # 10) ]
            0).
Proof.
  apply (first_calls_do_not_wait 2 60
           [ RateLimiter.mkDelays (1 # 10) 0 0 0; RateLimiter.mkDelays (2 # 10) 0 0 (1 # 10) ] 0).
  simpl. lia.
Defined.

Lemma acquire_without_room_raises_witness :
  RateLimiter.acquire (RateLimiter.mkDelays 0 0 0 0) (RateLimiter.init 0 60) 0
  = Raise (IndexError "list index out of range").
Proof.
  apply (acquire_without_room_raises (RateLimiter.mkDelays 0 0 0 0) (RateLimiter.init 0 60) 0).
  - simpl. lia.
  - reflexivity.
Defined.

Lemma acquire_waits_at_most_one_window_witness :
  match RateLimiter.acquire (RateLimiter.mkDelays 0 0 0 0)
          (RateLimiter.mk 2 1 [ 0%Q; 0%Q ]) 0 with
  | Ok (self', stamp) =>
      (stamp == 105 # 100)%Q /\ (0 <= stamp)%Q /\
      (stamp <= 0 + (1 + (5 # 100)) + (0 + 0 + 0 + 0))%Q
  | Raise _ => False
  end.
Proof.
  destruct (RateLimiter.acquire (RateLimiter.mkDelays 0 0 0 0)
              (RateLimiter.mk 2 1 [ 0%Q; 0%Q ]) 0) as [[self' stamp] | e] eqn:E.
  - destruct (acquire_waits_at_most_one_window (RateLimiter.mkDelays 0 0 0 0)
                (RateLimiter.mk 2 1 [ 0%Q; 0%Q ]) self' 0%Q stamp) as (H1 & H2 & _).
    + repeat split; vm_compute; discriminate.
    + vm_compute. discriminate.
    + repeat constructor; vm_compute; discriminate.
    + exact E.
    + split; [| split; [exact H1 | exact H2]].
      vm_compute in E. injection E as _ <-. reflexivity.
  - vm_compute in E. discriminate.
Defined.

(** ** [list.sort] sorts *)

Lemma sorted_by_app {A} (le : A -> A -> Prop) (l1 l2 : list A) :
  sorted_by le (l1 ++ l2) <->
  sorted_by le l1 /\ sorted_by le l2 /\ Forall (fun x => Forall (le x) l2) l1.
Proof.
  induction l1 as [| x l1 IH]; simpl.
  - split; [intros H; repeat split; [exact H | constructor] | intros (_ & H & _); exact H].
  - rewrite IH, Forall_app, Forall_cons. tauto.
Qed.

Lemma sorted_by_reverse {A} (le : A -> A -> Prop) (l : list A) :
  sorted_by le l -> sorted_by (fun a b => le b a) (reverse l).
Proof.
  induction l as [| x l IH]; simpl; [intros _; exact I |].
  intros [Hx Hl]. rewrite reverse_cons. apply sorted_by_app.
  split; [apply IH, Hl |]. split; [simpl; split; [constructor | exact I] |].
  apply Forall_reverse. eapply Forall_impl; [exact Hx |].
  intros y Hy. repeat constructor. exact Hy.
Qed.

Lemma sorted_by_impl {A} (le le' : A -> A -> Prop) (P : A -> Prop) (l : list A) :
  (forall a b, P a -> P b -> le a b -> le' a b) ->
  Forall P l -> sorted_by le l -> sorted_by le' l.
Proof.
  intros Himp. induction l as [| x l IH]; simpl; [auto |].
  intros HP [Hx Hl]. inversion HP as [| ? ? Px Pl]; subst. split; [| apply IH; assumption].
  rewrite Forall_forall in *. intros y Hy. apply Himp; auto.
Qed.

Lemma sorted_by_lookup {A} (le : A -> A -> Prop) (l : list A) (i j : nat) (a b : A) :
  sorted_by le l -> (i < j)%nat -> l !! i = Some a -> l !! j = Some b -> le a b.
Proof.
  revert i j. induction l as [| x l IH]; intros i j Hs Hij Hi Hj; [discriminate |].
  destruct Hs as [Hx Hl]. destruct j as [| j]; [lia |]. simpl in Hj.
  destruct i as [| i]; simpl in Hi.
  - inversion Hi; subst. rewrite Forall_forall in Hx. apply Hx.
    eapply list_elem_of_lookup_2, Hj.
  - apply (IH i j); [assumption | lia | assumption | assumption].
Qed.

Lemma sorted_by_take {A} (le : A -> A -> Prop) (l : list A) (n : nat) :
  sorted_by le l -> sorted_by le (take n l).
Proof.
  intros H. rewrite <- (take_drop n l) in H. apply sorted_by_app in H. tauto.
Qed.

Lemma sorted_by_drop {A} (le : A -> A -> Prop) (l : list A) (n : nat) :
  sorted_by le l -> sorted_by le (drop n l).
Proof.
  intros H. rewrite <- (take_drop n l) in H. apply sorted_by_app in H. tauto.
Qed.

Lemma filter_reverse {A} (f : A -> bool) (l : list A) :
  List.filter f (reverse l) = reverse (List.filter f l).
Proof.
  induction l as [| x l IH]; [reflexivity |].
  rewrite reverse_cons, List.filter_app, IH. simpl.
  destruct (f x); [rewrite reverse_cons; reflexivity | apply app_nil_r].
Qed.

Section SortShort.
Context {A : Type} (lt : A -> A -> bool) (good : A -> Prop).
Hypothesis lt_asym : forall a b, good a -> good b -> lt a b = true -> lt b a = false.
Hypothesis le_trans : forall a b c, good a -> good b -> good c ->
  lt b a = false -> lt c b = false -> lt c a = false.

(** [a] is not after [b]. *)
Let le (a b : A) : Prop := lt b a = false.
(** [a] is strictly after [b]. *)
Let gt (a b : A) : Prop := lt b a = true.
(** [y] is neither before nor after [z]. *)
Let same (z y : A) : bool := negb (lt z y) && negb (lt y z).

Lemma lt_le_trans a b c :
  good a -> good b -> good c -> lt a b = true -> lt c b = false -> lt a c = true.
Proof.
  intros Ga Gb Gc Hab Hbc. destruct (lt a c) eqn:E; [reflexivity |].
  rewrite (le_trans b c a Gb Gc Ga Hbc E) in Hab. discriminate.
Qed.

Lemma lt_trans a b c :
  good a -> good b -> good c -> lt a b = true -> lt b c = true -> lt a c = true.
Proof.
  intros Ga Gb Gc Hab Hbc. apply (lt_le_trans a b c); auto.
Qed.

Lemma run_ascending_sorted (l : list A) :
  forall prev, good prev -> Forall good l ->
  sorted_by le (prev :: take (run_ascending lt prev l) l).
Proof.
  induction l as [| x l IH]; intros prev Gp Gl; simpl; [split; [constructor | exact I] |].
  inversion Gl as [| ? ? Gx Gl']; subst.
  destruct (lt x prev) eqn:E; simpl; [split; [constructor | exact I] |].
  specialize (IH x Gx Gl'). split; [| exact IH]. constructor; [exact E |].
  destruct IH as [Hx _]. rewrite Forall_forall in *. intros y Hy.
  assert (Gy : good y) by (apply Gl'; eapply subseteq_take, Hy).
  unfold le. apply (le_trans prev x y); auto. apply Hx, Hy.
Qed.

Lemma run_descending_sorted (l : list A) :
  forall prev, good prev -> Forall good l ->
  sorted_by gt (prev :: take (run_descending lt prev l) l).
Proof.
  induction l as [| x l IH]; intros prev Gp Gl; simpl; [split; [constructor | exact I] |].
  inversion Gl as [| ? ? Gx Gl']; subst.
  destruct (lt x prev) eqn:E; simpl; [| split; [constructor | exact I]].
  specialize (IH x Gx Gl'). split; [| exact IH]. constructor; [exact E |].
  destruct IH as [Hx _]. rewrite Forall_forall in *. intros y Hy.
  assert (Gy : good y) by (apply Gl'; eapply subseteq_take, Hy).
  unfold gt. apply (lt_trans y x prev); auto. apply Hx, Hy.
Qed.

(** The binary search of [binarysort] in a sorted list. *)
Lemma insertion_point_spec (sorted : list A) (pivot : A) :
  sorted_by le sorted -> Forall good sorted -> good pivot ->
  forall fuel l r pos,
  (l <= r <= length sorted)%nat -> (r - l <= fuel)%nat ->
  (forall i x, (i < l)%nat -> sorted !! i = Some x -> lt pivot x = false) ->
  (forall i x, (r <= i)%nat -> sorted !! i = Some x -> lt pivot x = true) ->
  pos = insertion_point lt fuel sorted pivot l r ->
  (pos <= length sorted)%nat /\
  (forall i x, (i < pos)%nat -> sorted !! i = Some x -> lt pivot x = false) /\
  (forall i x, (pos <= i)%nat -> sorted !! i = Some x -> lt pivot x = true).
Proof.
  intros Hs Gs Gp. rewrite Forall_forall in Gs.
  assert (Gi : forall i x, sorted !! i = Some x -> good x)
    by (intros i x Hi; apply Gs; eapply list_elem_of_lookup_2, Hi).
  induction fuel as [| fuel IH]; intros l r pos Hlr Hfuel Hlow Hhigh ->;
    cbn [insertion_point].
  - assert (l = r) by lia. subst r. split; [lia |]. split; assumption.
  - destruct (l <? r)%nat eqn:E.
    + apply Nat.ltb_lt in E. cbv zeta.
      assert (Hp : (l <= l + (r - l) / 2 < r)%nat).
      { pose proof (Nat.Div0.div_lt_upper_bound (r - l) 2 (r - l)). lia. }
      set (p := (l + (r - l) / 2)%nat) in *.
      destruct (sorted !! p) as [x |] eqn:Ex.
      2:{ apply lookup_ge_None in Ex. lia. }
      destruct (lt pivot x) eqn:Ec.
      * apply (IH l p); [lia | lia | exact Hlow | | reflexivity].
        intros i y Hi Hy. destruct (decide (i = p)) as [-> | Hne]; [congruence |].
        apply (lt_le_trans pivot x y); eauto.
        apply (sorted_by_lookup le sorted p i x y Hs); [lia | assumption | assumption].
      * apply (IH (S p) r); [lia | lia | | exact Hhigh | reflexivity].
        intros i y Hi Hy. destruct (decide (i = p)) as [-> | Hne]; [congruence |].
        apply (le_trans y x pivot); eauto.
        apply (sorted_by_lookup le sorted i p y x Hs); [lia | assumption | assumption].
    + apply Nat.ltb_ge in E. assert (l = r) by lia. subst r.
      split; [lia |]. split; assumption.
Qed.

(** One insertion of [binarysort]: the list stays sorted, and the elements
    that compare equal keep their order, the new one last. *)
Lemma binarysort_step (sorted : list A) (pivot : A) :
  sorted_by le sorted -> Forall good sorted -> good pivot ->
  let pos := insertion_point lt (length sorted) sorted pivot O (length sorted) in
  sorted_by le (take pos sorted ++ pivot :: drop pos sorted) /\
  forall z, good z ->
    List.filter (same z) (take pos sorted ++ pivot :: drop pos sorted)
    = List.filter (same z) (sorted ++ [pivot]).
Proof.
  intros Hs Gs Gp.
  destruct (insertion_point_spec sorted pivot Hs Gs Gp (length sorted) O (length sorted)
              (insertion_point lt (length sorted) sorted pivot O (length sorted)))
    as (Hpos & Hlow & Hhigh); [lia | lia | intros; lia | | reflexivity |].
  { intros i x Hi Hx. apply lookup_lt_Some in Hx. lia. }
  set (pos := insertion_point lt (length sorted) sorted pivot O (length sorted)) in *.
  cbv zeta.
  assert (Gall : forall x, x ∈ sorted -> good x) by (apply Forall_forall, Gs).
  assert (Hbefore : Forall (fun x => lt pivot x = false) (take pos sorted)).
  { apply Forall_forall. intros x Hx. apply list_elem_of_lookup in Hx as (i & Hi).
    apply lookup_take_Some in Hi as [Hi Hlt]. eapply Hlow; eassumption. }
  assert (Hafter : Forall (fun x => lt pivot x = true) (drop pos sorted)).
  { apply Forall_forall. intros x Hx. apply list_elem_of_lookup in Hx as (i & Hi).
    rewrite lookup_drop in Hi. eapply (Hhigh (pos + i)%nat); [lia | exact Hi]. }
  split.
  - pose proof Hs as Hs'. rewrite <- (take_drop pos sorted) in Hs'.
    apply sorted_by_app in Hs' as (Ht & Hd & Htd).
    apply sorted_by_app. split; [exact Ht |]. split.
    + simpl. split; [| exact Hd]. rewrite Forall_forall in *. intros y Hy.
      unfold le. apply lt_asym; [exact Gp | | apply Hafter, Hy].
      apply Gall. eapply subseteq_drop, Hy.
    + apply Forall_forall. intros x Hx. constructor.
      * rewrite Forall_forall in Hbefore. apply Hbefore, Hx.
      * rewrite Forall_forall in Htd. apply Htd, Hx.
  - intros z Gz. rewrite <- (take_drop pos sorted) at 3.
    rewrite !List.filter_app. simpl.
    destruct (same z pivot) eqn:Ez; [| rewrite app_nil_r; reflexivity].
    assert (Hnone : List.filter (same z) (drop pos sorted) = []).
    { assert (Gd : Forall good (drop pos sorted)).
      { apply Forall_forall. intros y Hy. apply Gall. eapply subseteq_drop, Hy. }
      induction (drop pos sorted) as [| y l IHl]; [reflexivity |]. simpl.
      inversion Hafter as [| ? ? Hy Hl]; subst. inversion Gd as [| ? ? Gy Gl]; subst.
      destruct (same z y) eqn:Ey; [exfalso | apply IHl; assumption].
      unfold same in Ez, Ey.
      apply andb_true_iff in Ez as [_ Ez]. apply andb_true_iff in Ey as [Ey _].
      apply negb_true_iff in Ez, Ey.
      rewrite (lt_le_trans pivot y z Gp Gy Gz Hy Ey) in Ez. discriminate. }
    rewrite Hnone. rewrite app_nil_r. reflexivity.
Qed.

Lemma binarysort_sorted (rest : list A) :
  forall sorted, sorted_by le sorted -> Forall good sorted -> Forall good rest ->
  sorted_by le (binarysort lt sorted rest) /\
  forall z, good z ->
    List.filter (same z) (binarysort lt sorted rest) = List.filter (same z) (sorted ++ rest).
Proof.
  induction rest as [| pivot rest IH]; intros sorted Hs Gs Gr; simpl.
  - split; [exact Hs |]. intros z _. rewrite app_nil_r. reflexivity.
  - inversion Gr as [| ? ? Gp Gr']; subst.
    destruct (binarysort_step sorted pivot Hs Gs Gp) as [Hs' Hf'].
    set (sorted' := take _ sorted ++ pivot :: drop _ sorted) in *.
    assert (Gs' : Forall good sorted').
    { unfold sorted'. apply Forall_app. split.
      - eapply Forall_impl; [apply Forall_take, Gs | auto].
      - constructor; [exact Gp |]. apply Forall_drop, Gs. }
    destruct (IH sorted' Hs' Gs' Gr') as [Hs'' Hf'']. split; [exact Hs'' |].
    intros z Gz. rewrite (Hf'' z Gz), List.filter_app, (Hf' z Gz), <- List.filter_app.
    rewrite <- app_assoc. reflexivity.
Qed.

(** The elements of a strictly descending list that compare equal to [z]:
    one at most. *)
Lemma descending_same_once (run : list A) (z : A) :
  sorted_by gt run -> Forall good run -> good z ->
  (length (List.filter (same z) run) <= 1)%nat.
Proof.
  intros Hs Gr Gz. induction run as [| x run IH]; simpl; [lia |].
  destruct Hs as [Hx Hs]. inversion Gr as [| ? ? Gx Gr']; subst.
  specialize (IH Hs Gr'). destruct (same z x) eqn:Ex; [| exact IH].
  assert (Hnone : List.filter (same z) run = []).
  { clear IH Hs Gr. induction run as [| y run IHr]; [reflexivity |]. simpl.
    inversion Hx as [| ? ? Hy Hx']; subst. inversion Gr' as [| ? ? Gy Gr'']; subst.
    destruct (same z y) eqn:Ey; [exfalso | apply IHr; assumption].
    unfold same in Ex, Ey.
    apply andb_true_iff in Ex as [Ex _]. apply andb_true_iff in Ey as [_ Ey].
    apply negb_true_iff in Ex, Ey.
    rewrite (lt_le_trans y x z Gy Gx Gz Hy Ex) in Ey. discriminate. }
  rewrite Hnone. simpl. lia.
Qed.

Lemma count_run_sorted (l : list A) (n : nat) (descending : bool) :
  Forall good l -> count_run lt l = (n, descending) ->
  if descending then sorted_by gt (take n l) else sorted_by le (take n l).
Proof.
  intros Gl H. destruct l as [| x [| y l]]; simpl in H.
  - inversion H; subst. exact I.
  - inversion H; subst. simpl. split; [constructor | exact I].
  - inversion Gl as [| ? ? Gx Gl']; subst. inversion Gl' as [| ? ? Gy Gl'']; subst.
    destruct (lt y x) eqn:E; inversion H; subst; clear H.
    + change (take (2 + run_descending lt y l) (x :: y :: l))
        with (x :: y :: take (run_descending lt y l) l).
      pose proof (run_descending_sorted l y Gy Gl'') as Hd.
      split; [| exact Hd]. constructor; [exact E |].
      destruct Hd as [Hy _]. rewrite Forall_forall in *. intros z Hz.
      assert (Gz : good z) by (apply Gl''; eapply subseteq_take, Hz).
      unfold gt. apply (lt_trans z y x); auto. apply Hy, Hz.
    + change (take (2 + run_ascending lt y l) (x :: y :: l))
        with (x :: y :: take (run_ascending lt y l) l).
      pose proof (run_ascending_sorted l y Gy Gl'') as Ha.
      split; [| exact Ha]. constructor; [exact E |].
      destruct Ha as [Hy _]. rewrite Forall_forall in *. intros z Hz.
      assert (Gz : good z) by (apply Gl''; eapply subseteq_take, Hz).
      unfold le. apply (le_trans x y z); auto. apply Hy, Hz.
Qed.

(** The sort of a short list: the result is sorted, and elements that
    compare equal keep the order they came in. *)
Lemma sort_short_sorted (l : list A) :
  Forall good l ->
  sorted_by le (sort_short lt l) /\
  forall z, good z -> List.filter (same z) (sort_short lt l) = List.filter (same z) l.
Proof.
  intros Gl. unfold sort_short. destruct (length l <? 2)%nat eqn:E.
  - split; [| reflexivity]. apply Nat.ltb_lt in E.
    destruct l as [| x [| y l]]; simpl in *; [exact I | split; [constructor | exact I] | lia].
  - destruct (count_run lt l) as [n descending] eqn:Ec.
    pose proof (count_run_sorted l n descending Gl Ec) as Hrun.
    assert (Gt : Forall good (take n l)) by apply Forall_take, Gl.
    assert (Gd : Forall good (drop n l)) by apply Forall_drop, Gl.
    set (run := if descending then reverse (take n l) else take n l).
    assert (Hs : sorted_by le run).
    { unfold run. destruct descending; [| exact Hrun].
      apply (sorted_by_impl (fun a b => gt b a) le good).
      - intros a b Ga Gb Hab. unfold le. apply lt_asym; assumption.
      - apply Forall_reverse, Gt.
      - apply sorted_by_reverse, Hrun. }
    assert (Gr : Forall good run).
    { unfold run. destruct descending; [apply Forall_reverse |]; exact Gt. }
    assert (Hf : forall z, good z ->
                 List.filter (same z) run = List.filter (same z) (take n l)).
    { intros z Gz. unfold run. destruct descending; [| reflexivity].
      rewrite filter_reverse.
      pose proof (descending_same_once (take n l) z Hrun Gt Gz) as Hlen.
      destruct (List.filter (same z) (take n l)) as [| a [| b r]]; simpl in Hlen;
        [reflexivity | reflexivity | lia]. }
    destruct (binarysort_sorted (drop n l) run Hs Gr Gd) as [Hs' Hf']. split; [exact Hs' |].
    intros z Gz. rewrite (Hf' z Gz), List.filter_app, (Hf z Gz), <- List.filter_app, take_drop.
    reflexivity.
Qed.

Lemma same_refl (z : A) : good z -> same z z = true.
Proof.
  intros Gz. unfold same.
  assert (H : lt z z = false).
  { destruct (lt z z) eqn:E; [| reflexivity]. rewrite (lt_asym z z Gz Gz E) in E. discriminate. }
  rewrite H. reflexivity.
Qed.

Lemma filter_elem (f : A -> bool) (l : list A) (x : A) (rest : list A) :
  List.filter f l = x :: rest -> x ∈ l.
Proof.
  intros H. apply list_elem_of_In.
  assert (Hin : In x (List.filter f l)) by (rewrite H; left; reflexivity).
  apply List.filter_In in Hin. tauto.
Qed.

(** A list has one sorted arrangement that keeps the order of the elements
    that compare equal. *)
Lemma stable_sorted_unique (l1 : list A) :
  forall l2, Forall good l1 -> Forall good l2 ->
  sorted_by le l1 -> sorted_by le l2 ->
  (forall z, good z -> List.filter (same z) l1 = List.filter (same z) l2) ->
  l1 = l2.
Proof.
  induction l1 as [| x l1 IH]; intros l2 G1 G2 S1 S2 Hf.
  - destruct l2 as [| y l2]; [reflexivity |]. inversion G2 as [| ? ? Gy _]; subst.
    specialize (Hf y Gy). simpl in Hf. rewrite (same_refl y Gy) in Hf. discriminate.
  - inversion G1 as [| ? ? Gx G1']; subst.
    destruct l2 as [| y l2].
    { specialize (Hf x Gx). simpl in Hf. rewrite (same_refl x Gx) in Hf. discriminate. }
    inversion G2 as [| ? ? Gy G2']; subst.
    destruct S1 as [Hx S1]. destruct S2 as [Hy S2].
    assert (Hyx : lt y x = false).
    { destruct (lt y x) eqn:E; [exfalso | reflexivity].
      pose proof (Hf y Gy) as H.
      replace (List.filter (same y) (y :: l2)) with (y :: List.filter (same y) l2) in H
        by (simpl; rewrite (same_refl y Gy); reflexivity).
      apply filter_elem in H. apply elem_of_cons in H as [-> | H].
      - rewrite (lt_asym x x Gx Gx E) in E. discriminate.
      - rewrite Forall_forall in Hx. specialize (Hx y H). unfold le in Hx. congruence. }
    assert (Hxy : lt x y = false).
    { destruct (lt x y) eqn:E; [exfalso | reflexivity].
      pose proof (Hf x Gx) as H. symmetry in H.
      replace (List.filter (same x) (x :: l1)) with (x :: List.filter (same x) l1) in H
        by (simpl; rewrite (same_refl x Gx); reflexivity).
      apply filter_elem in H. apply elem_of_cons in H as [-> | H].
      - rewrite (lt_asym y y Gy Gy E) in E. discriminate.
      - rewrite Forall_forall in Hy. specialize (Hy x H). unfold le in Hy. congruence. }
    assert (E : x = y).
    { pose proof (Hf x Gx) as H. cbn [List.filter] in H. rewrite (same_refl x Gx) in H.
      unfold same at 2 in H. rewrite Hxy, Hyx in H. simpl in H. congruence. }
    subst y. f_equal. apply IH; try assumption.
    intros z Gz. specialize (Hf z Gz). cbn [List.filter] in Hf.
    destruct (same z x); [congruence | exact Hf].
Qed.

End SortShort.

(** ** The order of the floats that are numbers or infinities *)

(** [SFcompare] on two floats that are not NaN compares their ranks. *)
Lemma SFcompare_rank (f g : spec_float) :
  f <> S754_nan -> g <> S754_nan ->
  exists c, SFcompare f g = Some c /\
    (c = Lt <-> rank_lt (float_rank f) (float_rank g)) /\
    (c = Gt <-> rank_lt (float_rank g) (float_rank f)).
Proof.
  intros Hf Hg. unfold rank_lt.
  destruct f as [s | s | | s m e], g as [s' | s' | | s' m' e']; try congruence;
    repeat match goal with s : bool |- _ => destruct s end; simpl;
    try change (PosDef.Pos.compare_cont Eq m m') with (Pos.compare m m');
    try destruct (Z.compare_spec e e'); try destruct (Pos.compare_spec m m'); simpl;
    (eexists; split; [reflexivity |]);
    split; split; intros Hc; try discriminate Hc; try lia; reflexivity.
Qed.

Lemma not_nan_Prim2SF (x : float) : is_nan x = false -> Prim2SF x <> S754_nan.
Proof. intros H E. apply is_nan_Prim2SF in E. congruence. Qed.

Lemma ltb_rank (x y : float) :
  is_nan x = false -> is_nan y = false ->
  ((x <? y)%float = true <-> rank_lt (float_rank (Prim2SF x)) (float_rank (Prim2SF y))).
Proof.
  intros Hx Hy. rewrite FloatAxioms.ltb_spec. unfold SFltb.
  destruct (SFcompare_rank _ _ (not_nan_Prim2SF x Hx) (not_nan_Prim2SF y Hy))
    as (c & -> & Hlt & _).
  rewrite <- Hlt. destruct c; split; congruence.
Qed.

Lemma eqb_rank (x y : float) :
  is_nan x = false -> is_nan y = false ->
  ((x =? y)%float = true <->
   ~ rank_lt (float_rank (Prim2SF x)) (float_rank (Prim2SF y)) /\
   ~ rank_lt (float_rank (Prim2SF y)) (float_rank (Prim2SF x))).
Proof.
  intros Hx Hy. rewrite FloatAxioms.eqb_spec. unfold SFeqb.
  destruct (SFcompare_rank _ _ (not_nan_Prim2SF x Hx) (not_nan_Prim2SF y Hy))
    as (c & -> & Hlt & Hgt).
  rewrite <- Hlt, <- Hgt. destruct c; split; try congruence; try tauto.
  intros _. split; discriminate.
Qed.

Lemma ltb_asym (x y : float) :
  is_nan x = false -> is_nan y = false -> (x <? y)%float = true -> (y <? x)%float = false.
Proof.
  intros Hx Hy H. apply (ltb_rank x y Hx Hy) in H.
  destruct (y <? x)%float eqn:E; [| reflexivity].
  apply (ltb_rank y x Hy Hx) in E. unfold rank_lt in *. lia.
Qed.

Lemma not_ltb_trans (x y z : float) :
  is_nan x = false -> is_nan y = false -> is_nan z = false ->
  (y <? x)%float = false -> (z <? y)%float = false -> (z <? x)%float = false.
Proof.
  intros Hx Hy Hz Hyx Hzy. destruct (z <? x)%float eqn:E; [| reflexivity].
  apply (ltb_rank z x Hz Hx) in E.
  assert (N1 : ~ rank_lt (float_rank (Prim2SF y)) (float_rank (Prim2SF x)))
    by (intros H; apply (ltb_rank y x Hy Hx) in H; congruence).
  assert (N2 : ~ rank_lt (float_rank (Prim2SF z)) (float_rank (Prim2SF y)))
    by (intros H; apply (ltb_rank z y Hz Hy) in H; congruence).
  unfold rank_lt in *. lia.
Qed.

(** Two floats that are not NaN are equal for [==] exactly when neither is
    [<] the other. *)
Lemma eqb_not_ltb (x y : float) :
  is_nan x = false -> is_nan y = false ->
  (x =? y)%float = negb (x <? y)%float && negb (y <? x)%float.
Proof.
  intros Hx Hy. pose proof (eqb_rank x y Hx Hy) as He.
  pose proof (ltb_rank x y Hx Hy) as H1. pose proof (ltb_rank y x Hy Hx) as H2.
  destruct (x =? y)%float, (x <? y)%float, (y <? x)%float; simpl; try reflexivity;
    exfalso; intuition congruence.
Qed.

(** ** The sort of [main] on values that are not NaN *)

Lemma list_sort_sorted {A} (key : A -> float) (reverse_flag : bool) (l : list A) :
  Forall (fun a => is_nan (key a) = false) l ->
  sorted_by (fun a b => if reverse_flag then (key a <? key b)%float = false
                        else (key b <? key a)%float = false)
            (list_sort key reverse_flag l) /\
  (forall z, is_nan (key z) = false ->
     List.filter (fun a => (key z =? key a)%float) (list_sort key reverse_flag l)
     = List.filter (fun a => (key z =? key a)%float) l) /\
  (forall other,
     Forall (fun a => is_nan (key a) = false) other ->
     sorted_by (fun a b => if reverse_flag then (key a <? key b)%float = false
                           else (key b <? key a)%float = false) other ->
     (forall z, is_nan (key z) = false ->
        List.filter (fun a => (key z =? key a)%float) other
        = List.filter (fun a => (key z =? key a)%float) l) ->
     other = list_sort key reverse_flag l).
Proof.
  intros Gl. unfold list_sort.
  set (lt := fun a b => (key a <? key b)%float).
  set (good := fun a => is_nan (key a) = false).
  assert (Hasym : forall a b, good a -> good b -> lt a b = true -> lt b a = false)
    by (intros a b; apply ltb_asym).
  assert (Htrans : forall a b c, good a -> good b -> good c ->
                     lt b a = false -> lt c b = false -> lt c a = false)
    by (intros a b c; apply not_ltb_trans).
  assert (Hsame : forall (l0 : list A) z, good z -> Forall good l0 ->
            List.filter (fun a => (key z =? key a)%float) l0
            = List.filter (fun y => negb (lt z y) && negb (lt y z)) l0).
  { intros l0 z Gz Gl0. induction Gl0 as [| a l0 Ga _ IH]; [reflexivity |].
    simpl. rewrite IH. unfold lt. rewrite (eqb_not_ltb (key z) (key a) Gz Ga). reflexivity. }
  assert (Gsort : forall l0, Forall good l0 -> Forall good (sort_short lt l0)).
  { intros l0 G0. apply Forall_forall. intros a Ha. rewrite Forall_forall in G0. apply G0.
    rewrite <- (sort_short_permutation lt l0). exact Ha. }
  destruct reverse_flag.
  - assert (Gr : Forall good (reverse l)) by apply Forall_reverse, Gl.
    destruct (sort_short_sorted lt good Hasym Htrans (reverse l) Gr) as [Hs Hf].
    split; [| split].
    + apply (sorted_by_reverse _ _ Hs).
    + intros z Gz. rewrite Hsame; [| exact Gz | apply Forall_reverse, Gsort, Gr].
      rewrite filter_reverse, (Hf z Gz), filter_reverse, reverse_involutive.
      symmetry. apply Hsame; assumption.
    + intros other Go So Fo.
      rewrite <- (reverse_involutive other). f_equal.
      apply (stable_sorted_unique lt good Hasym).
      * apply Forall_reverse, Go.
      * apply Gsort, Gr.
      * apply (sorted_by_reverse _ _ So).
      * exact Hs.
      * intros z Gz. rewrite (Hf z Gz), !filter_reverse. f_equal.
        rewrite <- (Hsame other z Gz Go), <- (Hsame l z Gz Gl). apply Fo, Gz.
  - destruct (sort_short_sorted lt good Hasym Htrans l Gl) as [Hs Hf].
    split; [exact Hs | split].
    + intros z Gz. rewrite Hsame; [| exact Gz | apply Gsort, Gl].
      rewrite (Hf z Gz). symmetry. apply Hsame; assumption.
    + intros other Go So Fo.
      apply (stable_sorted_unique lt good Hasym); try assumption.
      * apply Gsort, Gl.
      * intros z Gz. rewrite (Hf z Gz).
        rewrite <- (Hsame other z Gz Go), <- (Hsame l z Gz Gl). apply Fo, Gz.
Qed.

(** The sort of [main] on rows whose values are not NaN: the rows come out
    in the order asked for (descending: no row has a smaller value than a
    later one; ascending: no row has a larger value than a later one), they
    are the rows that went in, and rows of equal value keep the order they
    had.  There is one such arrangement of the rows: whatever puts the rows
    in the order asked for and keeps the order of the rows of equal value
    gives the list that the binary insertion sort of the model gives. *)
Theorem sort_rows_sorts_numbers (sort_by sort_order : string) (rows : list Row) :
  sort_by <> "none" ->
  let key := fun r => if decide (sort_by = "usd") then usd_value r else jpy_value r in
  Forall (fun r => is_nan (key r) = false) rows ->
  let sorted := sort_rows sort_by sort_order rows in
  sorted ≡ₚ rows /\
  (forall i j a b, (i < j)%nat -> sorted !! i = Some a -> sorted !! j = Some b ->
     if decide (sort_order = "desc") then (key a <? key b)%float = false
     else (key b <? key a)%float = false) /\
  (forall k, is_nan k = false ->
     List.filter (fun r => (k =? key r)%float) sorted
     = List.filter (fun r => (k =? key r)%float) rows) /\
  (forall other,
     Forall (fun r => is_nan (key r) = false) other ->
     sorted_by (fun a b => if decide (sort_order = "desc") then (key a <? key b)%float = false
                           else (key b <? key a)%float = false) other ->
     (forall k, is_nan k = false ->
        List.filter (fun r => (k =? key r)%float) other
        = List.filter (fun r => (k =? key r)%float) rows) ->
     other = sorted).
Proof.
  intros Hsort key Hnum sorted. split; [apply sort_rows_permutation |].
  assert (E : sorted = list_sort key (bool_decide (sort_order = "desc")) rows).
  { unfold sorted, sort_rows. destruct (decide (sort_by = "none")); [contradiction | reflexivity]. }
  destruct (list_sort_sorted key (bool_decide (sort_order = "desc")) rows Hnum)
    as (Hs & Hf & Hu).
  rewrite <- E in Hs, Hf, Hu.
  assert (Hflag : forall a b : Row,
            (if bool_decide (sort_order = "desc") then (key a <? key b)%float = false
             else (key b <? key a)%float = false)
            <-> (if decide (sort_order = "desc") then (key a <? key b)%float = false
                 else (key b <? key a)%float = false)).
  { intros a b. destruct (decide (sort_order = "desc")) as [Hd | Hd].
    - rewrite bool_decide_eq_true_2 by exact Hd. reflexivity.
    - rewrite bool_decide_eq_false_2 by exact Hd. reflexivity. }
  split; [| split].
  - intros i j a b Hij Ha Hb. apply Hflag.
    apply (sorted_by_lookup _ sorted i j a b Hs Hij Ha Hb).
  - intros k Hk.
    set (z := mkRow "" 0 "" 0 k 0 k nan nan nan nan nan nan nan None).
    assert (Hz : key z = k) by (unfold key; destruct (decide (sort_by = "usd")); reflexivity).
    specialize (Hf z). rewrite Hz in Hf. apply Hf, Hk.
  - intros other Go So Fo. apply Hu; [exact Go | |].
    + eapply (sorted_by_impl _ _ (fun _ => True) other); [| apply Forall_forall; auto | exact So].
      intros a b _ _ H. apply Hflag, H.
    + intros z Gz. apply Fo, Gz.
Qed.

Lemma sort_rows_sorts_numbers_witness :
  jpy_value <$> sort_rows "jpy" "desc" tied_rows = [ 300%float; 100%float; 100%float ] /\
  symbol <$> sort_rows "jpy" "desc" tied_rows = [ "C"; "A"; "B" ] /\
  sort_rows "jpy" "desc" tied_rows ≡ₚ tied_rows /\
  List.filter (fun r => (100 =? jpy_value r)%float) (sort_rows "jpy" "desc" tied_rows)
  = List.filter (fun r => (100 =? jpy_value r)%float) tied_rows.
Proof.
  split; [vm_compute; reflexivity |]. split; [vm_compute; reflexivity |].
  destruct (sort_rows_sorts_numbers "jpy" "desc" tied_rows) as (Hp & _ & Hf & _).
  - discriminate.
  - repeat constructor.
  - split; [exact Hp |]. apply (Hf 100%float). reflexivity.
Defined.

(** ** Thousands separators and the client-side reading of a cell *)

Lemma remove_commas_app (a b : string) :
  remove_commas (a +:+ b) = remove_commas a +:+ remove_commas b.
Proof.
  induction a as [| c a IH]; [reflexivity |].
  rewrite string_app_cons. simpl. destruct (Ascii.eqb c ","); rewrite IH; reflexivity.
Qed.

Lemma remove_commas_list (l : list ascii) :
  remove_commas (String.string_of_list_ascii l)
  = String.string_of_list_ascii (List.filter (fun c => negb (Ascii.eqb c ",")) l).
Proof.
  induction l as [| c l IH]; [reflexivity |]. simpl.
  destruct (Ascii.eqb c ","); simpl; rewrite IH; reflexivity.
Qed.

Lemma group3_step (a b c d : ascii) (rest : list ascii) :
  group3 (a :: b :: c :: d :: rest) = a :: b :: c :: ","%char :: group3 (d :: rest).
Proof. reflexivity. Qed.

(** The separators of [group3] are all that a filter for commas takes out. *)
Lemma group3_filter (n : nat) :
  forall l : list ascii, (length l <= n)%nat ->
  Forall (fun c => Ascii.eqb c "," = false) l ->
  List.filter (fun c => negb (Ascii.eqb c ",")) (group3 l) = l.
Proof.
  induction n as [n IH] using lt_wf_ind. intros l Hlen Hl.
  destruct l as [| a [| b [| c [| d rest]]]].
  - reflexivity.
  - inversion Hl as [| ? ? Ha _]; subst. simpl. rewrite Ha. reflexivity.
  - inversion Hl as [| ? ? Ha Hl1]; subst. inversion Hl1 as [| ? ? Hb _]; subst.
    simpl. rewrite Ha, Hb. reflexivity.
  - inversion Hl as [| ? ? Ha Hl1]; subst. inversion Hl1 as [| ? ? Hb Hl2]; subst.
    inversion Hl2 as [| ? ? Hc _]; subst. simpl. rewrite Ha, Hb, Hc. reflexivity.
  - inversion Hl as [| ? ? Ha Hl1]; subst. inversion Hl1 as [| ? ? Hb Hl2]; subst.
    inversion Hl2 as [| ? ? Hc Hl3]; subst.
    rewrite group3_step. cbn [List.filter]. rewrite Ha, Hb, Hc.
    change (Ascii.eqb "," ",") with true. cbn [negb].
    do 3 f_equal. apply (IH (length (d :: rest))); [simpl in *; lia | lia | exact Hl3].
Qed.

Lemma all_digits_no_comma (s : string) :
  all_digits s = true ->
  Forall (fun c => Ascii.eqb c "," = false) (String.list_ascii_of_string s).
Proof.
  induction s as [| c s IH]; simpl; [constructor |].
  intros H. apply andb_true_iff in H as [Hc Hs]. constructor; [| apply IH, Hs].
  apply bool_decide_eq_true in Hc. destruct Hc as [d Hd].
  destruct (Ascii.eqb c ",") eqn:E; [| reflexivity].
  apply Ascii.eqb_eq in E. subst c. discriminate.
Qed.

Lemma remove_commas_digits (s : string) : all_digits s = true -> remove_commas s = s.
Proof.
  intros H. apply all_digits_no_comma in H.
  rewrite <- (String.string_of_list_ascii_of_string s) at 1 2.
  rewrite remove_commas_list. f_equal.
  induction H as [| c l Hc _ IH]; [reflexivity |]. simpl. rewrite Hc. simpl. rewrite IH.
  reflexivity.
Qed.

Lemma remove_commas_with_commas (digits : string) :
  all_digits digits = true -> remove_commas (with_commas digits) = digits.
Proof.
  intros H. unfold with_commas. rewrite remove_commas_list.
  rewrite <- (String.string_of_list_ascii_of_string digits) at 2. f_equal.
  apply all_digits_no_comma in H.
  assert (Hr : Forall (fun c => Ascii.eqb c "," = false)
                 (rev (String.list_ascii_of_string digits))).
  { apply Forall_forall. intros c Hc. rewrite Forall_forall in H. apply H.
    apply list_elem_of_In. apply list_elem_of_In in Hc. apply in_rev. exact Hc. }
  rewrite <- (rev_involutive (String.list_ascii_of_string digits)) at 2.
  rewrite <- (group3_filter _ _ (le_n _) Hr) at 2.
  generalize (group3 (rev (String.list_ascii_of_string digits))). intros l.
  induction l as [| c l IH]; [reflexivity |]. simpl.
  rewrite List.filter_app, IH. simpl. destruct (Ascii.eqb c ","); simpl;
    [rewrite app_nil_r |]; reflexivity.
Qed.

Lemma all_digits_of_Z (n : Z) : all_digits (digits_of_Z n) = true.
Proof. apply all_digits_fixed. Qed.

Lemma remove_commas_format_units (prec : nat) (units : Z) :
  remove_commas (format_units true prec units) = format_units false prec units.
Proof.
  unfold format_units. rewrite remove_commas_app, (remove_commas_with_commas _ (all_digits_of_Z _)).
  f_equal. destruct prec as [| prec]; [reflexivity |].
  rewrite remove_commas_app. f_equal. apply remove_commas_digits, all_digits_fixed.
Qed.

(** The commas that Python's [,] format puts in a number are what
    [getCellValue] takes out of the text of a cell without a [data-value]
    (the SHARES cell of the monthly view): what is left is the number printed
    without separators, which for a whole number reads back as that
    number. *)
Theorem cell_text_without_commas (n : Z) (prec : nat) (x : float) :
  cell_number_text None (format_int true n) = format_int false n /\
  (0 <= n -> read_digits 0 (cell_number_text None (format_int true n)) = Some n) /\
  (n < 0 -> exists digits,
     cell_number_text None (format_int true n) = "-" +:+ digits /\
     read_digits 0 digits = Some (- n)) /\
  cell_number_text None (format_fixed true prec x) = format_fixed false prec x.
Proof.
  assert (H1 : cell_number_text None (format_int true n) = format_int false n).
  { unfold cell_number_text, format_int. rewrite remove_commas_app.
    rewrite (remove_commas_with_commas _ (all_digits_of_Z _)).
    destruct (n <? 0); reflexivity. }
  split; [exact H1 |]. split; [| split].
  - intros Hn. rewrite H1. unfold format_int.
    replace (n <? 0) with false by (symmetry; apply Z.ltb_ge; lia).
    rewrite string_app_nil, Z.abs_eq by lia. apply read_digits_of_Z, Hn.
  - intros Hn. rewrite H1. unfold format_int.
    replace (n <? 0) with true by (symmetry; apply Z.ltb_lt; lia).
    eexists. split; [reflexivity |]. rewrite Z.abs_neq by lia. apply read_digits_of_Z. lia.
  - unfold cell_number_text, format_fixed.
    destruct (Prim2SF x) as [s | s | | s m e].
    + rewrite remove_commas_app, remove_commas_format_units. destruct s; reflexivity.
    + destruct s; reflexivity.
    + reflexivity.
    + rewrite remove_commas_app, remove_commas_format_units. destruct s; reflexivity.
Qed.
